(** * triton_dejavu.autotuner: a shallow embedding and its properties

    The development follows [src/triton_dejavu/autotuner.py]:
    - Python values, dictionaries (insertion ordered) and exceptions;
    - [Config] (triton's configuration object, as the module uses it);
    - [ConfigSpace] with [generate_config_list];
    - [Autotuner] with [__init__], [_bench], [prune_configs], [run] and
      [warmup], written in a
      state-and-exception monad in which a raise keeps the mutations made
      before it, as Python does.

    The kernel ([self.fn.run]), the benchmarking harness ([do_bench],
    [do_bench_cudagraph]), configuration hooks and the persistent storage
    are collaborators outside the module; they are fields of a [World]
    record, and every theorem quantifies over them. *)

From Stdlib Require Import String ZArith QArith Bool Arith Lia.
From Stdlib Require Import Permutation Sorted List.
Import ListNotations.
Open Scope string_scope.
Open Scope list_scope.
Open Scope nat_scope.

Set Implicit Arguments.

(** ** Python values *)

Definition loc := nat.

(** The values the module handles: [None], booleans, integers, strings and
    tensors.  A tensor value is a reference: its buffer lives in the heap at
    [l], its element type [dtype] (already rendered by [str]) is fixed.
    [hasattr(arg, "dtype")] holds of tensors only. *)
Inductive pyval :=
| VNone
| VBool (b : bool)
| VInt (z : Z)
| VStr (s : string)
| VTensor (l : loc) (dtype : string).

Definition pyval_eqb (a b : pyval) : bool :=
  match a, b with
  | VNone, VNone => true
  | VBool x, VBool y => Bool.eqb x y
  | VInt x, VInt y => Z.eqb x y
  | VStr x, VStr y => String.eqb x y
  | VTensor l d, VTensor l' d' => Nat.eqb l l' && String.eqb d d'
  | _, _ => false
  end.

(** ** Dictionaries

    A Python [dict] keeps insertion order; assigning to a key that is present
    replaces the value in place, a new key goes last. *)
Section Dict.
Variables K V : Type.
Variable eqb : K -> K -> bool.

Definition dict := list (K * V).

Fixpoint dict_get (d : dict) (k : K) : option V :=
  match d with
  | [] => None
  | (k', v) :: d' => if eqb k k' then Some v else dict_get d' k
  end.

Definition dict_mem (d : dict) (k : K) : bool :=
  match dict_get d k with Some _ => true | None => false end.

Fixpoint dict_set (d : dict) (k : K) (v : V) : dict :=
  match d with
  | [] => [(k, v)]
  | (k', v') :: d' =>
      if eqb k k' then (k', v) :: d' else (k', v') :: dict_set d' k v
  end.

(** [{**d1, **d2}] and [dict(d1, **d2)]. *)
Definition dict_update (d1 d2 : dict) : dict :=
  fold_left (fun d kv => dict_set d (fst kv) (snd kv)) d2 d1.

(** [dict(pairs)]. *)
Definition dict_of (pairs : list (K * V)) : dict := dict_update [] pairs.

Definition dict_keys (d : dict) : list K := map fst d.

(** [d1.keys() & d2.keys()], listed in the order of [d1]. *)
Definition keys_inter (d1 d2 : dict) : list K :=
  filter (dict_mem d2) (dict_keys d1).
End Dict.

Arguments dict_get {K V} eqb d k.
Arguments dict_mem {K V} eqb d k.
Arguments dict_set {K V} eqb d k v.
Arguments dict_update {K V} eqb d1 d2.
Arguments dict_of {K V} eqb pairs.
Arguments dict_keys {K V} d.
Arguments keys_inter {K V} eqb d1 d2.

(** Dictionaries keyed by names (keyword arguments, [nargs]). *)
Definition kwdict := dict string pyval.
Definition kw_get : kwdict -> string -> option pyval := dict_get String.eqb.
Definition kw_mem : kwdict -> string -> bool := dict_mem String.eqb.
Definition kw_update : kwdict -> kwdict -> kwdict := dict_update String.eqb.

(** ** Exceptions

    One constructor per raise site of the module and per exception class that
    [_bench] tells apart; [OtherError] stands for every other class a
    collaborator may raise. *)
Inductive time :=
| Fin (t : Z)       (* a finite latency *)
| Inf.              (* float("inf") *)

(** A measurement: a float in graph mode ([return_mode="median"]), the list
    of the three quantiles (0.5, 0.2, 0.8) in direct mode. *)
Inductive timing :=
| Scalar (t : time)
| Quantiles (t50 t20 t80 : time).

Inductive exn :=
| OutOfResources
| CompileTimeAssertionFailure
| AssertionError
| ConflictingMetaParameters (names : list string)  (* ValueError, _bench *)
| AllAutotuneExamplesFailed (t : timing)           (* RuntimeError, run *)
| MinOfEmptySequence                               (* ValueError, builtins.min *)
| NotInList                                        (* ValueError, list.index *)
| IndexError
| TypeError
| AttributeError
| OtherError (tag : string).

Inductive res (A : Type) :=
| Ok (a : A)
| Raise (e : exn).
Arguments Ok {A} a.
Arguments Raise {A} e.

(** A call [f] with the dictionaries [ds] unpacked as keyword arguments: a
    keyword given twice is a [TypeError] at the call. *)
Fixpoint splat (ds : list kwdict) : res kwdict :=
  match ds with
  | [] => Ok []
  | d :: rest =>
      match splat rest with
      | Raise e => Raise e
      | Ok r =>
          if existsb (kw_mem r) (dict_keys d) then Raise TypeError
          else Ok (d ++ r)
      end
  end.

(** ** Config *)

Module Config.
(** [triton.Config] as the module reads it: the meta-parameters [kwargs],
    the launch parameters ([None] when unset) and the optional [pre_hook],
    a callable named here by an identifier the [World] interprets.
    Configurations are dictionary keys; they are compared by value. *)
Record t := mk {
  kwargs : kwdict;
  num_warps : option Z;
  num_ctas : option Z;
  num_stages : option Z;
  maxnreg : option Z;
  enable_warp_specialization : bool;
  pre_hook : option nat
}.

(** [Config({}, num_warps=4, num_stages=2, num_ctas=1)]. *)
Definition default : t :=
  mk [] (Some 4%Z) (Some 1%Z) (Some 2%Z) None false None.

Definition opt_eqb {A} (e : A -> A -> bool) (a b : option A) : bool :=
  match a, b with
  | Some x, Some y => e x y
  | None, None => true
  | _, _ => false
  end.

Fixpoint kwdict_eqb (a b : kwdict) : bool :=
  match a, b with
  | [], [] => true
  | (k, v) :: a', (k', v') :: b' =>
      String.eqb k k' && pyval_eqb v v' && kwdict_eqb a' b'
  | _, _ => false
  end.

Definition eqb (a b : t) : bool :=
  kwdict_eqb (kwargs a) (kwargs b)
  && opt_eqb Z.eqb (num_warps a) (num_warps b)
  && opt_eqb Z.eqb (num_ctas a) (num_ctas b)
  && opt_eqb Z.eqb (num_stages a) (num_stages b)
  && opt_eqb Z.eqb (maxnreg a) (maxnreg b)
  && Bool.eqb (enable_warp_specialization a) (enable_warp_specialization b)
  && opt_eqb Nat.eqb (pre_hook a) (pre_hook b).

(** [_all_kwargs(self)], also what triton 3's own [all_kwargs] returns. *)
Definition all_kwargs (self : t) : kwdict :=
  kw_update (kwargs self)
    (flat_map
       (fun kv : string * option Z =>
          match snd kv with
          | Some v => [(fst kv, VInt v)]
          | None => []
          end)
       [("num_warps", num_warps self); ("num_ctas", num_ctas self);
        ("num_stages", num_stages self); ("maxnreg", maxnreg self)]).
End Config.

(** ** ConfigSpace *)

(** [itertools.product] over the lists [ls]: the leftmost list varies
    slowest; the product of no list is the one empty combination. *)
Fixpoint product {A} (ls : list (list A)) : list (list A) :=
  match ls with
  | [] => [[]]
  | l :: rest => flat_map (fun x => map (cons x) (product rest)) l
  end.

Module ConfigSpace.
Record t := mk {
  kwargs : dict string (list pyval);
  num_warps : list Z;
  num_ctas : list Z;
  num_stages : list Z;
  enable_warp_specialization : list bool;
  pre_hook : option nat;
  kwarg_conditions : list (kwdict -> bool)
}.

Definition or_default {A} (o : option A) (d : A) : A :=
  match o with Some x => x | None => d end.

(** [ConfigSpace.__init__]; [capability_major] is
    [torch.cuda.get_device_capability()[0]]. *)
Definition init (triton_major_version capability_major : Z)
    (kwargs_with_lists : dict string (list pyval))
    (num_warps num_stages num_ctas : option (list Z))
    (enable_warp_specialization : option (list bool))
    (pre_hook : option nat)
    (kwarg_conditions : option (list (kwdict -> bool))) : t :=
  mk kwargs_with_lists
     (or_default num_warps [4%Z])
     (match num_ctas with
      | None => [1%Z]
      | Some l => if (capability_major <? 9)%Z then [1%Z] else l
      end)
     (or_default num_stages [2%Z])
     (match enable_warp_specialization with
      | None => [false]
      | Some l => if (3 <=? triton_major_version)%Z then [false] else l
      end)
     pre_hook
     (or_default kwarg_conditions []).

Definition with_conditions (self : t) (conds : list (kwdict -> bool)) : t :=
  mk (kwargs self) (num_warps self) (num_ctas self) (num_stages self)
     (enable_warp_specialization self) (pre_hook self) conds.

Section Generate.
Variable triton_major_version : Z.
Variable self : t.

(** [nd = dict(zip(ks, cur_combination))] for every combination. *)
Definition kwarg_lists_complete : list kwdict :=
  let ks := map fst (kwargs self) in
  let vs := map snd (kwargs self) in
  map (fun cur_combination => dict_of String.eqb (combine ks cur_combination))
      (product vs).

(** The global AND over [kwarg_conditions]. *)
Definition accepted (kwarg : kwdict) : bool :=
  forallb (fun condition => condition kwarg) (kwarg_conditions self).

Definition kwarg_lists : list kwdict := filter accepted kwarg_lists_complete.

(** [itertools.product(num_warps, num_ctas, num_stages[, ews])]; with
    triton 3 the fourth component is not part of the product and the
    configuration keeps the constructor's default. *)
Definition config_product : list (Z * Z * Z * bool) :=
  if (3 <=? triton_major_version)%Z then
    map (fun p : Z * (Z * Z) =>
           (fst p, fst (snd p), snd (snd p), false))
        (list_prod (num_warps self)
           (list_prod (num_ctas self) (num_stages self)))
  else
    map (fun p : Z * (Z * (Z * bool)) =>
           (fst p, fst (snd p), fst (snd (snd p)), snd (snd (snd p))))
        (list_prod (num_warps self)
           (list_prod (num_ctas self)
              (list_prod (num_stages self)
                 (enable_warp_specialization self)))).

Definition generate_config_list : list Config.t :=
  let all_product := list_prod kwarg_lists config_product in
  map (fun cc : kwdict * (Z * Z * Z * bool) =>
         let '(kw, (nw, nc, ns, ews)) := cc in
         Config.mk kw (Some nw) (Some nc) (Some ns) None ews
                   (pre_hook self))
      all_product.

(** The number of launch-parameter combinations. *)
Definition launch_combinations : nat :=
  if (3 <=? triton_major_version)%Z then
    length (num_warps self) * length (num_ctas self)
    * length (num_stages self)
  else
    length (num_warps self) * length (num_ctas self)
    * length (num_stages self)
    * length (enable_warp_specialization self).

(** The number of combinations of the kwarg cross product that every
    predicate accepts. *)
Definition valid_kwarg_combinations : nat :=
  let ks := map fst (kwargs self) in
  length
    (filter
       (fun comb =>
          forallb (fun p => p (dict_of String.eqb (combine ks comb)))
                  (kwarg_conditions self))
       (product (map snd (kwargs self)))).

(** The cardinality of the whole kwarg cross product. *)
Definition kwarg_cross_product_cardinality : nat :=
  fold_right Nat.mul 1 (map (fun kv => length (snd kv)) (kwargs self)).
End Generate.
End ConfigSpace.

(** ** The heap, the collaborators and the engine's state *)

(** Tensor buffers by location; the kernel and the hooks mutate them in
    place, so two arguments naming one location share their buffer. *)
Definition heap := loc -> list Z.

Definition heap_set (h : heap) (l : loc) (d : list Z) : heap :=
  fun l' => if Nat.eqb l' l then d else h l'.

(** A cache key: the tuple of key-argument values and rendered dtypes. *)
Definition cache_key := list pyval.

Fixpoint key_eqb (a b : cache_key) : bool :=
  match a, b with
  | [], [] => true
  | x :: a', y :: b' => pyval_eqb x y && key_eqb a' b'
  | _, _ => false
  end.

(** What lies outside the module.  A collaborator gets the heap and returns
    the heap it leaves behind, together with its result or the exception it
    raised.
    - [fn_run args kw]: [self.fn.run] called with the positional arguments
      and the keyword arguments;
    - [config_pre_hook h full_nargs]: the callable a [Config] carries as
      [pre_hook], named [h];
    - the harness: [do_bench] and [do_bench_cudagraph] call [kernel_call]
      once and then [do_bench_extra_calls] more times, and report
      [do_bench_result] (three quantiles), respectively
      [do_bench_cudagraph_result] (the median), or raise. *)
Record World := {
  fn_run : list pyval -> kwdict -> heap -> heap * res pyval;
  config_pre_hook : nat -> kwdict -> heap -> heap * res unit;
  do_bench_extra_calls : Config.t -> nat;
  do_bench_result : Config.t -> res (Z * Z * Z);
  do_bench_cudagraph_result : Config.t -> res Z
}.

(** ** Comparing measurements, [builtins.min] *)

Definition time_eqb (a b : time) : bool :=
  match a, b with
  | Fin x, Fin y => Z.eqb x y
  | Inf, Inf => true
  | _, _ => false
  end.

Definition time_ltb (a b : time) : bool :=
  match a, b with
  | Fin x, Fin y => Z.ltb x y
  | Fin _, Inf => true
  | Inf, _ => false
  end.

(** One position of a list comparison: the elements decide when they
    differ, else the rest of the lists does. *)
Definition lex (x y : time) (rest : bool) : bool :=
  if negb (time_eqb x y) then time_ltb x y else rest.

(** [a < b] on measurements: floats by value, lists of floats in
    lexicographic order (the first position where they differ decides); a
    float against a list is a [TypeError]. *)
Definition timing_lt (a b : timing) : res bool :=
  match a, b with
  | Scalar x, Scalar y => Ok (time_ltb x y)
  | Quantiles a0 a1 a2, Quantiles b0 b1 b2 =>
      Ok (lex a0 b0 (lex a1 b1 (time_ltb a2 b2)))
  | _, _ => Raise TypeError
  end.

(** The loop of [builtins.min(timings, key=timings.get)]: the dictionary is
    walked in insertion order, and the candidate kept changes only when a
    strictly smaller measurement shows up. *)
Fixpoint min_loop (best : Config.t * timing)
    (rest : list (Config.t * timing)) : res Config.t :=
  match rest with
  | [] => Ok (fst best)
  | ct :: rest' =>
      match timing_lt (snd ct) (snd best) with
      | Raise e => Raise e
      | Ok true => min_loop ct rest'
      | Ok false => min_loop best rest'
      end
  end.

Definition py_min (timings : dict Config.t timing) : res Config.t :=
  match timings with
  | [] => Raise MinOfEmptySequence
  | ct :: rest => min_loop ct rest
  end.

(** [l[:k]] for an integer [k]. *)
Definition slice_to {A} (l : list A) (k : Z) : list A :=
  if (0 <=? k)%Z then firstn (Z.to_nat k) l
  else firstn (length l - Z.to_nat (- k)) l.

(** [sorted(l, key=key)]: stable, ascending. *)
Fixpoint insert_by {A} (key : A -> Z) (x : A) (l : list A) : list A :=
  match l with
  | [] => [x]
  | y :: l' => if (key x <=? key y)%Z then x :: l else y :: insert_by key x l'
  end.

Definition sorted_by {A} (key : A -> Z) (l : list A) : list A :=
  fold_right (insert_by key) [] l.

(** [names.index(k)]. *)
Fixpoint index_of (names : list string) (k : string) : res nat :=
  match names with
  | [] => Raise NotInList
  | n :: names' =>
      if String.eqb n k then Ok 0
      else match index_of names' k with
           | Ok i => Ok (S i)
           | Raise e => Raise e
           end
  end.

Fixpoint res_map {A B} (f : A -> res B) (l : list A) : res (list B) :=
  match l with
  | [] => Ok []
  | x :: l' =>
      match f x with
      | Raise e => Raise e
      | Ok y => match res_map f l' with
                | Raise e => Raise e
                | Ok ys => Ok (y :: ys)
                end
      end
  end.

(** ** Autotuner *)

Module Autotuner.

(** [configs_top_k]: an [int] or a [float]. *)
Inductive top_k :=
| TopKInt (k : Z)
| TopKFloat (q : Q).

(** The attributes [__init__] sets and no method changes. *)
Record t := mk {
  configs : list Config.t;
  configs_len : nat;
  arg_names : list string;
  key_idx : list nat;
  reset_idx : list nat;
  restore_idx : list nat;
  custom_pre_hook : option (list pyval -> bool -> heap -> heap * res unit);
  custom_post_hook : option (list pyval -> heap -> heap * res unit);
  perf_model : option (kwdict -> Z);
  configs_top_k : top_k;
  early_config_prune :
    option (list Config.t -> option kwdict -> kwdict -> list Config.t);
  use_cuda_graph : bool;
  warmup_t : Z;
  rep_t : Z
}.

(** One call of [global_dejavu_storage.add_autotuner_cache]. *)
Record store_call := mk_store_call {
  sc_cache : dict cache_key Config.t;
  sc_configs_len : nat;
  sc_timings : dict cache_key timing;
  sc_rep_t : Z;
  sc_warmup_t : Z
}.

(** What the kernel sees: a run inside a benchmarking trial, or the
    production dispatch. *)
Inductive event :=
| Trial (config : Config.t)
| Dispatch (config : Config.t).

(** The attributes the methods mutate, the heap, the calls received by the
    storage and the kernel's invocations, oldest first. *)
Record state := mk_state {
  cache : dict cache_key Config.t;
  _timings : dict cache_key timing;
  restore_copies : list (list Z);
  nargs : option kwdict;
  best_config : option Config.t;
  configs_timings : dict Config.t timing;
  hp : heap;
  storage : list store_call;
  trace : list event
}.

Definition set_cache (f : dict cache_key Config.t -> dict cache_key Config.t)
    (s : state) : state :=
  mk_state (f (cache s)) (_timings s) (restore_copies s) (nargs s)
    (best_config s) (configs_timings s) (hp s) (storage s) (trace s).
Definition set_timings (f : dict cache_key timing -> dict cache_key timing)
    (s : state) : state :=
  mk_state (cache s) (f (_timings s)) (restore_copies s) (nargs s)
    (best_config s) (configs_timings s) (hp s) (storage s) (trace s).
Definition set_restore_copies (c : list (list Z)) (s : state) : state :=
  mk_state (cache s) (_timings s) c (nargs s)
    (best_config s) (configs_timings s) (hp s) (storage s) (trace s).
Definition set_nargs (n : option kwdict) (s : state) : state :=
  mk_state (cache s) (_timings s) (restore_copies s) n
    (best_config s) (configs_timings s) (hp s) (storage s) (trace s).
Definition set_best_config (c : option Config.t) (s : state) : state :=
  mk_state (cache s) (_timings s) (restore_copies s) (nargs s)
    c (configs_timings s) (hp s) (storage s) (trace s).
Definition set_configs_timings (d : dict Config.t timing) (s : state) : state :=
  mk_state (cache s) (_timings s) (restore_copies s) (nargs s)
    (best_config s) d (hp s) (storage s) (trace s).
Definition set_hp (h : heap) (s : state) : state :=
  mk_state (cache s) (_timings s) (restore_copies s) (nargs s)
    (best_config s) (configs_timings s) h (storage s) (trace s).
Definition add_store_call (c : store_call) (s : state) : state :=
  mk_state (cache s) (_timings s) (restore_copies s) (nargs s)
    (best_config s) (configs_timings s) (hp s) (storage s ++ [c]) (trace s).
Definition add_event (e : event) (s : state) : state :=
  mk_state (cache s) (_timings s) (restore_copies s) (nargs s)
    (best_config s) (configs_timings s) (hp s) (storage s) (trace s ++ [e]).

(** *** The monad: state, and exceptions that keep the state *)

Definition M (A : Type) := state -> res A * state.

Definition ret {A} (a : A) : M A := fun s => (Ok a, s).
Definition raise {A} (e : exn) : M A := fun s => (Raise e, s).
Definition bind {A B} (m : M A) (f : A -> M B) : M B :=
  fun s =>
    match m s with
    | (Ok a, s') => f a s'
    | (Raise e, s') => (Raise e, s')
    end.
Definition get : M state := fun s => (Ok s, s).
Definition modify (f : state -> state) : M unit := fun s => (Ok tt, f s).
Definition lift {A} (r : res A) : M A := fun s => (r, s).
(** [try: m except ...: handler e]; the handler re-raises what it does
    not catch. *)
Definition try_except {A} (m : M A) (handler : exn -> M A) : M A :=
  fun s =>
    match m s with
    | (Ok a, s') => (Ok a, s')
    | (Raise e, s') => handler e s'
    end.
(** A collaborator's call, run on the current heap. *)
Definition external {A} (f : heap -> heap * res A) : M A :=
  fun s => let '(h, r) := f (hp s) in (r, set_hp h s).

Declare Scope monad_scope.
Delimit Scope monad_scope with monad.
Notation "x <- m ;; k" := (bind m (fun x => k))
  (at level 61, m at next level, right associativity) : monad_scope.
Notation "m ;; k" := (bind m (fun _ => k))
  (at level 61, right associativity) : monad_scope.
Local Open Scope monad_scope.

Fixpoint for_each {A} (l : list A) (body : A -> M unit) : M unit :=
  match l with
  | [] => ret tt
  | x :: l' => body x ;; for_each l' body
  end.

(** A list comprehension whose element expression has effects. *)
Fixpoint comprehension {A B} (l : list A) (elt : A -> M B) : M (list B) :=
  match l with
  | [] => ret []
  | x :: l' => y <- elt x ;; ys <- comprehension l' elt ;; ret (y :: ys)
  end.

Fixpoint repeat_call (n : nat) (fn : M unit) : M unit :=
  match n with
  | 0 => ret tt
  | S n' => fn ;; repeat_call n' fn
  end.

Fixpoint enumerate_from {A} (i : nat) (l : list A) : list (nat * A) :=
  match l with
  | [] => []
  | x :: l' => (i, x) :: enumerate_from (S i) l'
  end.

(** *** Tensor methods on [args[i]] *)

Definition tensor_arg (args : list pyval) (i : nat) : M loc :=
  match nth_error args i with
  | None => raise IndexError
  | Some (VTensor l _) => ret l
  | Some _ => raise AttributeError
  end.

(** [args[i].zero_()]. *)
Definition zero_ (args : list pyval) (i : nat) : M unit :=
  l <- tensor_arg args i ;;
  modify (fun s => set_hp (heap_set (hp s) l (map (fun _ => 0%Z) (hp s l))) s).

(** [args[i].clone()]. *)
Definition clone (args : list pyval) (i : nat) : M (list Z) :=
  l <- tensor_arg args i ;;
  s <- get ;;
  ret (hp s l).

(** [args[j].copy_(self.restore_copies[i])] for [ij = (i, j)]. *)
Definition restore_one (args : list pyval) (ij : nat * nat) : M unit :=
  l <- tensor_arg args (snd ij) ;;
  s <- get ;;
  match nth_error (restore_copies s) (fst ij) with
  | None => raise IndexError
  | Some src => modify (fun s => set_hp (heap_set (hp s) l src) s)
  end.

Section Methods.
Variable triton_major_version : Z.
Variable world : World.
Variable self : t.

(** *** The hooks of [__init__] *)

Definition _pre_hook (args : list pyval) (reset_only : bool) : M unit :=
  for_each (reset_idx self) (zero_ args) ;;
  if reset_only then ret tt
  else
    copies <- comprehension (restore_idx self) (clone args) ;;
    modify (set_restore_copies copies).

Definition _post_hook (args : list pyval) : M unit :=
  for_each (enumerate_from 0 (restore_idx self)) (restore_one args) ;;
  modify (set_restore_copies []).

(** [self.pre_hook]: the custom hook when one was given, else
    [_pre_hook] when an argument is to be reset or restored, else the
    hook that does nothing. *)
Definition pre_hook (args : list pyval) (reset_only : bool) : M unit :=
  match custom_pre_hook self with
  | Some f => external (f args reset_only)
  | None =>
      if (0 <? length (reset_idx self)) || (0 <? length (restore_idx self))
      then _pre_hook args reset_only
      else ret tt
  end.

Definition post_hook (args : list pyval) : M unit :=
  match custom_post_hook self with
  | Some f => external (f args)
  | None =>
      if 0 <? length (restore_idx self) then _post_hook args else ret tt
  end.

(** [if config.pre_hook: config.pre_hook(full_nargs)]. *)
Definition call_config_pre_hook (config : Config.t) (full_nargs : kwdict)
  : M unit :=
  match Config.pre_hook config with
  | None => ret tt
  | Some h => external (config_pre_hook world h full_nargs)
  end.

(** [self.fn.run( *args, ...)] with the keyword arguments [kw]; when a
    keyword is given twice the call raises before the kernel runs. *)
Definition call_fn_run (ev : event) (args : list pyval) (kw : res kwdict)
  : M pyval :=
  kw <- lift kw ;;
  modify (add_event ev) ;;
  external (fn_run world args kw).

Definition get_nargs : M kwdict :=
  s <- get ;;
  match nargs s with
  | Some n => ret n
  | None => raise TypeError
  end.

Definition opt_val (o : option Z) : pyval :=
  match o with Some z => VInt z | None => VNone end.

(** The launch parameters triton 2 takes as explicit keywords. *)
Definition launch_keywords (config : Config.t) : kwdict :=
  [("num_warps", opt_val (Config.num_warps config));
   ("num_stages", opt_val (Config.num_stages config));
   ("num_ctas", opt_val (Config.num_ctas config));
   ("enable_warp_specialization",
    VBool (Config.enable_warp_specialization config))].

(** *** _bench *)

(** [kernel_call] of [_bench]. *)
Definition kernel_call (args : list pyval) (config : Config.t)
    (current full_nargs : kwdict) : M unit :=
  call_config_pre_hook config full_nargs ;;
  pre_hook args false ;;
  (if (3 <=? triton_major_version)%Z
   then call_fn_run (Trial config) args (splat [current])
   else call_fn_run (Trial config) args
          (splat [launch_keywords config; current])) ;;
  post_hook args.

Definition do_bench (config : Config.t) (fn : M unit) : M timing :=
  repeat_call (S (do_bench_extra_calls world config)) fn ;;
  q <- lift (do_bench_result world config) ;;
  let '(t50, t20, t80) := q in
  ret (Quantiles (Fin t50) (Fin t20) (Fin t80)).

Definition do_bench_cudagraph (config : Config.t) (fn : M unit) : M timing :=
  repeat_call (S (do_bench_extra_calls world config)) fn ;;
  t <- lift (do_bench_cudagraph_result world config) ;;
  ret (Scalar (Fin t)).

(** The value [_bench] returns for a failed candidate with triton 3. *)
Definition failure_sentinel : timing :=
  if use_cuda_graph self then Scalar Inf else Quantiles Inf Inf Inf.

(** The body of the [try] statement of [_bench]. *)
Definition measure (args : list pyval) (config : Config.t)
    (current full_nargs : kwdict) : M timing :=
  if (3 <=? triton_major_version)%Z then
    if use_cuda_graph self
    then do_bench_cudagraph config (kernel_call args config current full_nargs)
    else do_bench config (kernel_call args config current full_nargs)
  else do_bench config (kernel_call args config current full_nargs).

(** The [except] clauses of [_bench]. *)
Definition bench_handler (e : exn) : M timing :=
  if (3 <=? triton_major_version)%Z then
    match e with
    | OutOfResources | CompileTimeAssertionFailure | AssertionError =>
        ret failure_sentinel
    | _ => raise e
    end
  else
    match e with
    | OutOfResources | AssertionError => ret (Quantiles Inf Inf Inf)
    | _ => raise e
    end.

Definition _bench (args : list pyval) (config : Config.t) (meta : kwdict)
  : M timing :=
  let conflicts := keys_inter String.eqb meta (Config.kwargs config) in
  match conflicts with
  | _ :: _ => raise (ConflictingMetaParameters conflicts)
  | [] =>
      let current := kw_update meta (Config.all_kwargs config) in
      n <- get_nargs ;;
      let full_nargs := kw_update n current in
      try_except (measure args config current full_nargs) bench_handler
  end.

(** *** prune_configs *)

(** [top_k] after the conversion of a fraction: [int(len(configs) * top_k)]
    truncates towards zero.  The fraction is a rational here and the product
    is exact, where Python multiplies in binary floating point and rounds:
    the two agree when the product is representable (as for 1.0, 0.5 or
    0.25), and can differ by one otherwise (0.58 of 50 configurations is 29
    here, and 28.999999999999996, truncated to 28, in Python).  No property
    below depends on the converted value of a fraction other than 1.0. *)
Definition effective_top_k : top_k :=
  match configs_top_k self with
  | TopKFloat q =>
      if Qle_bool q 1
      then TopKInt (Z.quot (Z.of_nat (length (configs self)) * Qnum q)
                           (Zpos (Qden q)))
      else TopKFloat q
  | TopKInt k => TopKInt k
  end.

(** [len(pruned_configs) > top_k]. *)
Definition exceeds (n : nat) (k : top_k) : bool :=
  match k with
  | TopKInt k => (k <? Z.of_nat n)%Z
  | TopKFloat q => negb (Qle_bool (inject_Z (Z.of_nat n)) q)
  end.

(** The keyword arguments of one call of [perf_model]. *)
Definition perf_model_kwargs (n kwargs : kwdict) (config : Config.t)
  : res kwdict :=
  if (3 <=? triton_major_version)%Z
  then splat [n; kwargs; Config.all_kwargs config]
  else splat [n; kwargs; Config.kwargs config;
              [("num_stages", opt_val (Config.num_stages config));
               ("num_warps", opt_val (Config.num_warps config));
               ("num_ctas", opt_val (Config.num_ctas config))]].

Definition prune_configs (kwargs : kwdict) : M (list Config.t) :=
  s <- get ;;
  let pruned_configs :=
    match early_config_prune self with
    | Some f => f (configs self) (nargs s) kwargs
    | None => configs self
    end in
  match perf_model self with
  | None => ret pruned_configs
  | Some model =>
      let top_k := effective_top_k in
      if exceeds (length pruned_configs) top_k then
        n <- get_nargs ;;
        est <- lift (res_map
                 (fun config =>
                    match perf_model_kwargs n kwargs config with
                    | Ok kw => Ok (config, model kw)
                    | Raise e => Raise e
                    end)
                 pruned_configs) ;;
        let est_timing := dict_of Config.eqb est in
        let ranked := map fst (sorted_by snd est_timing) in
        match top_k with
        | TopKInt k => ret (slice_to ranked k)
        | TopKFloat _ => raise TypeError
        end
      else ret pruned_configs
  end.

(** *** run *)

(** The key of a call (lines 285 to 294 of the source): the values at
    the positions [key_idx] of [_args], the arguments that were given, in
    declaration order, then the dtype of every given argument that has
    one. *)
Definition given_args (n kwargs : kwdict) : list pyval :=
  let all_args := kw_update n kwargs in
  flat_map
    (fun name =>
       match kw_get all_args name with
       | Some v => [v]
       | None => []
       end)
    (arg_names self).

Definition derive_key (n kwargs : kwdict) : res cache_key :=
  let _args := given_args n kwargs in
  match res_map
          (fun i => match nth_error _args i with
                    | Some v => Ok v
                    | None => Raise IndexError
                    end)
          (key_idx self) with
  | Raise e => Raise e
  | Ok key =>
      Ok (key ++ flat_map
                   (fun arg => match arg with
                               | VTensor _ dtype => [VStr dtype]
                               | _ => []
                               end)
                   _args)
  end.

(** [dict(zip(self.arg_names, args))]. *)
Definition nargs_of (args : list pyval) : kwdict :=
  dict_of String.eqb (combine (arg_names self) args).

(** [{config: self._bench(...) for config in pruned_configs}]. *)
Fixpoint benchmark (args : list pyval) (kwargs : kwdict)
    (pruned_configs : list Config.t) (timings : dict Config.t timing)
  : M (dict Config.t timing) :=
  match pruned_configs with
  | [] => ret timings
  | config :: rest =>
      t <- _bench args config kwargs ;;
      benchmark args kwargs rest (dict_set Config.eqb timings config t)
  end.

(** The condition of the [if] that guards the [RuntimeError]. *)
Definition all_failed (t : timing) : res bool :=
  if use_cuda_graph self then
    match t with
    | Scalar x => Ok (time_eqb x Inf)
    | Quantiles _ _ _ => Ok false
    end
  else
    match t with
    | Quantiles x _ _ => Ok (time_eqb x Inf)
    | Scalar _ => Raise TypeError
    end.

Definition lookup {K V} (eqb : K -> K -> bool) (d : dict K V) (k : K)
  : M V :=
  match dict_get eqb d k with
  | Some v => ret v
  | None => raise (OtherError "KeyError")
  end.

(** The branch taken when the key is not in the cache (lines 296 to
    316). *)
Definition tune (args : list pyval) (kwargs : kwdict) (key : cache_key)
  : M Config.t :=
  pruned_configs <- prune_configs kwargs ;;
  timings <- benchmark args kwargs pruned_configs [] ;;
  winner <- lift (py_min timings) ;;
  modify (set_cache (fun c => dict_set key_eqb c key winner)) ;;
  t <- lookup Config.eqb timings winner ;;
  modify (set_timings (fun d => dict_set key_eqb d key t)) ;;
  failed <- lift (all_failed t) ;;
  if failed : bool then raise (AllAutotuneExamplesFailed t)
  else
    modify (set_configs_timings timings) ;;
    pre_hook args true ;;
    s <- get ;;
    lookup key_eqb (cache s) key.

(** Lines 281 to 337: the configuration of this call and whether it came
    without tuning, then the report to the storage. *)
Definition resolve (args : list pyval) (kwargs : kwdict) : M Config.t :=
  let n := nargs_of args in
  modify (set_nargs (Some n)) ;;
  cu <- (if 1 <? length (configs self) then
           key <- lift (derive_key n kwargs) ;;
           s <- get ;;
           if dict_mem key_eqb (cache s) key
           then config <- lookup key_eqb (cache s) key ;; ret (config, true)
           else config <- tune args kwargs key ;; ret (config, false)
         else
           match configs self with
           | config :: _ => ret (config, true)
           | [] => raise IndexError
           end) ;;
  let '(config, used_cached_result) := cu in
  modify (set_best_config (Some config)) ;;
  (if used_cached_result : bool then ret tt
   else
     s <- get ;;
     modify (add_store_call
               (mk_store_call (cache s) (configs_len self) (_timings s)
                              (rep_t self) (warmup_t self)))) ;;
  ret config.

(** Lines 338 to 360: the production dispatch. *)
Definition launch (args : list pyval) (kwargs : kwdict) (config : Config.t)
  : M pyval :=
  n <- get_nargs ;;
  let full_nargs := kw_update (kw_update n kwargs) (Config.kwargs config) in
  call_config_pre_hook config full_nargs ;;
  r <- (if (3 <=? triton_major_version)%Z
        then call_fn_run (Dispatch config) args
               (splat [kwargs; Config.all_kwargs config])
        else call_fn_run (Dispatch config) args
               (splat [launch_keywords config; kwargs;
                       Config.kwargs config])) ;;
  modify (set_nargs None) ;;
  ret r.

Definition run (args : list pyval) (kwargs : kwdict) : M pyval :=
  config <- resolve args kwargs ;;
  launch args kwargs config.

(** *** warmup *)

(** [self.fn.warmup], the kernel's compilation path, and the attribute
    [enable_persistent] that triton 2 configurations carry (the record
    [Config.t] has no field for it). *)
Variable fn_warmup : list pyval -> kwdict -> heap -> heap * res pyval.
Variable enable_persistent : Config.t -> pyval.

Definition warmup_one (args : list pyval) (kwargs : kwdict) (config : Config.t)
  : M pyval :=
  kw <- lift (if (3 <=? triton_major_version)%Z
              then splat [kwargs; Config.all_kwargs config]
              else splat [[("num_warps", opt_val (Config.num_warps config));
                           ("num_ctas", opt_val (Config.num_ctas config));
                           ("num_stages", opt_val (Config.num_stages config));
                           ("enable_warp_specialization",
                            VBool (Config.enable_warp_specialization config));
                           ("enable_persistent", enable_persistent config)];
                          kwargs; Config.kwargs config]) ;;
  external (fn_warmup args kw).

Definition warmup (args : list pyval) (kwargs : kwdict) : M (list pyval) :=
  modify (set_nargs (Some (nargs_of args))) ;;
  pruned_configs <- prune_configs kwargs ;;
  ret_ <- comprehension pruned_configs (warmup_one args kwargs) ;;
  modify (set_nargs None) ;;
  ret ret_.
End Methods.

(** *** __init__ *)

(** The dictionary [prune_configs_by]. *)
Record prune_spec := mk_prune_spec {
  ps_perf_model : option (kwdict -> Z);
  ps_top_k : option top_k;
  ps_early_config_prune :
    option (list Config.t -> option kwdict -> kwdict -> list Config.t)
}.

Definition indices (arg_names : list string) (names : option (list string))
  : res (list nat) :=
  match names with
  | None => Ok []
  | Some l => res_map (index_of arg_names) l
  end.

(** [Autotuner.__init__].  [configs] is the list given ([None] and the
    empty list behave alike); [use_only_restored] is the environment switch
    [TRITON_DEJAVU_USE_ONLY_RESTORED], and [used_configs] what the storage
    answers to [get_used_configs]. *)
Definition init (triton_major_version : Z) (cuda_available : bool)
    (use_only_restored : bool) (used_configs : list Config.t)
    (arg_names : list string) (configs : list Config.t) (key : list string)
    (reset_to_zero restore_value : option (list string))
    (pre_hook : option (list pyval -> bool -> heap -> heap * res unit))
    (post_hook : option (list pyval -> heap -> heap * res unit))
    (prune_configs_by : option prune_spec)
    (warmup rep : Z) (use_cuda_graph : bool)
    (config_space : option ConfigSpace.t) : res t :=
  match
    (match config_space with
     | Some cs =>
         match configs with
         | [] => Ok (ConfigSpace.generate_config_list triton_major_version cs)
         | _ :: _ => Raise AssertionError
         end
     | None =>
         match configs with
         | [] => Ok [Config.default]
         | _ :: _ => Ok configs
         end
     end)
  with
  | Raise e => Raise e
  | Ok configs0 =>
      match indices arg_names (Some key) with
      | Raise e => Raise e
      | Ok key_idx =>
          match indices arg_names reset_to_zero with
          | Raise e => Raise e
          | Ok reset_idx =>
              match indices arg_names restore_value with
              | Raise e => Raise e
              | Ok restore_idx =>
                  let ps := match prune_configs_by with
                            | Some ps => ps
                            | None => mk_prune_spec None None None
                            end in
                  Ok (mk (if use_only_restored then used_configs else configs0)
                         (length configs0)
                         arg_names key_idx reset_idx restore_idx
                         pre_hook post_hook
                         (ps_perf_model ps)
                         (match ps_top_k ps with
                          | Some k => k
                          | None => TopKFloat 1
                          end)
                         (ps_early_config_prune ps)
                         (if (3 <=? triton_major_version)%Z
                          then use_cuda_graph && cuda_available
                          else false)
                         warmup rep)
              end
          end
      end
  end.

(** The state of a fresh engine: the cache is what the storage restored.
    [__init__] does not assign [nargs]; [None] stands here for the missing
    attribute as well as for the [None] that [run] and [warmup] leave
    behind.  [run] and [warmup] assign it before they read it; a direct
    call of [prune_configs] or [_bench] on a fresh engine fails on the
    missing attribute with an [AttributeError], which is a [TypeError]
    here, as it is in Python once a call has left [None]. *)
Definition init_state (restored : dict cache_key Config.t) (h : heap) : state :=
  mk_state restored [] [] None None [] h [] [].

(** *** Sequences of calls *)

(** One call of the engine: the collaborators as they behave during the
    call, the heap the caller presents, and the arguments. *)
Record call := mk_call {
  c_world : World;
  c_heap : heap;
  c_args : list pyval;
  c_kwargs : kwdict
}.

Definition run_call (triton_major_version : Z) (self : t) (c : call)
    (s : state) : res pyval * state :=
  run triton_major_version (c_world c) self (c_args c) (c_kwargs c)
      (set_hp (c_heap c) s).

Fixpoint run_calls (triton_major_version : Z) (self : t) (cs : list call)
    (s : state) : state :=
  match cs with
  | [] => s
  | c :: cs' =>
      run_calls triton_major_version self cs'
        (snd (run_call triton_major_version self c s))
  end.

(** The key [run] derives for a call. *)
Definition key_of_call (self : t) (c : call) : res cache_key :=
  derive_key self (nargs_of self (c_args c)) (c_kwargs c).

(** The kernel invocations a call adds to the trace. *)
Definition events_of_call (triton_major_version : Z) (self : t) (c : call)
    (s : state) : list event :=
  skipn (length (trace s))
        (trace (snd (run_call triton_major_version self c s))).

Definition is_trial (e : event) : bool :=
  match e with Trial _ => true | Dispatch _ => false end.
End Autotuner.

(** ** Engines and collaborators of the examples *)

Module Ex.
Definition block (n : Z) : Config.t :=
  Config.mk [("BLOCK", VInt n)] (Some 4%Z) (Some 1%Z) (Some 2%Z) None false None.
Definition c16 : Config.t := block 16.
Definition c32 : Config.t := block 32.
(** A configuration that sets no launch parameter. *)
Definition bare : Config.t := Config.mk [] None None None None false None.

(** [kernel(x, n)] tuned on [n]; [reset] and [restore] are the positions
    of [reset_to_zero] and [restore_value]. *)
Definition engine (configs : list Config.t) (reset restore : list nat)
  : Autotuner.t :=
  Autotuner.mk configs (length configs) ["x"; "n"] [1] reset restore
    None None None (Autotuner.TopKFloat 1) None false 25%Z 100%Z.

(** The kernel adds one to every element of the buffer at location 0. *)
Definition add_one : list pyval -> kwdict -> heap -> heap * res pyval :=
  fun _ _ h => (heap_set h 0 (map (fun z => (z + 1)%Z) (h 0)), Ok VNone).

(** The kernel fails with the exception [e] and leaves the heap alone. *)
Definition failing (e : exn) : list pyval -> kwdict -> heap -> heap * res pyval :=
  fun _ _ h => (h, Raise e).

(** The harness calls [kernel_call] twice and reports [quantiles]. *)
Definition world (kernel : list pyval -> kwdict -> heap -> heap * res pyval)
    (quantiles : Config.t -> Z * Z * Z) : World :=
  Build_World kernel (fun _ _ h => (h, Ok tt)) (fun _ => 1)
    (fun c => Ok (quantiles c)) (fun c => Ok (fst (fst (quantiles c)))).

Definition flat : Config.t -> Z * Z * Z := fun _ => (5, 4, 6)%Z.

(** [c16] and [c32] tie on the median; [c32] has the smaller 20%% quantile. *)
Definition tie_on_median : Config.t -> Z * Z * Z :=
  fun c => if Config.eqb c c16 then (5, 4, 6)%Z else (5, 3, 6)%Z.

Definition h7 : heap := fun _ => [7%Z].
Definition x : pyval := VTensor 0 "float32".
Definition fresh : Autotuner.state := Autotuner.init_state [] h7.

(** [kernel[grid](x, 100)]. *)
Definition call100 (w : World) : Autotuner.call :=
  Autotuner.mk_call w h7 [x; VInt 100] [].
Definition key100 : cache_key := [VInt 100; VStr "float32"].

Definition two : Autotuner.t := engine [c16; c32] [] [].
Definition ok_world : World := world add_one flat.
Definition tie_world : World := world add_one tie_on_median.
(** Every launch asks for more resources than the device has. *)
Definition oor_world : World := world (failing OutOfResources) flat.
(** Every launch fails on a [static_assert]. *)
Definition cta_world : World := world (failing CompileTimeAssertionFailure) flat.
(** Every launch fails for a reason [_bench] does not know. *)
Definition broken_world : World := world (failing (OtherError "CUDA error")) flat.

(** [kernel(x, BLOCK, n)], tuned on [n]; [BLOCK] comes from the
    configuration, so a call gives [x] and [n=...]. *)
Definition tunable_in_the_middle : Autotuner.t :=
  Autotuner.mk [c16; c32] 2 ["x"; "BLOCK"; "n"] [2] [] []
    None None None (Autotuner.TopKFloat 1) None false 25%Z 100%Z.

(** [kernel(a, b, c)] with a default for [a], tuned on [b]. *)
Definition with_default : Autotuner.t :=
  Autotuner.mk [c16; c32] 2 ["a"; "b"; "c"] [1] [] []
    None None None (Autotuner.TopKFloat 1) None false 25%Z 100%Z.

(** A space whose predicate rejects every combination. *)
Definition rejecting_space : ConfigSpace.t :=
  ConfigSpace.init 3 9 [("BLOCK", [VInt 16; VInt 32])] None None None None
    None (Some [fun _ : kwdict => false]).

(** [restore_value=["x"]], respectively [reset_to_zero=["x"]]. *)
Definition restoring : Autotuner.t := engine [c16; c32] [] [0].
Definition resetting : Autotuner.t := engine [c16; c32] [0] [].
(** [x] named in both lists. *)
Definition reset_and_restored : Autotuner.t := engine [c16; c32] [0] [0].

(** [ConfigSpace({"BLOCK": [16, 32]}, num_warps=[4, 8])]. *)
Definition block_space : ConfigSpace.t :=
  ConfigSpace.init 3 9 [("BLOCK", [VInt 16; VInt 32])] (Some [4%Z; 8%Z]) None
    None None None None.

(** The timings of [c16] and [c32] under [tie_on_median]. *)
Definition tie_timings : dict Config.t timing :=
  [(c16, Quantiles (Fin 5) (Fin 4) (Fin 6));
   (c32, Quantiles (Fin 5) (Fin 3) (Fin 6))].
(** A performance model that predicts the block size as the cost. *)
Definition block_cost : kwdict -> Z :=
  fun kw => match kw_get kw "BLOCK" with Some (VInt b) => b | _ => 0%Z end.

(** Four block sizes, ranked by [block_cost] under [top_k]. *)
Definition ranked (top_k : Autotuner.top_k) : Autotuner.t :=
  Autotuner.mk [block 64; block 16; block 128; block 32] 4 ["x"; "n"] [1] [] []
    None None (Some block_cost) top_k None false 25%Z 100%Z.

(** An early pruner that rejects every configuration. *)
Definition nothing_left : Autotuner.t :=
  Autotuner.mk [c16; c32] 2 ["x"; "n"] [1] [] [] None None None
    (Autotuner.TopKFloat 1) (Some (fun _ _ _ => [])) false 25%Z 100%Z.

(** [fn.warmup] returns the compiled kernel. *)
Definition compile : list pyval -> kwdict -> heap -> heap * res pyval :=
  fun _ _ h => (h, Ok (VStr "compiled")).
End Ex.

(** ** Selection as the specification words it

    The specification takes the first element of a measurement as its
    representative scalar and lets the first candidate that reaches the
    minimum win.  [select_by_representative] follows these words; it is
    compared with [py_min], which follows the source. *)
Definition representative (t : timing) : time :=
  match t with
  | Scalar x => x
  | Quantiles x _ _ => x
  end.

Fixpoint first_min_by_representative (best : Config.t * timing)
    (rest : list (Config.t * timing)) : Config.t :=
  match rest with
  | [] => fst best
  | ct :: rest' =>
      if time_ltb (representative (snd ct)) (representative (snd best))
      then first_min_by_representative ct rest'
      else first_min_by_representative best rest'
  end.

Definition select_by_representative (timings : dict Config.t timing)
  : option Config.t :=
  match timings with
  | [] => None
  | ct :: rest => Some (first_min_by_representative ct rest)
  end.

(** * Properties *)

Lemma pyval_eqb_eq a b : pyval_eqb a b = true <-> a = b.
Proof.
  destruct a, b; simpl; split; intro H; try discriminate; try congruence.
  - apply Bool.eqb_prop in H. congruence.
  - inversion H. apply Bool.eqb_reflx.
  - apply Z.eqb_eq in H. congruence.
  - inversion H. apply Z.eqb_refl.
  - apply String.eqb_eq in H. congruence.
  - inversion H. apply String.eqb_refl.
  - apply andb_true_iff in H as [H1 H2].
    apply Nat.eqb_eq in H1. apply String.eqb_eq in H2. congruence.
  - inversion H. now rewrite Nat.eqb_refl, String.eqb_refl.
Qed.

Lemma product_length {A} (ls : list (list A)) :
  length (product ls) = fold_right Nat.mul 1 (map (@length A) ls).
Proof.
  induction ls as [|l rest IH]; simpl; [reflexivity|].
  rewrite <- IH. clear IH.
  induction l as [|x l IHl]; simpl; [reflexivity|].
  now rewrite length_app, length_map, IHl.
Qed.

Lemma filter_map_comm {A B} (f : A -> B) (p : B -> bool) (l : list A) :
  filter p (map f l) = map f (filter (fun x => p (f x)) l).
Proof.
  induction l as [|x l IH]; simpl; [reflexivity|].
  destruct (p (f x)); simpl; now rewrite IH.
Qed.

Lemma filter_true {A} (l : list A) : filter (fun _ => true) l = l.
Proof. induction l; simpl; congruence. Qed.

Lemma config_product_length v cs :
  length (ConfigSpace.config_product v cs) = ConfigSpace.launch_combinations v cs.
Proof.
  unfold ConfigSpace.config_product, ConfigSpace.launch_combinations.
  destruct (3 <=? v)%Z; rewrite length_map, !length_prod; lia.
Qed.

(** C4. The list [generate_config_list] returns has as many elements as
    there are kwarg combinations accepted by every predicate, times the
    number of launch-parameter combinations; with no predicate that is the
    cardinality of the whole cross product. *)
Theorem generate_config_list_length :
  forall (triton_major_version : Z) (cs : ConfigSpace.t),
    length (ConfigSpace.generate_config_list triton_major_version cs)
      = ConfigSpace.valid_kwarg_combinations cs
        * ConfigSpace.launch_combinations triton_major_version cs
    /\ length (ConfigSpace.generate_config_list triton_major_version
                 (ConfigSpace.with_conditions cs []))
      = ConfigSpace.kwarg_cross_product_cardinality cs
        * ConfigSpace.launch_combinations triton_major_version cs.
Proof.
  assert (gen : forall v cs,
             length (ConfigSpace.generate_config_list v cs)
             = ConfigSpace.valid_kwarg_combinations cs
               * ConfigSpace.launch_combinations v cs).
  { intros v cs. unfold ConfigSpace.generate_config_list.
    rewrite length_map, length_prod, config_product_length. f_equal.
    unfold ConfigSpace.kwarg_lists, ConfigSpace.kwarg_lists_complete,
      ConfigSpace.valid_kwarg_combinations, ConfigSpace.accepted.
    now rewrite filter_map_comm, length_map. }
  intros v cs. split; [apply gen|].
  rewrite gen. f_equal.
  unfold ConfigSpace.valid_kwarg_combinations,
    ConfigSpace.kwarg_cross_product_cardinality. simpl.
  rewrite filter_true, product_length, map_map. reflexivity.
Qed.

(** ** Equality tests decide equality *)

Lemma pyval_eqb_refl a : pyval_eqb a a = true.
Proof. now apply pyval_eqb_eq. Qed.

Lemma key_eqb_eq (a b : cache_key) : key_eqb a b = true <-> a = b.
Proof.
  revert b. induction a as [|x a IH]; destruct b as [|y b]; simpl;
    split; intro H; try discriminate; try reflexivity.
  - apply andb_true_iff in H as [H1 H2].
    apply pyval_eqb_eq in H1. apply IH in H2. congruence.
  - inversion H; subst. rewrite pyval_eqb_refl. simpl. now apply IH.
Qed.

Lemma kwdict_eqb_eq (a b : kwdict) : Config.kwdict_eqb a b = true <-> a = b.
Proof.
  revert b. induction a as [|[k v] a IH]; destruct b as [|[k' v'] b]; simpl;
    split; intro H; try discriminate; try reflexivity.
  - apply andb_true_iff in H as [H1 H3].
    apply andb_true_iff in H1 as [H1 H2].
    apply String.eqb_eq in H1. apply pyval_eqb_eq in H2. apply IH in H3.
    congruence.
  - inversion H; subst. rewrite String.eqb_refl, pyval_eqb_refl. simpl.
    now apply IH.
Qed.

Lemma opt_eqb_eq {A} (e : A -> A -> bool) :
  (forall x y, e x y = true <-> x = y) ->
  forall a b, Config.opt_eqb e a b = true <-> a = b.
Proof.
  intros He [x|] [y|]; simpl; split; intro H; try discriminate;
    try reflexivity.
  - apply He in H. congruence.
  - inversion H. now apply He.
Qed.

Lemma config_eqb_eq (a b : Config.t) : Config.eqb a b = true <-> a = b.
Proof.
  unfold Config.eqb. split.
  - intro H. repeat (apply andb_true_iff in H as [H ?]).
    destruct a, b; simpl in *.
    apply kwdict_eqb_eq in H.
    repeat match goal with
           | X : Config.opt_eqb Z.eqb _ _ = true |- _ =>
               apply (opt_eqb_eq Z.eqb Z.eqb_eq) in X
           | X : Config.opt_eqb Nat.eqb _ _ = true |- _ =>
               apply (opt_eqb_eq Nat.eqb Nat.eqb_eq) in X
           | X : Bool.eqb _ _ = true |- _ => apply Bool.eqb_prop in X
           end.
    congruence.
  - intros ->.
    assert (Hz : forall o : option Z, Config.opt_eqb Z.eqb o o = true).
    { intro o. now apply (opt_eqb_eq Z.eqb Z.eqb_eq). }
    assert (Hn : forall o : option nat, Config.opt_eqb Nat.eqb o o = true).
    { intro o. now apply (opt_eqb_eq Nat.eqb Nat.eqb_eq). }
    rewrite !Hz, Hn, Bool.eqb_reflx.
    assert (Hk : Config.kwdict_eqb (Config.kwargs b) (Config.kwargs b) = true)
      by now apply kwdict_eqb_eq.
    now rewrite Hk.
Qed.

(** ** Dictionaries *)

Section DictFacts.
Variables K V : Type.
Variable eqb : K -> K -> bool.
Hypothesis eqb_eq : forall a b, eqb a b = true <-> a = b.

Lemma eqb_refl_of k : eqb k k = true.
Proof. now apply eqb_eq. Qed.

Lemma eqb_neq k k' : k <> k' -> eqb k k' = false.
Proof.
  intro H. destruct (eqb k k') eqn:E; [|reflexivity].
  apply eqb_eq in E. contradiction.
Qed.

Lemma dict_get_set_same (d : dict K V) k v :
  dict_get eqb (dict_set eqb d k v) k = Some v.
Proof.
  induction d as [|[k0 v0] d IH]; simpl.
  - now rewrite eqb_refl_of.
  - destruct (eqb k k0) eqn:E; simpl; rewrite E; [reflexivity|assumption].
Qed.

Lemma dict_get_set_other (d : dict K V) k k' v :
  k' <> k -> dict_get eqb (dict_set eqb d k v) k' = dict_get eqb d k'.
Proof.
  intro Hne. induction d as [|[k0 v0] d IH]; simpl.
  - now rewrite (eqb_neq Hne).
  - destruct (eqb k k0) eqn:E; simpl.
    + apply eqb_eq in E. subst k0. now rewrite (eqb_neq Hne).
    + now rewrite IH.
Qed.

Lemma dict_mem_set (d : dict K V) k k' v :
  dict_mem eqb d k' = true -> dict_mem eqb (dict_set eqb d k v) k' = true.
Proof.
  unfold dict_mem. intro H.
  destruct (eqb k' k) eqn:E.
  - apply eqb_eq in E. subst. now rewrite dict_get_set_same.
  - rewrite dict_get_set_other; [assumption|].
    intros ->. now rewrite eqb_refl_of in E.
Qed.

Lemma dict_get_in (d : dict K V) k v :
  dict_get eqb d k = Some v -> In (k, v) d.
Proof.
  induction d as [|[k0 v0] d IH]; simpl; [discriminate|].
  destruct (eqb k k0) eqn:E.
  - apply eqb_eq in E. intros [= ->]. left. congruence.
  - intro H. right. now apply IH.
Qed.

(** [dict_set] keeps the keys and their order, and puts a new key last. *)
Lemma dict_set_keys (d : dict K V) k v :
  dict_keys (dict_set eqb d k v)
  = if dict_mem eqb d k then dict_keys d else dict_keys d ++ [k].
Proof.
  unfold dict_mem. induction d as [|[k0 v0] d IH]; simpl; [reflexivity|].
  destruct (eqb k k0) eqn:E; simpl; [reflexivity|].
  rewrite IH. now destruct (dict_get eqb d k).
Qed.
End DictFacts.

(** ** The monad: computations that keep a relation between states *)

Import Autotuner.

Definition stable {A} (R : state -> state -> Prop) (m : M A) : Prop :=
  forall s, R s (snd (m s)).

Section Stable.
Variable R : state -> state -> Prop.
Hypothesis R_refl : forall s, R s s.
Hypothesis R_trans : forall a b c, R a b -> R b c -> R a c.

Lemma stable_ret {A} (a : A) : stable R (ret a).
Proof. intro s. apply R_refl. Qed.

Lemma stable_raise {A} e : stable R (@raise A e).
Proof. intro s. apply R_refl. Qed.

Lemma stable_lift {A} (r : res A) : stable R (lift r).
Proof. intro s. apply R_refl. Qed.

Lemma stable_get : stable R get.
Proof. intro s. apply R_refl. Qed.

Lemma stable_bind {A B} (m : M A) (f : A -> M B) :
  stable R m -> (forall a, stable R (f a)) -> stable R (bind m f).
Proof.
  intros Hm Hf s. unfold bind. specialize (Hm s).
  destruct (m s) as [[a|e] s1]; simpl in *; [|assumption].
  eapply R_trans; [eassumption|apply Hf].
Qed.

Lemma stable_try_except {A} (m : M A) (h : exn -> M A) :
  stable R m -> (forall e, stable R (h e)) -> stable R (try_except m h).
Proof.
  intros Hm Hh s. unfold try_except. specialize (Hm s).
  destruct (m s) as [[a|e] s1]; simpl in *; [assumption|].
  eapply R_trans; [eassumption|apply Hh].
Qed.

Lemma stable_modify (f : state -> state) :
  (forall s, R s (f s)) -> stable R (modify f).
Proof. intros H s. apply H. Qed.

Lemma stable_external {A} (f : heap -> heap * res A) :
  (forall s h, R s (set_hp h s)) -> stable R (external f).
Proof.
  intros H s. unfold external. destruct (f (hp s)) as [h r]. apply H.
Qed.

Lemma stable_for_each {A} (l : list A) (body : A -> M unit) :
  (forall x, stable R (body x)) -> stable R (for_each l body).
Proof.
  intro H. induction l as [|x l IH]; simpl.
  - apply stable_ret.
  - apply stable_bind; [apply H|intros _; apply IH].
Qed.

Lemma stable_comprehension {A B} (l : list A) (elt : A -> M B) :
  (forall x, stable R (elt x)) -> stable R (comprehension l elt).
Proof.
  intro H. induction l as [|x l IH]; simpl.
  - apply stable_ret.
  - apply stable_bind; [apply H|intro y].
    apply stable_bind; [apply IH|intro ys; apply stable_ret].
Qed.

Lemma stable_repeat_call n (fn : M unit) :
  stable R fn -> stable R (repeat_call n fn).
Proof.
  intro H. induction n as [|n IH]; simpl.
  - apply stable_ret.
  - apply stable_bind; [apply H|intros _; apply IH].
Qed.
End Stable.

(** ** What benchmarking and dispatching leave alone

    [frame P s s']: from [s] to [s'] the cache, the timing table and the
    calls received by the storage are the same, and the kernel was invoked
    only in ways that satisfy [P]. *)
Definition frame (P : event -> Prop) (s s' : state) : Prop :=
  cache s' = cache s /\ _timings s' = _timings s /\ storage s' = storage s
  /\ exists evs, trace s' = trace s ++ evs /\ Forall P evs.

Lemma frame_refl P s : frame P s s.
Proof.
  repeat split. exists []. split; [now rewrite app_nil_r|constructor].
Qed.

Lemma frame_trans P a b c : frame P a b -> frame P b c -> frame P a c.
Proof.
  intros (H1 & H2 & H3 & e1 & H4 & H5) (G1 & G2 & G3 & e2 & G4 & G5).
  repeat split; try congruence.
  exists (e1 ++ e2). split.
  - now rewrite G4, H4, app_assoc.
  - apply Forall_app. now split.
Qed.

Lemma frame_weaken (P Q : event -> Prop) s s' :
  (forall e, P e -> Q e) -> frame P s s' -> frame Q s s'.
Proof.
  intros HPQ (H1 & H2 & H3 & e1 & H4 & H5). repeat split; try assumption.
  exists e1. split; [assumption|]. eapply Forall_impl; eassumption.
Qed.

Lemma frame_same P s s' :
  cache s' = cache s -> _timings s' = _timings s -> storage s' = storage s ->
  trace s' = trace s -> frame P s s'.
Proof.
  intros H1 H2 H3 H4. repeat split; try assumption.
  exists []. split; [now rewrite app_nil_r|constructor].
Qed.

Section Frame.
Variable P : event -> Prop.

Let Rr := @frame_refl P.
Let Rt := @frame_trans P.

Ltac frame_step :=
  first
    [ apply (@stable_bind _ Rt); [|intro]
    | apply (@stable_ret _ Rr)
    | apply (@stable_raise _ Rr)
    | apply (@stable_lift _ Rr)
    | apply (@stable_get _ Rr)
    | apply (@stable_for_each _ Rr Rt); intro
    | apply (@stable_comprehension _ Rr Rt); intro
    | apply (@stable_repeat_call _ Rr Rt) ].

Lemma frame_same_engine (f : state -> state) :
  (forall s, cache (f s) = cache s /\ _timings (f s) = _timings s
             /\ storage (f s) = storage s /\ trace (f s) = trace s) ->
  stable (frame P) (modify f).
Proof.
  intros H s. destruct (H s) as (H1 & H2 & H3 & H4). simpl.
  now apply frame_same.
Qed.

Lemma frame_external {A} (f : heap -> heap * res A) :
  stable (frame P) (external f).
Proof.
  apply stable_external. intros s h. now apply frame_same.
Qed.

Lemma frame_tensor_arg args i : stable (frame P) (tensor_arg args i).
Proof.
  unfold tensor_arg. destruct (nth_error args i) as [[]|]; frame_step.
Qed.

Lemma frame_zero_ args i : stable (frame P) (zero_ args i).
Proof.
  unfold zero_. frame_step; [apply frame_tensor_arg|].
  apply frame_same_engine. intro s. now repeat split.
Qed.

Lemma frame_clone args i : stable (frame P) (clone args i).
Proof.
  unfold clone. frame_step; [apply frame_tensor_arg|]. repeat frame_step.
Qed.

Lemma frame__pre_hook self args ro : stable (frame P) (_pre_hook self args ro).
Proof.
  unfold _pre_hook. frame_step.
  - frame_step. apply frame_zero_.
  - destruct ro; [frame_step|]. frame_step.
    + frame_step. apply frame_clone.
    + apply frame_same_engine. intro s. now repeat split.
Qed.

Lemma frame__post_hook self args : stable (frame P) (_post_hook self args).
Proof.
  unfold _post_hook. frame_step.
  - frame_step. unfold restore_one.
    frame_step; [apply frame_tensor_arg|]. frame_step; [frame_step|].
    intro s. destruct (nth_error _ _); [|apply frame_refl].
    apply frame_same_engine. intro s'. now repeat split.
  - apply frame_same_engine. intro s. now repeat split.
Qed.

Lemma frame_pre_hook self args ro : stable (frame P) (pre_hook self args ro).
Proof.
  unfold pre_hook. destruct (custom_pre_hook self); [apply frame_external|].
  destruct (_ || _); [apply frame__pre_hook|frame_step].
Qed.

Lemma frame_post_hook self args : stable (frame P) (post_hook self args).
Proof.
  unfold post_hook. destruct (custom_post_hook self); [apply frame_external|].
  destruct (_ <? _); [apply frame__post_hook|frame_step].
Qed.

Lemma frame_config_pre_hook w config fn :
  stable (frame P) (call_config_pre_hook w config fn).
Proof.
  unfold call_config_pre_hook.
  destruct (Config.pre_hook config); [apply frame_external|frame_step].
Qed.

Lemma frame_get_nargs : stable (frame P) get_nargs.
Proof.
  unfold get_nargs. frame_step; [frame_step|].
  intro s. destruct (nargs a); apply frame_refl.
Qed.

Lemma frame_call_fn_run w ev args kw :
  P ev -> stable (frame P) (call_fn_run w ev args kw).
Proof.
  intro Hev. unfold call_fn_run. frame_step; [frame_step|].
  frame_step; [|apply frame_external].
  intro s. simpl. repeat split.
  exists [ev]. split; [reflexivity|]. now constructor.
Qed.

Lemma frame_kernel_call v w self args config current fn :
  P (Trial config) ->
  stable (frame P) (kernel_call v w self args config current fn).
Proof.
  intro Hev. unfold kernel_call.
  frame_step; [apply frame_config_pre_hook|].
  frame_step; [apply frame_pre_hook|].
  frame_step; [|apply frame_post_hook].
  destruct (3 <=? v)%Z; now apply frame_call_fn_run.
Qed.

Lemma frame_measure v w self args config current fn :
  P (Trial config) ->
  stable (frame P) (measure v w self args config current fn).
Proof.
  intro Hev.
  assert (Hk := frame_kernel_call v w self args current fn Hev).
  assert (Hd : stable (frame P)
                 (do_bench w config
                    (kernel_call v w self args config current fn))).
  { unfold do_bench.
    apply (@stable_bind _ Rt);
      [apply (@stable_repeat_call _ Rr Rt); exact Hk|intros _].
    frame_step; [frame_step|]. destruct a as [[? ?] ?]. frame_step. }
  unfold measure. destruct (3 <=? v)%Z; [|exact Hd].
  destruct (use_cuda_graph self); [|exact Hd].
  unfold do_bench_cudagraph.
  apply (@stable_bind _ Rt);
    [apply (@stable_repeat_call _ Rr Rt); exact Hk|intros _].
  frame_step; frame_step.
Qed.

Lemma frame_bench_handler v self e : stable (frame P) (bench_handler v self e).
Proof.
  unfold bench_handler. destruct (3 <=? v)%Z; destruct e; frame_step.
Qed.

Lemma frame__bench v w self args config meta :
  P (Trial config) -> stable (frame P) (_bench v w self args config meta).
Proof.
  intro Hev. unfold _bench.
  destruct (keys_inter _ _ _); [|frame_step].
  frame_step; [apply frame_get_nargs|].
  apply (@stable_try_except _ Rt).
  - now apply frame_measure.
  - intro e. apply frame_bench_handler.
Qed.

Lemma frame_benchmark v w self args kwargs pruned timings :
  (forall c, In c pruned -> P (Trial c)) ->
  stable (frame P) (benchmark v w self args kwargs pruned timings).
Proof.
  revert timings. induction pruned as [|c rest IH]; intros timings H; simpl.
  - frame_step.
  - frame_step.
    + apply frame__bench. apply H. now left.
    + apply IH. intros c' Hc'. apply H. now right.
Qed.

Lemma frame_launch v w args kwargs config :
  P (Dispatch config) -> stable (frame P) (launch v w args kwargs config).
Proof.
  intro Hev. unfold launch. frame_step; [apply frame_get_nargs|].
  frame_step; [apply frame_config_pre_hook|].
  frame_step.
  - destruct (3 <=? v)%Z; now apply frame_call_fn_run.
  - frame_step; [|frame_step].
    apply frame_same_engine. intro s. now repeat split.
Qed.
End Frame.

(** [prune_configs] reads the state and changes nothing. *)
Lemma prune_configs_state v self kwargs s :
  snd (prune_configs v self kwargs s) = s.
Proof.
  set (R := fun s s' : state => s' = s).
  assert (Rr : forall s, R s s) by reflexivity.
  assert (Rt : forall a b c, R a b -> R b c -> R a c)
    by (unfold R; intros; congruence).
  enough (H : stable R (prune_configs v self kwargs)) by apply H.
  unfold prune_configs.
  apply (@stable_bind _ Rt); [apply (@stable_get _ Rr)|intro s0].
  destruct (perf_model self); [|apply (@stable_ret _ Rr)].
  destruct (exceeds _ _); [|apply (@stable_ret _ Rr)].
  apply (@stable_bind _ Rt).
  - unfold get_nargs.
    apply (@stable_bind _ Rt); [apply (@stable_get _ Rr)|intro s1].
    destruct (nargs s1); [apply (@stable_ret _ Rr)|apply (@stable_raise _ Rr)].
  - intro n. apply (@stable_bind _ Rt); [apply (@stable_lift _ Rr)|intro est].
    destruct (effective_top_k self);
      [apply (@stable_ret _ Rr)|apply (@stable_raise _ Rr)].
Qed.

(** ** An empty configuration list *)

(** C10. With an empty configuration list [run] raises no error of its own:
    it takes the branch of the single configuration and fails with the
    [IndexError] of [self.configs[0]], before any kernel invocation, cache
    update or call of the storage. *)
Theorem run_empty_configs :
  forall v w self args kwargs s,
    configs self = [] ->
    exists s',
      run v w self args kwargs s = (Raise IndexError, s')
      /\ trace s' = trace s /\ cache s' = cache s /\ storage s' = storage s.
Proof.
  intros v w self args kwargs s H.
  unfold run, resolve, bind, modify. rewrite H. simpl.
  eexists. split; [reflexivity|]. now repeat split.
Qed.

(** A configuration space whose predicate rejects everything gives such an
    engine, and so does the restriction to restored winners when the storage
    knows none. *)
Lemma run_empty_configs_witness :
  exists self,
    init 3 true false [] ["x"; "n"] [] ["n"] None None None None None
         25%Z 100%Z false (Some Ex.rejecting_space) = Ok self
    /\ configs self = []
    /\ exists s',
        run 3 Ex.ok_world self [Ex.x; VInt 100] [] Ex.fresh
        = (Raise IndexError, s')
        /\ trace s' = trace Ex.fresh /\ cache s' = cache Ex.fresh
        /\ storage s' = storage Ex.fresh.
Proof.
  eexists. split; [reflexivity|]. split; [reflexivity|].
  apply (@run_empty_configs 3 Ex.ok_world _ [Ex.x; VInt 100] [] Ex.fresh).
  reflexivity.
Defined.

Example restricted_to_no_winner :
  exists self,
    init 3 true true [] ["x"; "n"] [Ex.c16; Ex.c32] ["n"] None None None None
         None 25%Z 100%Z false None = Ok self
    /\ configs self = [].
Proof. eexists. split; reflexivity. Qed.

(** ** The failure policy of [_bench] *)

(** What the harness reports is a finite measurement, never the sentinel. *)
Definition finite (t : timing) : Prop :=
  match t with
  | Scalar (Fin _) => True
  | Quantiles (Fin _) (Fin _) (Fin _) => True
  | _ => False
  end.

Lemma do_bench_finite w config fn s t s' :
  do_bench w config fn s = (Ok t, s') -> finite t.
Proof.
  unfold do_bench, bind, lift, ret.
  destruct (repeat_call _ _ s) as [[[]|e] s1]; [|discriminate].
  destruct (do_bench_result w config) as [[[a b] c]|e]; [|discriminate].
  intros [= <- _]. exact I.
Qed.

Lemma do_bench_cudagraph_finite w config fn s t s' :
  do_bench_cudagraph w config fn s = (Ok t, s') -> finite t.
Proof.
  unfold do_bench_cudagraph, bind, lift, ret.
  destruct (repeat_call _ _ s) as [[[]|e] s1]; [|discriminate].
  destruct (do_bench_cudagraph_result w config) as [a|e]; [|discriminate].
  intros [= <- _]. exact I.
Qed.

Lemma measure_finite v w self args config current fn s t s' :
  measure v w self args config current fn s = (Ok t, s') -> finite t.
Proof.
  unfold measure.
  destruct (3 <=? v)%Z; [destruct (use_cuda_graph self)|];
    eauto using do_bench_finite, do_bench_cudagraph_finite.
Qed.

Lemma failure_sentinel_not_finite self : ~ finite (failure_sentinel self).
Proof. unfold failure_sentinel. destruct (use_cuda_graph self); exact id. Qed.

(** [_bench] once the conflict check has passed and [self.nargs] is set. *)
Lemma _bench_unfold v w self args config meta s n :
  keys_inter String.eqb meta (Config.kwargs config) = [] ->
  nargs s = Some n ->
  _bench v w self args config meta s
  = try_except
      (measure v w self args config (kw_update meta (Config.all_kwargs config))
         (kw_update n (kw_update meta (Config.all_kwargs config))))
      (bench_handler v self) s.
Proof.
  intros Hc Hn. unfold _bench. rewrite Hc.
  unfold bind at 1. unfold get_nargs, bind, get. rewrite Hn. reflexivity.
Qed.

(** C6, as the code has it.  Once the conflict check has passed, let [body]
    be the [try] block of [_bench] (the harness running [kernel_call]).
    With triton 3 or later [_bench] returns the failure sentinel, a float in
    graph mode and a triple otherwise, exactly when [body] raises
    [OutOfResources], [CompileTimeAssertionFailure] or [AssertionError], and
    every other exception propagates.  With an older triton the sentinel is
    the triple and stands for [OutOfResources] and [AssertionError] only:
    a compile-time assertion failure propagates like any other exception. *)
Theorem bench_failure_policy :
  forall v w self args config meta s n,
    keys_inter String.eqb meta (Config.kwargs config) = [] ->
    nargs s = Some n ->
    let current := kw_update meta (Config.all_kwargs config) in
    let body := measure v w self args config current (kw_update n current) s in
    let out := _bench v w self args config meta s in
    ((3 <= v)%Z ->
       (fst out = Ok (if use_cuda_graph self then Scalar Inf
                      else Quantiles Inf Inf Inf)
        <-> fst body = Raise OutOfResources
            \/ fst body = Raise CompileTimeAssertionFailure
            \/ fst body = Raise AssertionError)
       /\ (forall e, fst body = Raise e ->
             e <> OutOfResources -> e <> CompileTimeAssertionFailure ->
             e <> AssertionError -> fst out = Raise e))
    /\ ((v < 3)%Z ->
          (fst out = Ok (Quantiles Inf Inf Inf)
           <-> fst body = Raise OutOfResources
               \/ fst body = Raise AssertionError)
          /\ (forall e, fst body = Raise e ->
                e <> OutOfResources -> e <> AssertionError ->
                fst out = Raise e)).
Proof.
  intros v w self args config meta s n Hc Hn current body out.
  assert (Hout : out = try_except
                         (measure v w self args config current
                            (kw_update n current))
                         (bench_handler v self) s)
    by (apply _bench_unfold; assumption).
  assert (Hfin : forall t, fst body = Ok t -> finite t).
  { intros t Ht. subst body.
    destruct (measure _ _ _ _ _ _ _ s) as [r s1] eqn:E. simpl in Ht. subst r.
    eapply measure_finite; eassumption. }
  unfold try_except in Hout. fold body in Hout.
  destruct body as [[t|e] s1] eqn:Eb; simpl in *; rewrite Hout; clear Hout.
  - specialize (Hfin t eq_refl).
    split; intros Hv; (split; [split|]); simpl.
    + intros [= ->]. destruct (use_cuda_graph self); contradiction.
    + intros [H|[H|H]]; discriminate.
    + intros e H. discriminate.
    + intros [= ->]. contradiction.
    + intros [H|H]; discriminate.
    + intros e H. discriminate.
  - unfold bench_handler, failure_sentinel, ret, raise.
    split; intros Hv.
    + apply Z.leb_le in Hv. rewrite Hv. split; [split|].
      * destruct e; simpl; intro H; try discriminate; auto.
      * intros [H|[H|H]]; inversion H; subst; reflexivity.
      * intros e' [= <-] H1 H2 H3. destruct e; simpl; congruence.
    + assert (Hv' : (3 <=? v)%Z = false) by (apply Z.leb_gt; assumption).
      rewrite Hv'. split; [split|].
      * destruct e; simpl; intro H; try discriminate; auto.
      * intros [H|H]; inversion H; subst; reflexivity.
      * intros e' [= <-] H1 H2. destruct e; simpl; congruence.
Qed.

(** The policy at work: every launch exceeds the device's resources, and
    the candidate is measured as the triple of infinities. *)
Lemma bench_failure_policy_witness :
  keys_inter String.eqb [] (Config.kwargs Ex.c16) = []
  /\ nargs (set_nargs (Some []) Ex.fresh) = Some []
  /\ fst (_bench 3 Ex.oor_world Ex.two [Ex.x; VInt 100] Ex.c16 []
            (set_nargs (Some []) Ex.fresh))
     = Ok (Quantiles Inf Inf Inf).
Proof.
  split; [reflexivity|]. split; [reflexivity|].
  apply (proj1 (bench_failure_policy 3 Ex.oor_world Ex.two [Ex.x; VInt 100]
                  Ex.c16 [] (set_nargs (Some []) Ex.fresh)
                  eq_refl eq_refl)).
  - lia.
  - left. reflexivity.
Defined.

(** C6 as stated fails with triton 2: the launch of [Ex.bare] fails on a
    compile-time assertion (the kernel was invoked: the trace shows the
    trial), and [_bench] lets the exception through instead of returning the
    sentinel. *)
Lemma bench_compile_assertion_on_triton2 :
  trace (snd (_bench 2 Ex.cta_world Ex.two [Ex.x; VInt 100] Ex.bare []
                (set_nargs (Some []) Ex.fresh)))
  = [Trial Ex.bare]
  /\ fst (_bench 2 Ex.cta_world Ex.two [Ex.x; VInt 100] Ex.bare []
            (set_nargs (Some []) Ex.fresh))
     = Raise CompileTimeAssertionFailure.
Proof. split; reflexivity. Qed.

(** ** The cache key *)

(** When every declared argument is given, [_args] lists the arguments in
    declaration order and the positions [key_idx] point at the key
    arguments.  When one is left out, the positions no longer match. *)

(** C5 at two calls the code can receive.  [kernel(x, BLOCK, n)] is tuned
    on [n]; [BLOCK] is supplied by the configuration, so the call gives [x]
    and [n=5]: the key cannot be derived, [_args[2]] is out of range.
    [kernel(a, b, c)] is tuned on [b] and called with [b] and [c] only: the
    key holds the value of [c], so two calls that agree on [b] get different
    keys and two calls that differ on [b] get the same key. *)
Theorem derive_key_positions_shift :
  init 3 true false [] ["x"; "BLOCK"; "n"] [Ex.c16; Ex.c32] ["n"]
       None None None None None 25%Z 100%Z false None
  = Ok Ex.tunable_in_the_middle
  /\ key_of_call Ex.tunable_in_the_middle
       (mk_call Ex.ok_world Ex.h7 [Ex.x] [("n", VInt 5)])
     = Raise IndexError
  /\ init 3 true false [] ["a"; "b"; "c"] [Ex.c16; Ex.c32] ["b"]
          None None None None None 25%Z 100%Z false None
     = Ok Ex.with_default
  /\ key_of_call Ex.with_default
       (mk_call Ex.ok_world Ex.h7 [] [("b", VInt 2); ("c", VInt 3)])
     = Ok [VInt 3]
  /\ key_of_call Ex.with_default
       (mk_call Ex.ok_world Ex.h7 [] [("b", VInt 2); ("c", VInt 4)])
     = Ok [VInt 4]
  /\ key_of_call Ex.with_default
       (mk_call Ex.ok_world Ex.h7 [] [("b", VInt 7); ("c", VInt 3)])
     = Ok [VInt 3].
Proof. repeat split; reflexivity. Qed.

(** ** A key whose candidates all failed *)

(** C3 at two calls with the same key, every launch being out of
    resources.  The first call raises the total failure, but it has already
    cached [c16] with the sentinel as its timing; the second call finds the
    key in the cache, benchmarks nothing and launches [c16]: what surfaces
    is the launch's own exception (or nothing, when the launch happens to
    work, as in [Ex.ok_world]). *)
Theorem total_failure_is_cached :
  fst (run_call 3 Ex.two (Ex.call100 Ex.oor_world) Ex.fresh)
  = Raise (AllAutotuneExamplesFailed (Quantiles Inf Inf Inf))
  /\ dict_get key_eqb
       (cache (snd (run_call 3 Ex.two (Ex.call100 Ex.oor_world) Ex.fresh)))
       Ex.key100
     = Some Ex.c16
  /\ dict_get key_eqb
       (_timings (snd (run_call 3 Ex.two (Ex.call100 Ex.oor_world) Ex.fresh)))
       Ex.key100
     = Some (Quantiles Inf Inf Inf)
  /\ fst (run_call 3 Ex.two (Ex.call100 Ex.oor_world)
            (snd (run_call 3 Ex.two (Ex.call100 Ex.oor_world) Ex.fresh)))
     = Raise OutOfResources
  /\ events_of_call 3 Ex.two (Ex.call100 Ex.oor_world)
       (snd (run_call 3 Ex.two (Ex.call100 Ex.oor_world) Ex.fresh))
     = [Dispatch Ex.c16]
  /\ fst (run_call 3 Ex.two (Ex.call100 Ex.ok_world)
            (snd (run_call 3 Ex.two (Ex.call100 Ex.oor_world) Ex.fresh)))
     = Ok VNone
  /\ events_of_call 3 Ex.two (Ex.call100 Ex.ok_world)
       (snd (run_call 3 Ex.two (Ex.call100 Ex.oor_world) Ex.fresh))
     = [Dispatch Ex.c16].
Proof. repeat split; vm_compute; reflexivity. Qed.

(** ** Winner selection *)

Ltac zcases :=
  repeat match goal with
         | H : context [Z.eqb ?x ?y] |- _ => destruct (Z.eqb_spec x y)
         | H : context [Z.ltb ?x ?y] |- _ => destruct (Z.ltb_spec x y)
         | |- context [Z.eqb ?x ?y] => destruct (Z.eqb_spec x y)
         | |- context [Z.ltb ?x ?y] => destruct (Z.ltb_spec x y)
         end.

Ltac time_cases :=
  simpl; intros; try discriminate; try reflexivity;
  zcases; simpl in *; try discriminate; try reflexivity; try lia; auto.

Lemma time_ltb_trans a b c :
  time_ltb a b = true -> time_ltb b c = true -> time_ltb a c = true.
Proof. destruct a, b, c; time_cases. Qed.

Lemma time_ltb_le_trans a b c :
  time_ltb a b = true -> time_ltb c b = false -> time_ltb a c = true.
Proof. destruct a, b, c; time_cases. Qed.

Lemma time_ltb_irrefl a : time_ltb a a = false.
Proof. destruct a; simpl; [apply Z.ltb_irrefl|reflexivity]. Qed.

Lemma time_ltb_asym a b : time_ltb a b = true -> time_ltb b a = false.
Proof. destruct a, b; time_cases. Qed.

Lemma lex_trans a b c rab rbc rac :
  (rab = true -> rbc = true -> rac = true) ->
  lex a b rab = true -> lex b c rbc = true -> lex a c rac = true.
Proof.
  unfold lex. destruct a, b, c; simpl; intros Hr; zcases; simpl;
    intros; subst; try discriminate; try reflexivity; try lia; auto.
Qed.

Lemma lex_le_trans a b c rab rcb rac :
  (rab = true -> rcb = false -> rac = true) ->
  lex a b rab = true -> lex c b rcb = false -> lex a c rac = true.
Proof.
  unfold lex. destruct a, b, c; simpl; intros Hr; zcases; simpl;
    intros; subst; try discriminate; try reflexivity; try lia; auto.
Qed.

Lemma timing_lt_trans a b c :
  timing_lt a b = Ok true -> timing_lt b c = Ok true -> timing_lt a c = Ok true.
Proof.
  destruct a, b, c; simpl; try discriminate; intros [= H1] [= H2]; f_equal.
  - eapply time_ltb_trans; eassumption.
  - eapply lex_trans; [|eassumption|eassumption].
    apply lex_trans. apply time_ltb_trans.
Qed.

Lemma timing_lt_le_trans a b c :
  timing_lt a b = Ok true -> timing_lt c b = Ok false -> timing_lt a c = Ok true.
Proof.
  destruct a, b, c; simpl; try discriminate; intros [= H1] [= H2]; f_equal.
  - eapply time_ltb_le_trans; eassumption.
  - eapply lex_le_trans; [|eassumption|eassumption].
    apply lex_le_trans. apply time_ltb_le_trans.
Qed.

(** A measurement that is not smaller has a first element that is not
    smaller. *)
Lemma not_lt_representative t tw :
  timing_lt t tw = Ok false ->
  time_ltb (representative t) (representative tw) = false.
Proof.
  destruct t as [x|x x1 x2], tw as [y|y y1 y2]; simpl; try discriminate;
    intros [= H]; [assumption|].
  unfold lex in H. destruct x, y; simpl in *; zcases; simpl in *;
    try discriminate; try reflexivity; try lia; auto.
Qed.

Lemma lt_representative tw t :
  timing_lt tw t = Ok true ->
  time_ltb (representative t) (representative tw) = false.
Proof.
  destruct t as [x|x x1 x2], tw as [y|y y1 y2]; simpl; try discriminate;
    intros [= H]; [now apply time_ltb_asym|].
  unfold lex in H. destruct x, y; simpl in *; zcases; simpl in *;
    try discriminate; try reflexivity; try lia; auto.
Qed.

(** The loop of [builtins.min]: the candidate kept is strictly smaller than
    everything seen before it and not greater than anything seen after. *)
Lemma min_loop_spec rest :
  forall pre best mid w,
    (forall ct, In ct pre -> timing_lt (snd best) (snd ct) = Ok true) ->
    (forall ct, In ct mid -> timing_lt (snd ct) (snd best) = Ok false) ->
    min_loop best rest = Ok w ->
    exists pre' tw post',
      pre ++ best :: mid ++ rest = pre' ++ (w, tw) :: post'
      /\ (forall ct, In ct pre' -> timing_lt tw (snd ct) = Ok true)
      /\ (forall ct, In ct post' -> timing_lt (snd ct) tw = Ok false).
Proof.
  induction rest as [|ct rest IH]; intros pre best mid w Hpre Hmid; simpl.
  - intros [= <-]. exists pre, (snd best), mid.
    rewrite app_nil_r. destruct best. simpl. auto.
  - destruct (timing_lt (snd ct) (snd best)) as [[|]|e] eqn:E; [| |discriminate].
    + intro H.
      destruct (IH (pre ++ best :: mid) ct [] w) as (pre' & tw & post' & H1 & H2 & H3).
      * intros x Hx. apply in_app_or in Hx as [Hx|[<-|Hx]].
        -- eapply timing_lt_trans; [exact E|]. now apply Hpre.
        -- exact E.
        -- eapply timing_lt_le_trans; [exact E|]. now apply Hmid.
      * intros x [].
      * exact H.
      * exists pre', tw, post'. split; [|now split].
        rewrite <- H1. simpl. rewrite <- app_assoc. reflexivity.
    + intro H.
      destruct (IH pre best (mid ++ [ct]) w) as (pre' & tw & post' & H1 & H2 & H3).
      * exact Hpre.
      * intros x Hx. apply in_app_or in Hx as [Hx|[<-|[]]]; [now apply Hmid|exact E].
      * exact H.
      * exists pre', tw, post'. split; [|now split].
        rewrite <- H1. rewrite <- app_assoc. reflexivity.
Qed.

(** C8, as the code has it.  [builtins.min(timings, key=timings.get)]
    compares whole measurements: floats in graph mode, and in direct mode
    the lists of quantiles in lexicographic order, so the first element
    decides unless it ties, and then the second and the third do.  The
    winner is strictly smaller than every candidate measured before it and
    no candidate measured after it is smaller: among candidates whose whole
    measurements tie, the first measured wins.  Its first element is
    minimal among all first elements. *)
Theorem py_min_first_seen_minimum :
  forall (timings : dict Config.t timing) (winner : Config.t),
    py_min timings = Ok winner ->
    exists before tw after,
      timings = before ++ (winner, tw) :: after
      /\ (forall c t, In (c, t) before -> timing_lt tw t = Ok true)
      /\ (forall c t, In (c, t) after -> timing_lt t tw = Ok false)
      /\ (forall c t, In (c, t) timings ->
            time_ltb (representative t) (representative tw) = false).
Proof.
  intros timings winner H. destruct timings as [|best rest]; [discriminate|].
  simpl in H.
  destruct (@min_loop_spec rest [] best [] winner) as (pre & tw & post & H1 & H2 & H3);
    try assumption; try (intros ? []).
  simpl in H1. exists pre, tw, post. split; [assumption|].
  split; [intros c t Hin; apply (H2 (c, t) Hin)|].
  split; [intros c t Hin; apply (H3 (c, t) Hin)|].
  intros c t Hin. rewrite H1 in Hin.
  apply in_app_or in Hin as [Hin|[Hin|Hin]].
  - apply lt_representative. apply (H2 (c, t) Hin).
  - inversion Hin; subst. apply time_ltb_irrefl.
  - apply not_lt_representative. apply (H3 (c, t) Hin).
Qed.

Lemma py_min_first_seen_minimum_witness :
  py_min Ex.tie_timings = Ok Ex.c32
  /\ exists before tw after,
      Ex.tie_timings = before ++ (Ex.c32, tw) :: after
      /\ (forall c t, In (c, t) before -> timing_lt tw t = Ok true)
      /\ (forall c t, In (c, t) after -> timing_lt t tw = Ok false)
      /\ (forall c t, In (c, t) Ex.tie_timings ->
            time_ltb (representative t) (representative tw) = false).
Proof.
  split; [reflexivity|].
  apply (@py_min_first_seen_minimum Ex.tie_timings Ex.c32). reflexivity.
Defined.

(** C8 as stated fails in direct mode.  [c16] and [c32] are measured in
    this order and tie on the first element; by the specification's rule
    [c16], measured first, wins, but [builtins.min] compares the lists and
    the smaller second quantile makes [c32] the winner that [run] caches. *)
Lemma tie_on_first_element_not_first_seen :
  fst (benchmark 3 Ex.tie_world Ex.two [Ex.x; VInt 100] [] [Ex.c16; Ex.c32] []
         (set_nargs (Some []) Ex.fresh))
  = Ok Ex.tie_timings
  /\ select_by_representative Ex.tie_timings = Some Ex.c16
  /\ py_min Ex.tie_timings = Ok Ex.c32
  /\ dict_get key_eqb
       (cache (snd (run_call 3 Ex.two (Ex.call100 Ex.tie_world) Ex.fresh)))
       Ex.key100
     = Some Ex.c32
  /\ Ex.c16 <> Ex.c32.
Proof. repeat split; try (vm_compute; reflexivity). discriminate. Qed.

(** ** The shape of [run] *)

Lemma surjective_pair {A B} (p : A * B) a : fst p = a -> p = (a, snd p).
Proof. destruct p. simpl. now intros ->. Qed.

Lemma prune_configs_eq v self kwargs s pruned :
  fst (prune_configs v self kwargs s) = Ok pruned ->
  prune_configs v self kwargs s = (Ok pruned, s).
Proof.
  intro H. rewrite (surjective_pair _ H). now rewrite prune_configs_state.
Qed.

(** The state in which [run] starts to resolve the configuration. *)
Definition entered (self : t) (args : list pyval) (s : state) : state :=
  set_nargs (Some (nargs_of self args)) s.

(** A key found in the cache: the cached configuration, nothing else. *)
Lemma resolve_hit v w self args kwargs s key config :
  1 < length (configs self) ->
  derive_key self (nargs_of self args) kwargs = Ok key ->
  dict_get key_eqb (cache s) key = Some config ->
  resolve v w self args kwargs s
  = (Ok config, set_best_config (Some config) (entered self args s)).
Proof.
  intros Hlen Hkey Hget. apply Nat.ltb_lt in Hlen.
  unfold resolve, bind, modify, lift, get, ret, lookup, dict_mem. simpl.
  rewrite Hlen, Hkey. simpl. rewrite Hget. simpl. rewrite ?Hget. reflexivity.
Qed.

(** A key that is not in the cache: [tune], then the report to the
    storage. *)
Lemma resolve_miss v w self args kwargs s key :
  1 < length (configs self) ->
  derive_key self (nargs_of self args) kwargs = Ok key ->
  dict_mem key_eqb (cache s) key = false ->
  resolve v w self args kwargs s
  = match tune v w self args kwargs key (entered self args s) with
    | (Ok config, s1) =>
        (Ok config,
         add_store_call
           (mk_store_call (cache s1) (configs_len self) (_timings s1)
              (rep_t self) (warmup_t self))
           (set_best_config (Some config) s1))
    | (Raise e, s1) => (Raise e, s1)
    end.
Proof.
  intros Hlen Hkey Hmem. apply Nat.ltb_lt in Hlen.
  unfold resolve, bind, modify, lift, get, ret. simpl.
  rewrite Hlen, Hkey. simpl. rewrite Hmem. fold (entered self args s).
  destruct (tune v w self args kwargs key (entered self args s)) as [[c|e] s1];
    reflexivity.
Qed.

Lemma dict_get_of_in {K V} (eqb : K -> K -> bool) (d : dict K V) k v :
  (forall a, eqb a a = true) -> In (k, v) d ->
  exists v', dict_get eqb d k = Some v'.
Proof.
  intros Hr. induction d as [|[k0 v0] d IH]; simpl; [intros []|].
  intros [H|H].
  - inversion H; subst. rewrite Hr. eauto.
  - destruct (eqb k k0); eauto.
Qed.

Lemma config_eqb_refl c : Config.eqb c c = true.
Proof. now apply config_eqb_eq. Qed.

Lemma key_eqb_refl k : key_eqb k k = true.
Proof. now apply key_eqb_eq. Qed.

Lemma py_min_in timings winner :
  py_min timings = Ok winner ->
  exists t, dict_get Config.eqb timings winner = Some t.
Proof.
  intro H. destruct timings as [|best rest]; [discriminate|]. simpl in H.
  destruct (@min_loop_spec rest [] best [] winner) as (pre & tw & post & E & _);
    try assumption; try (intros ? []).
  apply dict_get_of_in with (v := tw); [apply config_eqb_refl|].
  simpl in E. rewrite E. apply in_or_app. right. now left.
Qed.

(** [tune] when pruning and benchmarking went through and a winner was
    selected. *)
Lemma tune_selected v w self args kwargs key s pruned timings s2 winner :
  fst (prune_configs v self kwargs s) = Ok pruned ->
  benchmark v w self args kwargs pruned [] s = (Ok timings, s2) ->
  py_min timings = Ok winner ->
  exists t,
    dict_get Config.eqb timings winner = Some t
    /\ tune v w self args kwargs key s
       = match all_failed self t with
         | Raise e =>
             (Raise e,
              set_timings (fun d => dict_set key_eqb d key t)
                (set_cache (fun c => dict_set key_eqb c key winner) s2))
         | Ok true =>
             (Raise (AllAutotuneExamplesFailed t),
              set_timings (fun d => dict_set key_eqb d key t)
                (set_cache (fun c => dict_set key_eqb c key winner) s2))
         | Ok false =>
             match pre_hook self args true
                     (set_configs_timings timings
                        (set_timings (fun d => dict_set key_eqb d key t)
                           (set_cache (fun c => dict_set key_eqb c key winner)
                              s2)))
             with
             | (Ok _, s4) => (Ok winner, s4)
             | (Raise e, s4) => (Raise e, s4)
             end
         end.
Proof.
  intros Hp Hb Hm. destruct (py_min_in _ Hm) as [t Ht]. exists t.
  split; [assumption|].
  apply prune_configs_eq in Hp.
  unfold tune. unfold bind at 1. rewrite Hp.
  unfold bind at 1. rewrite Hb.
  unfold bind at 1. unfold lift at 1. rewrite Hm.
  unfold bind at 1. unfold modify at 1.
  unfold bind at 1. unfold lookup at 1. rewrite Ht. unfold ret at 1.
  unfold bind at 1. unfold modify at 1.
  unfold bind at 1. unfold lift at 1.
  destruct (all_failed self t) as [[|]|e]; [reflexivity| |reflexivity].
  unfold bind at 1. unfold modify at 1.
  unfold bind at 1.
  match goal with |- context [pre_hook self args true ?st] =>
    pose proof (frame_pre_hook (fun _ => True) self args true st) as Hf;
    destruct (pre_hook self args true st) as [[[]|e] s4] eqn:E
  end; [|reflexivity].
  destruct Hf as (Hc & _). simpl in Hc.
  unfold bind, get, lookup. rewrite Hc.
  rewrite (@dict_get_set_same _ _ _ key_eqb_eq). reflexivity.
Qed.

(** ** What a benchmarking pass returns *)

Definition is_scalar (t : timing) : bool :=
  match t with Scalar _ => true | Quantiles _ _ _ => false end.

(** Graph mode is in force with triton 3 only. *)
Definition graph_mode (v : Z) (self : t) : bool :=
  (3 <=? v)%Z && use_cuda_graph self.

(** The sentinel [_bench] returns under version [v]. *)
Definition sentinel_of (v : Z) (self : t) : timing :=
  if (3 <=? v)%Z then failure_sentinel self else Quantiles Inf Inf Inf.

(** An entry of [timings]: a finite measurement or the sentinel, in the
    shape of the mode. *)
Definition bench_value (v : Z) (self : t) (t : timing) : Prop :=
  (finite t \/ t = sentinel_of v self) /\ is_scalar t = graph_mode v self.

Lemma measure_value v w self args config current fn s t s' :
  measure v w self args config current fn s = (Ok t, s') ->
  bench_value v self t.
Proof.
  intro H. split; [left; eapply measure_finite; eassumption|].
  revert H. unfold measure, graph_mode.
  destruct (3 <=? v)%Z; simpl; [destruct (use_cuda_graph self)|];
    unfold do_bench, do_bench_cudagraph, bind, lift, ret;
    destruct (repeat_call _ _ s) as [[[]|e] s1]; try discriminate.
  - destruct (do_bench_cudagraph_result w config); [|discriminate].
    now intros [= <- _].
  - destruct (do_bench_result w config) as [[[? ?] ?]|]; [|discriminate].
    now intros [= <- _].
  - destruct (do_bench_result w config) as [[[? ?] ?]|]; [|discriminate].
    now intros [= <- _].
Qed.

Lemma bench_handler_value v self e s t s' :
  bench_handler v self e s = (Ok t, s') -> bench_value v self t.
Proof.
  unfold bench_handler, bench_value, sentinel_of, graph_mode,
    failure_sentinel, ret, raise.
  destruct (3 <=? v)%Z; destruct e; try discriminate;
    intros [= <- _]; simpl; split; auto; now destruct (use_cuda_graph self).
Qed.

Lemma _bench_value v w self args config meta s t s' :
  _bench v w self args config meta s = (Ok t, s') -> bench_value v self t.
Proof.
  unfold _bench. destruct (keys_inter _ _ _); [|discriminate].
  unfold bind at 1. unfold get_nargs, bind, get.
  destruct (nargs s); [|discriminate]. unfold ret at 1. unfold try_except.
  destruct (measure _ _ _ _ _ _ _ s) as [[t'|e] s1] eqn:E.
  - intros [= <- _]. eapply measure_value; eassumption.
  - apply bench_handler_value.
Qed.

Lemma dict_set_in {K V} (eqb : K -> K -> bool) (d : dict K V) k v k' v' :
  In (k', v') (dict_set eqb d k v) -> In (k', v') d \/ v' = v.
Proof.
  induction d as [|[k0 v0] d IH]; simpl.
  - intros [[= <- <-]|[]]. now right.
  - destruct (eqb k k0); simpl.
    + intros [[= <- <-]|H]; auto.
    + intros [H|H]; auto. apply IH in H as [H|H]; auto.
Qed.

Lemma benchmark_values v w self args kwargs pruned :
  forall timings0 s timings s',
    benchmark v w self args kwargs pruned timings0 s = (Ok timings, s') ->
    (forall c t, In (c, t) timings0 -> bench_value v self t) ->
    forall c t, In (c, t) timings -> bench_value v self t.
Proof.
  induction pruned as [|config rest IH]; intros timings0 s timings s'; simpl.
  - unfold ret. intros [= <- _]. auto.
  - unfold bind at 1.
    destruct (_bench v w self args config kwargs s) as [[t0|e] s1] eqn:E;
      [|discriminate].
    intros H H0. eapply IH; [exact H|].
    intros c t Hin. apply dict_set_in in Hin as [Hin| ->]; [eauto|].
    eapply _bench_value; eassumption.
Qed.

(** Every pruned candidate has an entry in the timings. *)
Lemma benchmark_keys v w self args kwargs pruned :
  forall timings0 s timings s',
    benchmark v w self args kwargs pruned timings0 s = (Ok timings, s') ->
    forall c, In c pruned \/ dict_mem Config.eqb timings0 c = true ->
              dict_mem Config.eqb timings c = true.
Proof.
  induction pruned as [|config rest IH]; intros timings0 s timings s'; simpl.
  - unfold ret. intros [= <- _] c [[]|H]. exact H.
  - unfold bind at 1.
    destruct (_bench v w self args config kwargs s) as [[t0|e] s1] eqn:E;
      [|discriminate].
    intros H c Hc. eapply IH; [exact H|].
    destruct Hc as [[<-|Hc]|Hc]; auto.
    + right. unfold dict_mem.
      now rewrite (@dict_get_set_same _ _ _ config_eqb_eq).
    + right. now apply (@dict_mem_set _ _ _ config_eqb_eq).
Qed.

Lemma timing_lt_same_shape a b :
  is_scalar a = is_scalar b -> exists r, timing_lt a b = Ok r.
Proof. destruct a, b; simpl; try discriminate; eauto. Qed.

(** On measurements of one shape [builtins.min] fails on the empty
    dictionary only. *)
Lemma min_loop_total shape rest :
  forall best,
    (forall ct, In ct (best :: rest) -> is_scalar (snd ct) = shape) ->
    exists w, min_loop best rest = Ok w.
Proof.
  induction rest as [|ct rest IH]; intros best H; simpl; [eauto|].
  destruct (@timing_lt_same_shape (snd ct) (snd best)) as [[|] Hr].
  - rewrite (H ct), (H best); simpl; auto.
  - rewrite Hr. apply IH. intros x [<-|Hx]; apply H; simpl; auto.
  - rewrite Hr. apply IH. intros x [<-|Hx]; apply H; simpl; auto.
Qed.

Lemma py_min_total shape timings :
  timings <> [] ->
  (forall c t, In (c, t) timings -> is_scalar t = shape) ->
  exists w, py_min timings = Ok w.
Proof.
  destruct timings as [|best rest]; [congruence|]. intros _ H. simpl.
  apply (min_loop_total (shape := shape)). intros [c t] Hin. now apply (H c t).
Qed.

(** A pass over a non-empty list of candidates selects a winner. *)
Lemma benchmark_selects v w self args kwargs pruned s timings s' :
  benchmark v w self args kwargs pruned [] s = (Ok timings, s') ->
  pruned <> [] ->
  exists winner, py_min timings = Ok winner.
Proof.
  intros H Hne. apply (py_min_total (shape := graph_mode v self)).
  - destruct pruned as [|c rest]; [congruence|].
    assert (Hc := benchmark_keys _ _ _ _ _ _ _ _ H c (or_introl (or_introl eq_refl))).
    intros ->. discriminate.
  - intros c t Hin.
    eapply benchmark_values; [exact H|intros ? ? []|exact Hin].
Qed.

(** [__init__] turns graph mode off with a triton older than 3. *)
Lemma init_graph_mode v cuda only used names cfgs key rz rv pre post prune
      warmup rep graph space self :
  init v cuda only used names cfgs key rz rv pre post prune warmup rep graph
       space = Ok self ->
  use_cuda_graph self = true -> (3 <= v)%Z.
Proof.
  unfold init.
  destruct (match space with Some _ => _ | None => _ end); [|discriminate].
  destruct (indices names (Some key)); [|discriminate].
  destruct (indices names rz); [|discriminate].
  destruct (indices names rv); [|discriminate].
  intros [= <-]. simpl.
  destruct (3 <=? v)%Z eqn:E; [intros _; now apply Z.leb_le|discriminate].
Qed.

(** ** Total failure *)

Lemma run_raises v w self args kwargs s e s1 :
  resolve v w self args kwargs s = (Raise e, s1) ->
  run v w self args kwargs s = (Raise e, s1).
Proof. intro H. unfold run, bind. now rewrite H. Qed.

Lemma entered_fields self args s :
  cache (entered self args s) = cache s
  /\ _timings (entered self args s) = _timings s
  /\ storage (entered self args s) = storage s
  /\ trace (entered self args s) = trace s
  /\ hp (entered self args s) = hp s.
Proof. now repeat split. Qed.

(** ** Conflicting meta-parameters *)

Lemma benchmark_app v w self args kwargs before rest :
  forall timings0 s,
    benchmark v w self args kwargs (before ++ rest) timings0 s
    = match benchmark v w self args kwargs before timings0 s with
      | (Ok timings, s1) => benchmark v w self args kwargs rest timings s1
      | (Raise e, s1) => (Raise e, s1)
      end.
Proof.
  induction before as [|c before IH]; intros timings0 s; simpl; [reflexivity|].
  unfold bind.
  destruct (_bench v w self args c kwargs s) as [[t|e] s1]; [|reflexivity].
  apply IH.
Qed.

Lemma _bench_conflict v w self args config meta s :
  keys_inter String.eqb meta (Config.kwargs config) <> [] ->
  _bench v w self args config meta s
  = (Raise (ConflictingMetaParameters
              (keys_inter String.eqb meta (Config.kwargs config))), s).
Proof.
  intro H. unfold _bench.
  destruct (keys_inter String.eqb meta (Config.kwargs config));
    [congruence|reflexivity].
Qed.

(** C7, as the code has it.  The conflict check is the first statement of
    [_bench], so it is made candidate by candidate.  On a cache miss, let
    [c] be the first pruned candidate one of whose parameters is also a
    call-time keyword, and let the candidates [before] it have been
    benchmarked without an exception: [run] raises the conflict error when
    [c]'s turn comes.  The kernel has been invoked for the candidates
    [before] and for no other: neither [c] nor a later candidate is
    measured; nothing is cached and the storage receives no call. *)
Theorem conflict_stops_benchmarking :
  forall v w self args kwargs s key before c after timings s2,
    1 < length (configs self) ->
    derive_key self (nargs_of self args) kwargs = Ok key ->
    dict_mem key_eqb (cache s) key = false ->
    fst (prune_configs v self kwargs (entered self args s))
    = Ok (before ++ c :: after) ->
    keys_inter String.eqb kwargs (Config.kwargs c) <> [] ->
    benchmark v w self args kwargs before [] (entered self args s)
    = (Ok timings, s2) ->
    run v w self args kwargs s
    = (Raise (ConflictingMetaParameters
                (keys_inter String.eqb kwargs (Config.kwargs c))), s2)
    /\ cache s2 = cache s /\ storage s2 = storage s
    /\ exists evs,
        trace s2 = trace s ++ evs
        /\ Forall (fun e => exists c', e = Trial c' /\ In c' before) evs.
Proof.
  intros v w self args kwargs s key before c after timings s2
         Hlen Hkey Hmiss Hp Hc Hb.
  split.
  - apply run_raises. rewrite (@resolve_miss v w _ _ _ _ _ Hlen Hkey Hmiss).
    apply prune_configs_eq in Hp.
    unfold tune. unfold bind at 1. rewrite Hp.
    unfold bind at 1. rewrite benchmark_app, Hb. simpl.
    unfold bind at 1. rewrite (@_bench_conflict v w self args c kwargs s2 Hc).
    reflexivity.
  - destruct (@frame_benchmark
                (fun e => exists c', e = Trial c' /\ In c' before)
                v w self args kwargs before []
                (fun c' H => ex_intro _ c' (conj eq_refl H))
                (entered self args s)) as (H1 & _ & H3 & evs & H4 & H5).
    rewrite Hb in *. simpl in *. repeat split; try assumption.
    exists evs. now split.
Qed.

(** The conflicting candidate comes first: nothing is benchmarked. *)
Lemma conflict_stops_benchmarking_witness :
  run 3 Ex.ok_world Ex.two [Ex.x; VInt 100] [("BLOCK", VInt 64)] Ex.fresh
  = (Raise (ConflictingMetaParameters ["BLOCK"]),
     entered Ex.two [Ex.x; VInt 100] Ex.fresh)
  /\ trace (entered Ex.two [Ex.x; VInt 100] Ex.fresh) = [].
Proof.
  split; [|reflexivity].
  apply (@conflict_stops_benchmarking 3 Ex.ok_world Ex.two [Ex.x; VInt 100]
           [("BLOCK", VInt 64)] Ex.fresh Ex.key100 [] Ex.c16 [Ex.c32] []
           (entered Ex.two [Ex.x; VInt 100] Ex.fresh)).
  - simpl. lia.
  - reflexivity.
  - reflexivity.
  - reflexivity.
  - discriminate.
  - reflexivity.
Defined.

(** C7 as stated fails when the conflicting candidate is not the first
    one.  [Ex.bare] sets no parameter and is measured (two kernel
    invocations, as the harness makes them) before [c16], which sets
    [BLOCK] like the call does, raises the conflict error. *)
Lemma conflict_after_a_measured_candidate :
  run_call 3 (Ex.engine [Ex.bare; Ex.c16] [] [])
    (mk_call Ex.ok_world Ex.h7 [Ex.x; VInt 100] [("BLOCK", VInt 64)]) Ex.fresh
  = (Raise (ConflictingMetaParameters ["BLOCK"]),
     snd (run_call 3 (Ex.engine [Ex.bare; Ex.c16] [] [])
            (mk_call Ex.ok_world Ex.h7 [Ex.x; VInt 100] [("BLOCK", VInt 64)])
            Ex.fresh))
  /\ events_of_call 3 (Ex.engine [Ex.bare; Ex.c16] [] [])
       (mk_call Ex.ok_world Ex.h7 [Ex.x; VInt 100] [("BLOCK", VInt 64)])
       Ex.fresh
     = [Trial Ex.bare; Trial Ex.bare].
Proof.
  split; [apply surjective_pair|]; vm_compute; reflexivity.
Qed.

(** ** The cache along a sequence of calls *)

Lemma frame_no_event s s' : frame (fun _ => False) s s' -> trace s' = trace s.
Proof.
  intros (_ & _ & _ & evs & H & HF). destruct evs as [|e evs].
  - now rewrite app_nil_r in H.
  - inversion HF; contradiction.
Qed.

Lemma prune_configs_pair v self kwargs s :
  prune_configs v self kwargs s = (fst (prune_configs v self kwargs s), s).
Proof. rewrite <- (prune_configs_state v self kwargs s) at 3. now destruct (prune_configs _ _ _ _). Qed.

(** [tune] either leaves the cache alone or adds the key it was called
    for. *)
Lemma tune_cache v w self args kwargs key s :
  cache (snd (tune v w self args kwargs key s)) = cache s
  \/ exists winner,
      cache (snd (tune v w self args kwargs key s))
      = dict_set key_eqb (cache s) key winner.
Proof.
  destruct (fst (prune_configs v self kwargs s)) as [pruned|e] eqn:Hp.
  - destruct (benchmark v w self args kwargs pruned [] s) as [[timings|e] s2] eqn:Hb.
    + assert (Hc : cache s2 = cache s).
      { destruct (@frame_benchmark (fun _ => True) v w self args kwargs pruned []
                    (fun _ _ => I) s) as (H & _). now rewrite Hb in H. }
      destruct (py_min timings) as [winner|e] eqn:Hm.
      * right. exists winner.
        destruct (@tune_selected v w self args kwargs key _ _ _ _ _ Hp Hb Hm)
          as (t & _ & ->).
        destruct (all_failed self t) as [[|]|e]; simpl; try now rewrite Hc.
        match goal with |- context [pre_hook self args true ?st] =>
          pose proof (frame_pre_hook (fun _ => True) self args true st) as Hf;
          destruct (pre_hook self args true st) as [[[]|e] s4]
        end; destruct Hf as (Hf & _); simpl in *; now rewrite Hf, Hc.
      * left. unfold tune. unfold bind at 1.
        rewrite prune_configs_pair, Hp. unfold bind at 1. rewrite Hb.
        unfold bind at 1. unfold lift at 1. rewrite Hm. exact Hc.
    + left. unfold tune. unfold bind at 1.
      rewrite prune_configs_pair, Hp. unfold bind at 1. rewrite Hb. simpl.
      destruct (@frame_benchmark (fun _ => True) v w self args kwargs pruned []
                  (fun _ _ => I) s) as (H & _). now rewrite Hb in H.
  - left. unfold tune. unfold bind at 1.
    rewrite prune_configs_pair, Hp. reflexivity.
Qed.

(** An entry of the cache is never replaced nor removed. *)
Lemma resolve_cache_mono v w self args kwargs s key config :
  dict_get key_eqb (cache s) key = Some config ->
  dict_get key_eqb (cache (snd (resolve v w self args kwargs s))) key
  = Some config.
Proof.
  intro Hget.
  destruct (1 <? length (configs self)) eqn:Hlen.
  - apply Nat.ltb_lt in Hlen.
    destruct (derive_key self (nargs_of self args) kwargs) as [key'|e] eqn:Hkey.
    + destruct (dict_get key_eqb (cache s) key') as [c'|] eqn:Hget'.
      * rewrite (@resolve_hit v w _ _ _ _ _ _ Hlen Hkey Hget'). exact Hget.
      * assert (Hmiss : dict_mem key_eqb (cache s) key' = false)
          by (unfold dict_mem; now rewrite Hget').
        rewrite (@resolve_miss v w _ _ _ _ _ Hlen Hkey Hmiss).
        assert (Hne : key <> key') by (intros ->; congruence).
        assert (Ht : dict_get key_eqb
                       (cache (snd (tune v w self args kwargs key'
                                      (entered self args s)))) key
                     = Some config).
        { destruct (tune_cache v w self args kwargs key' (entered self args s))
            as [->|[winner ->]]; [exact Hget|].
          rewrite (@dict_get_set_other _ _ _ key_eqb_eq); [exact Hget|exact Hne]. }
        destruct (tune v w self args kwargs key' (entered self args s))
          as [[c'|e] s1]; exact Ht.
    + unfold resolve, bind, modify, lift. simpl.
      apply Nat.ltb_lt in Hlen. rewrite Hlen. fold (nargs_of self args).
      rewrite Hkey. exact Hget.
  - unfold resolve, bind, modify, ret, raise. simpl. rewrite Hlen.
    destruct (configs self); exact Hget.
Qed.

Lemma run_cache v w self args kwargs s :
  cache (snd (run v w self args kwargs s))
  = cache (snd (resolve v w self args kwargs s)).
Proof.
  unfold run, bind.
  destruct (resolve v w self args kwargs s) as [[c|e] s1]; [|reflexivity].
  simpl. apply (frame_launch (fun _ => True) v w args kwargs c I s1).
Qed.

Lemma run_calls_cache_mono v self later :
  forall s key config,
    dict_get key_eqb (cache s) key = Some config ->
    dict_get key_eqb (cache (run_calls v self later s)) key = Some config.
Proof.
  induction later as [|c later IH]; intros s key config H; simpl; [exact H|].
  apply IH. unfold run_call. rewrite run_cache.
  now apply resolve_cache_mono.
Qed.

(** *** A call whose key is in the cache *)

Lemma launch_trace v w args kwargs config s :
  exists evs,
    trace (snd (launch v w args kwargs config s)) = trace s ++ evs
    /\ (evs = [] \/ evs = [Dispatch config]).
Proof.
  unfold launch. unfold bind at 1.
  pose proof (frame_no_event (frame_get_nargs (fun _ => False) s)) as H0.
  destruct (get_nargs s) as [[n|e] s0]; simpl in H0;
    [|exists []; rewrite app_nil_r; auto].
  unfold bind at 1.
  match goal with |- context [call_config_pre_hook w config ?fn s0] =>
    pose proof (frame_no_event
                  (frame_config_pre_hook (fun _ => False) w config fn s0)) as H1;
    destruct (call_config_pre_hook w config fn s0) as [[[]|e] s1]
  end; simpl in H1;
    [|exists []; rewrite app_nil_r; simpl; split; [congruence|auto]].
  assert (Hrun : forall kw,
             exists evs,
               trace (snd ((r <- call_fn_run w (Dispatch config) args kw;;
                            modify (set_nargs None);; ret r)%monad s1))
               = trace s1 ++ evs
               /\ (evs = [] \/ evs = [Dispatch config])).
  { intro kw. unfold call_fn_run, bind, lift, modify, external, ret.
    destruct kw as [kw|e]; [|exists []; rewrite app_nil_r; auto]. simpl.
    destruct (fn_run w args kw (hp s1)) as [h [r|e]];
      exists [Dispatch config]; auto. }
  rewrite <- H0, <- H1.
  destruct (3 <=? v)%Z; apply Hrun.
Qed.

Lemma skipn_app_exact {A} (l evs : list A) : skipn (length l) (l ++ evs) = evs.
Proof. induction l; simpl; auto. Qed.

(** The kernel is not invoked for a measurement: at most the one
    production dispatch, with the cached configuration. *)
Lemma hit_dispatches_cached v self c s key config :
  1 < length (configs self) ->
  key_of_call self c = Ok key ->
  dict_get key_eqb (cache s) key = Some config ->
  events_of_call v self c s = [] \/ events_of_call v self c s = [Dispatch config].
Proof.
  intros Hlen Hkey Hget. unfold events_of_call, run_call, run, bind.
  rewrite (@resolve_hit v (c_world c) self (c_args c) (c_kwargs c)
             (set_hp (c_heap c) s) key config Hlen Hkey Hget).
  match goal with |- context [launch v ?w ?a ?k config ?st] =>
    destruct (launch_trace v w a k config st) as (evs & H & Hevs)
  end.
  rewrite H. simpl. rewrite skipn_app_exact. destruct Hevs; subst; auto.
Qed.

(** ** One benchmarking pass per key *)

(** C1, as the code has it.  A call misses the cache.

    When its benchmarking pass goes through (every candidate of the
    non-empty pruned list yields a measurement or the sentinel, none lets an
    exception escape), every pruned candidate has been benchmarked, a winner
    is selected and cached under the key (also when the call then raises the
    total failure), and after any further calls a call that derives the same
    key makes no trial run: the kernel is invoked at most once, for the
    production dispatch with the cached winner.

    When the pass is aborted (pruning raises, or an exception escapes the
    benchmarking of a candidate), the call raises that exception and the
    cache, the timing table and the storage are as they were; the next call
    that derives the key misses the cache again and goes through the branch
    of the miss: it prunes and benchmarks anew. *)
Theorem tuned_key_is_not_benchmarked_again :
  forall v self (first : call) s key,
    1 < length (configs self) ->
    key_of_call self first = Ok key ->
    dict_mem key_eqb (cache s) key = false ->
    (forall pruned timings s2,
        fst (prune_configs v self (c_kwargs first)
               (entered self (c_args first) (set_hp (c_heap first) s)))
        = Ok pruned ->
        pruned <> [] ->
        benchmark v (c_world first) self (c_args first) (c_kwargs first)
          pruned [] (entered self (c_args first) (set_hp (c_heap first) s))
        = (Ok timings, s2) ->
        (forall c, In c pruned -> dict_mem Config.eqb timings c = true)
        /\ exists winner,
            py_min timings = Ok winner
            /\ dict_get key_eqb (cache (snd (run_call v self first s))) key
               = Some winner
            /\ forall (later : list call) (again : call),
                key_of_call self again = Ok key ->
                events_of_call v self again
                  (run_calls v self later (snd (run_call v self first s))) = []
                \/ events_of_call v self again
                     (run_calls v self later (snd (run_call v self first s)))
                   = [Dispatch winner])
    /\ (forall e,
          fst (prune_configs v self (c_kwargs first)
                 (entered self (c_args first) (set_hp (c_heap first) s)))
          = Raise e
          \/ (exists pruned,
                fst (prune_configs v self (c_kwargs first)
                       (entered self (c_args first) (set_hp (c_heap first) s)))
                = Ok pruned
                /\ fst (benchmark v (c_world first) self (c_args first)
                          (c_kwargs first) pruned []
                          (entered self (c_args first)
                             (set_hp (c_heap first) s)))
                   = Raise e) ->
          fst (run_call v self first s) = Raise e
          /\ cache (snd (run_call v self first s)) = cache s
          /\ _timings (snd (run_call v self first s)) = _timings s
          /\ storage (snd (run_call v self first s)) = storage s
          /\ forall again : call,
              key_of_call self again = Ok key ->
              dict_mem key_eqb
                (cache (set_hp (c_heap again) (snd (run_call v self first s))))
                key = false
              /\ resolve v (c_world again) self (c_args again) (c_kwargs again)
                   (set_hp (c_heap again) (snd (run_call v self first s)))
                 = match
                     tune v (c_world again) self (c_args again)
                       (c_kwargs again) key
                       (entered self (c_args again)
                          (set_hp (c_heap again)
                             (snd (run_call v self first s))))
                   with
                   | (Ok config, s1) =>
                       (Ok config,
                        add_store_call
                          (mk_store_call (cache s1) (configs_len self)
                             (_timings s1) (rep_t self) (warmup_t self))
                          (set_best_config (Some config) s1))
                   | (Raise e', s1) => (Raise e', s1)
                   end).
Proof.
  intros v self first s key Hlen Hkey Hmiss. split.
  - intros pruned timings s2 Hp Hne Hb. split.
    + intros c Hc. eapply benchmark_keys; [exact Hb|]. now left.
    + destruct (@benchmark_selects v (c_world first) self (c_args first)
                  (c_kwargs first) pruned _ timings s2 Hb Hne) as [winner Hw].
      exists winner. split; [exact Hw|].
      assert (Hcache : dict_get key_eqb (cache (snd (run_call v self first s)))
                         key = Some winner).
      { unfold run_call. rewrite run_cache.
        rewrite (@resolve_miss v (c_world first) self (c_args first)
                   (c_kwargs first) (set_hp (c_heap first) s) key Hlen Hkey
                   Hmiss).
        destruct (@tune_selected v (c_world first) self (c_args first)
                    (c_kwargs first) key _ _ _ _ _ Hp Hb Hw) as (t & _ & ->).
        assert (Hc2 : cache s2 = cache s).
        { destruct (@frame_benchmark (fun _ => True) v (c_world first) self
                      (c_args first) (c_kwargs first) pruned [] (fun _ _ => I)
                      (entered self (c_args first) (set_hp (c_heap first) s)))
            as (H & _). now rewrite Hb in H. }
        destruct (all_failed self t) as [[|]|e]; simpl;
          try (rewrite Hc2; apply (@dict_get_set_same _ _ _ key_eqb_eq)).
        match goal with |- context [pre_hook self ?a true ?st] =>
          pose proof (frame_pre_hook (fun _ => True) self a true st) as Hf;
          destruct (pre_hook self a true st) as [[[]|e] s4]
        end; destruct Hf as (Hf & _); simpl in *; rewrite Hf, Hc2;
          apply (@dict_get_set_same _ _ _ key_eqb_eq). }
      split; [exact Hcache|].
      intros later again Hagain.
      apply hit_dispatches_cached with (key := key); try assumption.
      now apply run_calls_cache_mono.
  - intros e Habort.
    assert (Htune : exists s1,
               tune v (c_world first) self (c_args first) (c_kwargs first) key
                 (entered self (c_args first) (set_hp (c_heap first) s))
               = (Raise e, s1)
               /\ cache s1 = cache s /\ _timings s1 = _timings s
               /\ storage s1 = storage s).
    { unfold tune. unfold bind at 1. rewrite prune_configs_pair.
      destruct Habort as [Hp|(pruned & Hp & Hb)]; rewrite Hp.
      - eexists. split; [reflexivity|]. now repeat split.
      - unfold bind at 1.
        pose proof (@frame_benchmark (fun _ => True) v (c_world first) self
                      (c_args first) (c_kwargs first) pruned []
                      (fun _ _ => I)
                      (entered self (c_args first) (set_hp (c_heap first) s)))
          as (H1 & H2 & H3 & _).
        destruct (benchmark v (c_world first) self (c_args first)
                    (c_kwargs first) pruned []
                    (entered self (c_args first) (set_hp (c_heap first) s)))
          as [[timings|e'] s2]; simpl in Hb; [discriminate|].
        injection Hb as ->. eexists. split; [reflexivity|].
        simpl in H1, H2, H3. now repeat split. }
    destruct Htune as (s1 & Htune & Hc & Ht & Hs).
    assert (Hrun : run_call v self first s = (Raise e, s1)).
    { unfold run_call. apply run_raises.
      rewrite (@resolve_miss v (c_world first) self (c_args first)
                 (c_kwargs first) (set_hp (c_heap first) s) key Hlen Hkey
                 Hmiss).
      now rewrite Htune. }
    rewrite Hrun. simpl. repeat split; try assumption.
    + simpl. now rewrite Hc.
    + apply resolve_miss; [assumption|assumption|]. simpl. now rewrite Hc.
Qed.

Lemma tuned_key_is_not_benchmarked_again_witness :
  ((forall c, In c [Ex.c16; Ex.c32] ->
              dict_mem Config.eqb
                [(Ex.c16, Quantiles (Fin 5) (Fin 4) (Fin 6));
                 (Ex.c32, Quantiles (Fin 5) (Fin 4) (Fin 6))] c = true)
   /\ exists winner,
       py_min [(Ex.c16, Quantiles (Fin 5) (Fin 4) (Fin 6));
               (Ex.c32, Quantiles (Fin 5) (Fin 4) (Fin 6))] = Ok winner
       /\ dict_get key_eqb
            (cache (snd (run_call 3 Ex.two (Ex.call100 Ex.ok_world) Ex.fresh)))
            Ex.key100
          = Some winner
       /\ forall (later : list call) (again : call),
           key_of_call Ex.two again = Ok Ex.key100 ->
           events_of_call 3 Ex.two again
             (run_calls 3 Ex.two later
                (snd (run_call 3 Ex.two (Ex.call100 Ex.ok_world) Ex.fresh))) = []
           \/ events_of_call 3 Ex.two again
                (run_calls 3 Ex.two later
                   (snd (run_call 3 Ex.two (Ex.call100 Ex.ok_world) Ex.fresh)))
              = [Dispatch winner])
  /\ (fst (run_call 3 Ex.two (Ex.call100 Ex.broken_world) Ex.fresh)
      = Raise (OtherError "CUDA error")
      /\ cache (snd (run_call 3 Ex.two (Ex.call100 Ex.broken_world) Ex.fresh))
         = cache Ex.fresh).
Proof.
  split.
  - apply (proj1 (@tuned_key_is_not_benchmarked_again 3 Ex.two
                    (Ex.call100 Ex.ok_world) Ex.fresh Ex.key100
                    (Nat.lt_succ_diag_r 1) eq_refl eq_refl)
             [Ex.c16; Ex.c32]
             [(Ex.c16, Quantiles (Fin 5) (Fin 4) (Fin 6));
              (Ex.c32, Quantiles (Fin 5) (Fin 4) (Fin 6))]
             (snd (benchmark 3 Ex.ok_world Ex.two [Ex.x; VInt 100] []
                     [Ex.c16; Ex.c32] []
                     (entered Ex.two [Ex.x; VInt 100]
                        (set_hp Ex.h7 Ex.fresh))))).
    + reflexivity.
    + discriminate.
    + apply surjective_pair. reflexivity.
  - destruct (proj2 (@tuned_key_is_not_benchmarked_again 3 Ex.two
                       (Ex.call100 Ex.broken_world) Ex.fresh Ex.key100
                       (Nat.lt_succ_diag_r 1) eq_refl eq_refl)
                (OtherError "CUDA error")) as (H1 & H2 & _).
    + right. exists [Ex.c16; Ex.c32]. split; reflexivity.
    + split; assumption.
Defined.

(** C1 as stated fails when the pass is aborted.  Every launch fails with
    an exception that [_bench] does not catch: the first call runs one
    trial of [c16] and raises; nothing is cached, [c32] is never
    benchmarked, and the second call, which derives the same key,
    benchmarks again. *)
Lemma aborted_pass_is_repeated :
  key_of_call Ex.two (Ex.call100 Ex.broken_world) = Ok Ex.key100
  /\ dict_mem key_eqb (cache Ex.fresh) Ex.key100 = false
  /\ fst (run_call 3 Ex.two (Ex.call100 Ex.broken_world) Ex.fresh)
     = Raise (OtherError "CUDA error")
  /\ events_of_call 3 Ex.two (Ex.call100 Ex.broken_world) Ex.fresh
     = [Trial Ex.c16]
  /\ cache (snd (run_call 3 Ex.two (Ex.call100 Ex.broken_world) Ex.fresh)) = []
  /\ events_of_call 3 Ex.two (Ex.call100 Ex.broken_world)
       (snd (run_call 3 Ex.two (Ex.call100 Ex.broken_world) Ex.fresh))
     = [Trial Ex.c16].
Proof. repeat split; vm_compute; reflexivity. Qed.

(** ** Reset and restore around the trials *)

Lemma stable_for_each_in {A} (R : state -> state -> Prop)
      (l : list A) (body : A -> M unit) :
  (forall s, R s s) -> (forall a b c, R a b -> R b c -> R a c) ->
  (forall x, In x l -> stable R (body x)) -> stable R (for_each l body).
Proof.
  intros Rr Rt. induction l as [|x l IH]; intro H; simpl.
  - now apply stable_ret.
  - apply stable_bind; [assumption|apply H; now left|intros _].
    apply IH. intros y Hy. apply H. now right.
Qed.

Lemma enumerate_from_ge {A} (l : list A) :
  forall k i x, In (i, x) (enumerate_from k l) -> k <= i.
Proof.
  induction l as [|y l IH]; intros k i x; simpl; [intros []|].
  intros [[= <- _]|H]; [lia|]. apply IH in H. lia.
Qed.

Lemma in_enumerate_from {A} (l : list A) :
  forall k x, In x l -> exists i, In (i, x) (enumerate_from k l).
Proof.
  induction l as [|y l IH]; intros k x; simpl; [intros []|].
  intros [<-|H]; [exists k; now left|].
  destruct (IH (S k) x H) as [i Hi]. exists i. now right.
Qed.

Section Buffer.
Variable v : Z.
Variable w : World.
Variable self : t.
Variable args : list pyval.
(** The buffer under observation. *)
Variable l : loc.

(** From [s] to [s'] the buffer at [l] keeps its content. *)
Definition keeps (s s' : state) : Prop := hp s' l = hp s l.

Lemma keeps_refl s : keeps s s.
Proof. reflexivity. Qed.

Lemma keeps_trans a b c : keeps a b -> keeps b c -> keeps a c.
Proof. unfold keeps. congruence. Qed.

Lemma keeps_tensor_arg i : stable keeps (tensor_arg args i).
Proof.
  unfold tensor_arg. destruct (nth_error args i) as [[]|]; intros ?; reflexivity.
Qed.

(** Zeroing another buffer. *)
Lemma keeps_zero_ i :
  (forall dt, nth_error args i <> Some (VTensor l dt)) ->
  stable keeps (zero_ args i).
Proof.
  intros H s. unfold zero_, tensor_arg, bind, modify, keeps.
  destruct (nth_error args i) as [[| | | |l0 dt0]|] eqn:E; simpl; try reflexivity.
  unfold heap_set. destruct (Nat.eqb_spec l l0); [|reflexivity].
  subst. exfalso. apply (H dt0). reflexivity.
Qed.

Lemma keeps_clone i : stable keeps (clone args i).
Proof.
  unfold clone. apply (@stable_bind _ keeps_trans); [apply keeps_tensor_arg|].
  intros l0 s. reflexivity.
Qed.

Hypothesis no_alias :
  forall i dt, In i (reset_idx self) -> nth_error args i <> Some (VTensor l dt).

Lemma keeps_reset_loop : stable keeps (for_each (reset_idx self) (zero_ args)).
Proof.
  apply stable_for_each_in; [apply keeps_refl|apply keeps_trans|].
  intros i Hi. apply keeps_zero_. intro dt. now apply no_alias.
Qed.

Lemma keeps__pre_hook reset_only :
  stable keeps (_pre_hook self args reset_only).
Proof.
  unfold _pre_hook. apply (@stable_bind _ keeps_trans); [apply keeps_reset_loop|].
  intros _. destruct reset_only; [apply (@stable_ret _ keeps_refl)|].
  apply (@stable_bind _ keeps_trans).
  - apply (@stable_comprehension _ keeps_refl keeps_trans). apply keeps_clone.
  - intros copies s. reflexivity.
Qed.

(** The copies [_pre_hook] takes: the one of a buffer is its content. *)
Lemma clone_copies idxs :
  forall k s,
    snd (comprehension idxs (clone args) s) = s
    /\ forall copies,
        fst (comprehension idxs (clone args) s) = Ok copies ->
        forall i j dt,
          In (i, j) (enumerate_from k idxs) ->
          nth_error args j = Some (VTensor l dt) ->
          nth_error copies (i - k) = Some (hp s l).
Proof.
  induction idxs as [|j0 idxs IH]; intros k s; simpl.
  - split; [reflexivity|]. intros copies _ i j dt [].
  - unfold bind at 1 3. unfold clone at 1 3. unfold tensor_arg, bind, get, ret.
    destruct (nth_error args j0) as [[| | | |l0 dt0]|] eqn:E; simpl;
      try (split; [reflexivity|discriminate]).
    destruct (IH (S k) s) as [Hs Hc].
    destruct (comprehension idxs (clone args) s) as [[ys|e] s1]; simpl in *;
      subst s1; (split; [reflexivity|]); [|discriminate].
    intros copies [= <-] i j dt [[= <- <-]|Hin] Hj.
    + rewrite Nat.sub_diag. simpl. congruence.
    + assert (Hge := enumerate_from_ge _ _ _ _ Hin).
      replace (i - k) with (S (i - S k)) by lia. simpl.
      eapply Hc; eauto.
Qed.

Lemma _pre_hook_snapshot s s' :
  _pre_hook self args false s = (Ok tt, s') ->
  forall i j dt,
    In (i, j) (enumerate_from 0 (restore_idx self)) ->
    nth_error args j = Some (VTensor l dt) ->
    nth_error (restore_copies s') i = Some (hp s' l).
Proof.
  unfold _pre_hook. unfold bind at 1.
  destruct (for_each (reset_idx self) (zero_ args) s) as [[[]|e] s1];
    [|discriminate].
  unfold bind, modify.
  destruct (clone_copies (restore_idx self) 0 s1) as [Hs Hc].
  destruct (comprehension (restore_idx self) (clone args) s1) as [[copies|e] s2];
    simpl in *; [|discriminate].
  subst s2. intros [= <-] i j dt Hin Hj. simpl.
  rewrite <- (Nat.sub_0_r i). eapply Hc; eauto.
Qed.

(** The loop of [_post_hook]: if the copies of the buffer hold [v0], it
    ends with [v0] in the buffer whenever it gets to write it. *)
Lemma restore_loop v0 rest :
  forall k s,
    (forall i j dt,
        In (i, j) (enumerate_from k rest) ->
        nth_error args j = Some (VTensor l dt) ->
        nth_error (restore_copies s) i = Some v0) ->
    (fst (for_each (enumerate_from k rest) (restore_one args) s) = Ok tt
     /\ (hp s l = v0
         \/ (exists i j dt, In (i, j) (enumerate_from k rest)
                            /\ nth_error args j = Some (VTensor l dt)) ->
         hp (snd (for_each (enumerate_from k rest) (restore_one args) s)) l
         = v0))
    \/ fst (for_each (enumerate_from k rest) (restore_one args) s)
       = Raise IndexError
    \/ fst (for_each (enumerate_from k rest) (restore_one args) s)
       = Raise AttributeError.
Proof.
  clear no_alias.
  induction rest as [|j0 rest IH]; intros k s Hcopies; simpl.
  - left. split; [reflexivity|]. intros [H|(i & j & dt & [] & _)]. exact H.
  - unfold bind. unfold restore_one at 1 3 5 7. unfold tensor_arg, bind, get. simpl.
    destruct (nth_error args j0) as [[| | | |l0 dt0]|] eqn:E; simpl; auto.
    destruct (nth_error (restore_copies s) k) as [src|] eqn:Ek; simpl; auto.
    set (s1 := set_hp (heap_set (hp s) l0 src) s).
    destruct (IH (S k) s1) as [[Hok Hv]|Herr].
    + intros i j dt Hin Hj. apply (Hcopies i j dt); [now right|exact Hj].
    + left. split; [exact Hok|]. intro H. apply Hv.
      unfold s1. simpl. unfold heap_set.
      destruct (Nat.eqb_spec l l0) as [->|Hne].
      * left. specialize (Hcopies k j0 dt0 (or_introl eq_refl) E). congruence.
      * destruct H as [H|(i & j & dt & [[= <- <-]|Hin] & Hj)].
        -- now left.
        -- congruence.
        -- right. eauto.
    + right. exact Herr.
Qed.
End Buffer.

(** [kept l v0 (r, s)]: the buffer at [l] holds [v0] in [s], unless [r] is
    an exception of the tensor accesses of the hooks, which [_bench] lets
    through. *)
Definition kept {A} (l : loc) (v0 : list Z) (p : res A * state) : Prop :=
  hp (snd p) l = v0 \/ fst p = Raise IndexError \/ fst p = Raise AttributeError.

Lemma kept_bind {A B} l v0 (m : M A) (f : A -> M B) s :
  kept l v0 (m s) ->
  (forall a s1, m s = (Ok a, s1) -> hp s1 l = v0 -> kept l v0 (f a s1)) ->
  kept l v0 (bind m f s).
Proof.
  unfold bind. destruct (m s) as [[a|e] s1]; intros H Hf.
  - apply Hf; [reflexivity|]. destruct H as [H|[H|H]]; [exact H| |]; discriminate.
  - destruct H as [H|[H|H]]; [left; exact H| |]; simpl in *;
      inversion H; subst; [right; left|right; right]; reflexivity.
Qed.

Lemma kept_of_keeps {A} l v0 (m : M A) s :
  hp (snd (m s)) l = hp s l -> hp s l = v0 -> kept l v0 (m s).
Proof. intros H1 H2. left. congruence. Qed.

Lemma pre_hook_default self args reset_only :
  custom_pre_hook self = None -> restore_idx self <> [] ->
  pre_hook self args reset_only = _pre_hook self args reset_only.
Proof.
  intros H Hne. unfold pre_hook. rewrite H.
  destruct (restore_idx self); [congruence|]. simpl. now rewrite orb_true_r.
Qed.

Lemma post_hook_default self args :
  custom_post_hook self = None -> restore_idx self <> [] ->
  post_hook self args = _post_hook self args.
Proof.
  intros H Hne. unfold post_hook. rewrite H.
  destruct (restore_idx self); [congruence|]. reflexivity.
Qed.

Section Restore.
Variable v : Z.
Variable w : World.
Variable self : t.
Variable args : list pyval.
Variables (l : loc) (j : nat) (dt : string).

Hypothesis default_pre : custom_pre_hook self = None.
Hypothesis default_post : custom_post_hook self = None.
Hypothesis restored : In j (restore_idx self).
Hypothesis buffer : nth_error args j = Some (VTensor l dt).
Hypothesis no_alias :
  forall i dt', In i (reset_idx self) -> nth_error args i <> Some (VTensor l dt').
Hypothesis hook_keeps :
  forall h fn hp0, fst (config_pre_hook w h fn hp0) l = hp0 l.
Hypothesis failure_keeps :
  forall a kw hp0 e,
    snd (fn_run w a kw hp0) = Raise e -> fst (fn_run w a kw hp0) l = hp0 l.

Lemma restore_idx_nonempty : restore_idx self <> [].
Proof. intro H. rewrite H in restored. exact restored. Qed.

Lemma keeps_config_pre_hook config fn s :
  hp (snd (call_config_pre_hook w config fn s)) l = hp s l.
Proof.
  unfold call_config_pre_hook.
  destruct (Config.pre_hook config) as [h|]; [|reflexivity].
  unfold external. specialize (hook_keeps h fn (hp s)).
  destruct (config_pre_hook w h fn (hp s)); exact hook_keeps.
Qed.

Lemma call_fn_run_restore ev kw s :
  restore_copies (snd (call_fn_run w ev args kw s)) = restore_copies s
  /\ (forall e, fst (call_fn_run w ev args kw s) = Raise e ->
                hp (snd (call_fn_run w ev args kw s)) l = hp s l).
Proof.
  unfold call_fn_run, bind, lift, modify, external.
  destruct kw as [kw|e0]; simpl; [|auto].
  pose proof (failure_keeps args kw (hp s)) as Hf.
  destruct (fn_run w args kw (hp s)) as [h [r|e0]]; simpl in *.
  - split; [reflexivity|discriminate].
  - split; [reflexivity|]. intros e _. now apply (Hf e0).
Qed.

Lemma _post_hook_kept v0 s :
  (forall i j' dt',
      In (i, j') (enumerate_from 0 (restore_idx self)) ->
      nth_error args j' = Some (VTensor l dt') ->
      nth_error (restore_copies s) i = Some v0) ->
  kept l v0 (_post_hook self args s).
Proof.
  intro Hc. unfold _post_hook, bind, modify.
  destruct (@restore_loop args l v0 (restore_idx self) 0 s Hc)
    as [[Hok Hv]|[Herr|Herr]].
  - destruct (for_each _ _ s) as [[[]|e] s1]; simpl in *; [|discriminate].
    left. apply Hv. right.
    destruct (@in_enumerate_from _ (restore_idx self) 0 j restored) as [i Hi].
    eauto.
  - destruct (for_each _ _ s) as [[[]|e] s1]; simpl in *; [discriminate|].
    right. left. exact Herr.
  - destruct (for_each _ _ s) as [[[]|e] s1]; simpl in *; [discriminate|].
    right. right. exact Herr.
Qed.

Lemma kernel_call_kept config current fn s :
  kept l (hp s l) (kernel_call v w self args config current fn s).
Proof.
  unfold kernel_call.
  apply kept_bind;
    [apply kept_of_keeps; [apply keeps_config_pre_hook|reflexivity]|].
  intros _ s1 _ H1.
  rewrite (@pre_hook_default self args false default_pre restore_idx_nonempty).
  apply kept_bind;
    [apply kept_of_keeps; [apply (@keeps__pre_hook self args l no_alias)|exact H1]|].
  intros [] s2 E2 H2.
  pose proof (@_pre_hook_snapshot self args l _ _ E2) as Hsnap.
  assert (Hfn : forall kw,
             kept l (hp s l)
               ((call_fn_run w (Trial config) args kw;;
                 post_hook self args)%monad s2)).
  { intro kw.
    destruct (call_fn_run_restore (Trial config) kw s2) as [Hrc Hraise].
    unfold bind.
    destruct (call_fn_run w (Trial config) args kw s2) as [[r|e] s3] eqn:E3;
      simpl in *.
    - rewrite (@post_hook_default self args default_post restore_idx_nonempty).
      apply _post_hook_kept. intros i j' dt' Hin Hj'.
      rewrite Hrc, <- H2. eapply Hsnap; eassumption.
    - left. simpl. rewrite (Hraise e eq_refl). exact H2. }
  destruct (3 <=? v)%Z; apply Hfn.
Qed.

Lemma repeat_call_kept v0 n (fn : M unit) :
  (forall s, hp s l = v0 -> kept l v0 (fn s)) ->
  forall s, hp s l = v0 -> kept l v0 (repeat_call n fn s).
Proof.
  intro Hfn. induction n as [|n IH]; intros s Hs; simpl.
  - left. exact Hs.
  - apply kept_bind; [now apply Hfn|]. intros _ s1 _ H1. now apply IH.
Qed.

Lemma measure_kept config current fn s :
  kept l (hp s l) (measure v w self args config current fn s).
Proof.
  assert (Hrep : forall n, kept l (hp s l)
                   (repeat_call n (kernel_call v w self args config current fn) s)).
  { intro n. apply repeat_call_kept; [|reflexivity].
    intros s0 <-. apply kernel_call_kept. }
  assert (Hb : kept l (hp s l)
                 (do_bench w config
                    (kernel_call v w self args config current fn) s)).
  { unfold do_bench. apply kept_bind; [apply Hrep|]. intros _ s1 _ H1.
    apply kept_bind; [left; exact H1|]. intros [[a b] c] s2 [= _ <-] H2.
    left. exact H2. }
  unfold measure. destruct (3 <=? v)%Z; [|exact Hb].
  destruct (use_cuda_graph self); [|exact Hb].
  unfold do_bench_cudagraph. apply kept_bind; [apply Hrep|]. intros _ s1 _ H1.
  apply kept_bind; [left; exact H1|]. intros a s2 [= _ <-] H2.
  left. exact H2.
Qed.

Lemma _bench_kept config meta s :
  kept l (hp s l) (_bench v w self args config meta s).
Proof.
  unfold _bench. destruct (keys_inter _ _ _); [|left; reflexivity].
  apply kept_bind.
  - left. unfold get_nargs, bind, get. now destruct (nargs s).
  - intros n s1 E H1. unfold try_except.
    match goal with |- context [measure v w self args config ?c ?f s1] =>
      pose proof (measure_kept config c f s1) as Hm;
      destruct (measure v w self args config c f s1) as [[t|e] s2]
    end; rewrite H1 in Hm.
    + exact Hm.
    + destruct Hm as [Hm|[Hm|Hm]]; simpl in Hm.
      * left. unfold bench_handler.
        destruct (3 <=? v)%Z; destruct e; exact Hm.
      * inversion Hm; subst. right. left. unfold bench_handler.
        now destruct (3 <=? v)%Z.
      * inversion Hm; subst. right. right. unfold bench_handler.
        now destruct (3 <=? v)%Z.
Qed.

Lemma benchmark_kept kwargs pruned :
  forall timings s,
    kept l (hp s l) (benchmark v w self args kwargs pruned timings s).
Proof.
  induction pruned as [|c rest IH]; intros timings s; simpl.
  - left. reflexivity.
  - apply kept_bind; [apply _bench_kept|].
    intros t s1 _ H1. rewrite <- H1. apply IH.
Qed.
End Restore.

Section RestoreRun.
Variable v : Z.
Variable w : World.
Variable self : t.
Variable args : list pyval.
Variables (l : loc) (j : nat) (dt : string).

Hypothesis default_pre : custom_pre_hook self = None.
Hypothesis default_post : custom_post_hook self = None.
Hypothesis restored : In j (restore_idx self).
Hypothesis buffer : nth_error args j = Some (VTensor l dt).
Hypothesis no_alias :
  forall i dt', In i (reset_idx self) -> nth_error args i <> Some (VTensor l dt').
Hypothesis hook_keeps :
  forall h fn hp0, fst (config_pre_hook w h fn hp0) l = hp0 l.
Hypothesis failure_keeps :
  forall a kw hp0 e,
    snd (fn_run w a kw hp0) = Raise e -> fst (fn_run w a kw hp0) l = hp0 l.

Ltac same_heap := left; simpl; first [assumption | reflexivity].

Lemma tune_kept kwargs key s :
  kept l (hp s l) (tune v w self args kwargs key s).
Proof.
  unfold tune.
  apply kept_bind;
    [apply kept_of_keeps; [now rewrite prune_configs_state|reflexivity]|].
  intros pruned s1 _ K1.
  apply kept_bind.
  { rewrite <- K1.
    eapply benchmark_kept; eassumption. }
  intros timings s2 _ K2.
  apply kept_bind; [same_heap|]. intros winner s3 [= _ <-] K3.
  apply kept_bind; [same_heap|]. intros _ s4 [= <-] K4.
  apply kept_bind.
  { unfold lookup. destruct (dict_get _ _ _); same_heap. }
  intros t s5 E5 K5.
  apply kept_bind; [same_heap|]. intros _ s6 [= <-] K6.
  apply kept_bind; [same_heap|]. intros failed s7 [= _ <-] K7.
  destruct failed; [same_heap|].
  apply kept_bind; [same_heap|]. intros _ s8 [= <-] K8.
  apply kept_bind.
  { apply kept_of_keeps; [|exact K8].
    rewrite (@pre_hook_default self args true default_pre
               (@restore_idx_nonempty self j restored)).
    apply (@keeps__pre_hook self args l no_alias). }
  intros _ s9 _ K9.
  apply kept_bind; [same_heap|]. intros s10 s11 [= _ <-] K11.
  unfold lookup. destruct (dict_get _ _ _); same_heap.
Qed.

Lemma resolve_kept kwargs s :
  kept l (hp s l) (resolve v w self args kwargs s).
Proof.
  unfold resolve.
  apply kept_bind; [same_heap|]. intros _ s1 [= <-] K1.
  apply kept_bind.
  { destruct (1 <? length (configs self)).
    - apply kept_bind; [same_heap|]. intros key s2 [= _ <-] K2.
      apply kept_bind; [same_heap|]. intros s3 s4 [= _ <-] K4.
      destruct (dict_mem key_eqb (cache s3) key).
      + apply kept_bind.
        { unfold lookup. destruct (dict_get _ _ _); same_heap. }
        intros c s5 E5 K5. same_heap.
      + apply kept_bind.
        { rewrite <- K4. apply tune_kept. }
        intros c s5 E5 K5. same_heap.
    - destruct (configs self); same_heap. }
  intros [config used] s2 _ K2.
  apply kept_bind; [same_heap|]. intros _ s3 [= <-] K3.
  apply kept_bind.
  { destruct used; [same_heap|].
    apply kept_bind; [same_heap|]. intros s4 s5 [= _ <-] K5. same_heap. }
  intros _ s4 _ K4. same_heap.
Qed.
End RestoreRun.

(** *** The reset before the production dispatch *)

Definition zeroed (l : loc) (s : state) : Prop :=
  Forall (fun z => z = 0%Z) (hp s l).

Lemma map_zero_zeroed (d : list Z) :
  Forall (fun z => z = 0%Z) (map (fun _ => 0%Z) d).
Proof. induction d; simpl; constructor; auto. Qed.

Lemma zero__keeps_zeroed args l i :
  stable (fun s s' => zeroed l s -> zeroed l s') (zero_ args i).
Proof.
  intros s. unfold zero_, tensor_arg, bind, modify, zeroed.
  destruct (nth_error args i) as [[| | | |l0 dt0]|]; simpl; auto.
  unfold heap_set. destruct (Nat.eqb_spec l l0); [|auto].
  intros _. apply map_zero_zeroed.
Qed.

Lemma zero__zeroes args l i dt s s' :
  nth_error args i = Some (VTensor l dt) ->
  zero_ args i s = (Ok tt, s') -> zeroed l s'.
Proof.
  intros H. unfold zero_, tensor_arg, bind, modify, zeroed. rewrite H. simpl.
  intros [= <-]. simpl. unfold heap_set. rewrite Nat.eqb_refl.
  apply map_zero_zeroed.
Qed.

Lemma reset_loop_zeroes args l idxs :
  forall s s' i dt,
    for_each idxs (zero_ args) s = (Ok tt, s') ->
    (zeroed l s \/ (In i idxs /\ nth_error args i = Some (VTensor l dt))) ->
    zeroed l s'.
Proof.
  induction idxs as [|i0 idxs IH]; intros s s' i dt; simpl.
  - unfold ret. intros [= <-] [H|[[] _]]. exact H.
  - unfold bind.
    pose proof (@zero__keeps_zeroed args l i0 s) as Hk.
    destruct (zero_ args i0 s) as [[[]|e] s1] eqn:E; [|discriminate].
    simpl in Hk. intros Hrest H. apply (IH s1 s' i dt Hrest).
    destruct H as [H|[[<-|Hin] Hi]]; auto.
    left. eapply zero__zeroes; eassumption.
Qed.

(** [tune] returns normally only through its last [pre_hook]. *)
Lemma tune_ok_inv v w self args kwargs key s config s' :
  tune v w self args kwargs key s = (Ok config, s') ->
  exists st, pre_hook self args true st = (Ok tt, s').
Proof.
  destruct (fst (prune_configs v self kwargs s)) as [pruned|e] eqn:Hp.
  - destruct (benchmark v w self args kwargs pruned [] s) as [[timings|e] s2] eqn:Hb.
    + destruct (py_min timings) as [winner|e] eqn:Hm.
      * destruct (@tune_selected v w self args kwargs key _ _ _ _ _ Hp Hb Hm)
          as (t & _ & ->).
        destruct (all_failed self t) as [[|]|e]; try discriminate.
        match goal with |- context [pre_hook self args true ?st] =>
          destruct (pre_hook self args true st) as [[[]|e] s4] eqn:E
        end; [|discriminate].
        intros [= _ <-]. eauto.
      * unfold tune. unfold bind at 1.
        rewrite prune_configs_pair, Hp. unfold bind at 1. rewrite Hb.
        unfold bind at 1. unfold lift at 1. rewrite Hm. discriminate.
    + unfold tune. unfold bind at 1.
      rewrite prune_configs_pair, Hp. unfold bind at 1. rewrite Hb. discriminate.
  - unfold tune. unfold bind at 1.
    rewrite prune_configs_pair, Hp. discriminate.
Qed.

(** C9, as the code has it.  The engine's own hooks are in place and the
    configuration has been resolved; [s'] is the state in which the
    production dispatch starts.
    - A buffer named in [restore_value] and not also in [reset_to_zero]
      holds in [s'] what it held when [run] was called, provided the
      configurations' own pre-hooks leave it alone and a launch that fails
      has not written to it: every completed trial ends with the copy taken
      before it written back.
    - A buffer named in [reset_to_zero] holds zeros in [s'] after a
      benchmarking pass, whatever it held before the first trial. *)
Theorem buffers_before_production_dispatch :
  forall v w self args kwargs s config s',
    custom_pre_hook self = None ->
    custom_post_hook self = None ->
    resolve v w self args kwargs s = (Ok config, s') ->
    (forall j l dt,
        In j (restore_idx self) ->
        nth_error args j = Some (VTensor l dt) ->
        (forall i dt', In i (reset_idx self) ->
                       nth_error args i <> Some (VTensor l dt')) ->
        (forall h fn hp0, fst (config_pre_hook w h fn hp0) l = hp0 l) ->
        (forall a kw hp0 e,
            snd (fn_run w a kw hp0) = Raise e ->
            fst (fn_run w a kw hp0) l = hp0 l) ->
        hp s' l = hp s l)
    /\ (forall i l dt key,
           In i (reset_idx self) ->
           nth_error args i = Some (VTensor l dt) ->
           1 < length (configs self) ->
           derive_key self (nargs_of self args) kwargs = Ok key ->
           dict_mem key_eqb (cache s) key = false ->
           Forall (fun z => z = 0%Z) (hp s' l)).
Proof.
  intros v w self args kwargs s config s' Hpre Hpost Hres. split.
  - intros j l dt Hj Hbuf Halias Hhook Hfail.
    pose proof (@resolve_kept v w self args l j dt Hpre Hpost Hj Hbuf Halias
                  Hhook Hfail kwargs s) as H.
    rewrite Hres in H. destruct H as [H|[H|H]]; [exact H| |]; discriminate.
  - intros i l dt key Hi Hbuf Hlen Hkey Hmiss.
    rewrite (@resolve_miss v w self args kwargs s key Hlen Hkey Hmiss) in Hres.
    destruct (tune v w self args kwargs key (entered self args s))
      as [[c|e] s1] eqn:Et; [|discriminate].
    injection Hres as _ <-.
    apply tune_ok_inv in Et as [st Hst].
    unfold pre_hook in Hst. rewrite Hpre in Hst.
    assert (Hne : (0 <? length (reset_idx self)) = true).
    { destruct (reset_idx self); [destruct Hi|reflexivity]. }
    rewrite Hne in Hst. simpl in Hst.
    unfold _pre_hook, bind, ret in Hst.
    destruct (for_each (reset_idx self) (zero_ args) st) as [[[]|e] s2] eqn:E;
      [|discriminate].
    injection Hst as <-. simpl.
    eapply reset_loop_zeroes; [exact E|]. right. eauto.
Qed.

(** [x] is named in [restore_value]; the four trial runs each add one to
    it, and it holds 7 again when the production dispatch starts. *)
Lemma buffers_before_production_dispatch_witness :
  trace (snd (resolve 3 Ex.ok_world Ex.restoring [Ex.x; VInt 100] [] Ex.fresh))
  = [Trial Ex.c16; Trial Ex.c16; Trial Ex.c32; Trial Ex.c32]
  /\ hp (snd (resolve 3 Ex.ok_world Ex.restoring [Ex.x; VInt 100] [] Ex.fresh)) 0
     = hp Ex.fresh 0.
Proof.
  split; [vm_compute; reflexivity|].
  apply (proj1 (@buffers_before_production_dispatch 3 Ex.ok_world Ex.restoring
                  [Ex.x; VInt 100] [] Ex.fresh Ex.c16 _ eq_refl eq_refl
                  (surjective_pair _ eq_refl))
           0 0 "float32").
  - left. reflexivity.
  - reflexivity.
  - intros i dt' [].
  - intros h fn hp0. reflexivity.
  - intros a kw hp0 e H. discriminate.
Defined.

(** C9 as stated fails for a buffer named in [reset_to_zero], alone or
    together with [restore_value]: [x] holds 7 before the first trial and 0
    when the production dispatch starts. *)
Lemma reset_buffer_is_zero_not_initial :
  fst (resolve 3 Ex.ok_world Ex.resetting [Ex.x; VInt 100] [] Ex.fresh)
  = Ok Ex.c16
  /\ hp Ex.fresh 0 = [7%Z]
  /\ hp (snd (resolve 3 Ex.ok_world Ex.resetting [Ex.x; VInt 100] [] Ex.fresh)) 0
     = [0%Z]
  /\ fst (resolve 3 Ex.ok_world Ex.reset_and_restored [Ex.x; VInt 100] []
            Ex.fresh)
     = Ok Ex.c16
  /\ hp (snd (resolve 3 Ex.ok_world Ex.reset_and_restored [Ex.x; VInt 100] []
                Ex.fresh)) 0
     = [0%Z].
Proof. repeat split; vm_compute; reflexivity. Qed.

(** ** The cache key when every declared argument is given *)

Lemma index_of_nth names k i :
  index_of names k = Ok i -> nth_error names i = Some k.
Proof.
  revert i. induction names as [|n names IH]; intro i; simpl; [discriminate|].
  destruct (String.eqb_spec n k) as [->|Hne].
  - now intros [= <-].
  - destruct (index_of names k) as [i'|e]; [|discriminate].
    intros [= <-]. simpl. now apply IH.
Qed.

Lemma given_args_all self n kwargs :
  (forall name, In name (arg_names self) ->
                kw_mem (kw_update n kwargs) name = true) ->
  map Some (given_args self n kwargs)
  = map (kw_get (kw_update n kwargs)) (arg_names self).
Proof.
  unfold given_args. induction (arg_names self) as [|name names IH];
    intro H; simpl; [reflexivity|].
  assert (Hm := H name (or_introl eq_refl)).
  unfold kw_mem, dict_mem in Hm. fold (kw_get (kw_update n kwargs) name) in Hm.
  destruct (kw_get (kw_update n kwargs) name) as [x|]; [|discriminate].
  simpl. f_equal. apply IH. intros name' Hin. apply H. now right.
Qed.

(** X1. Every declared argument is given, positionally or by keyword.  Then
    the key is the tuple of the values of the arguments named in [key], in that
    order, followed by the dtype of every argument that has one, in
    declaration order; it depends on nothing else. *)
Theorem derive_key_when_all_given :
  forall self n kwargs key_names,
    indices (arg_names self) (Some key_names) = Ok (key_idx self) ->
    (forall name, In name (arg_names self) ->
                  kw_mem (kw_update n kwargs) name = true) ->
    exists vals all,
      map (kw_get (kw_update n kwargs)) key_names = map Some vals
      /\ map (kw_get (kw_update n kwargs)) (arg_names self) = map Some all
      /\ derive_key self n kwargs
         = Ok (vals ++ flat_map (fun arg => match arg with
                                            | VTensor _ dtype => [VStr dtype]
                                            | _ => []
                                            end) all).
Proof.
  intros self n kwargs key_names Hidx Hall.
  pose proof (given_args_all self n kwargs Hall) as Hg.
  unfold derive_key.
  set (given := given_args self n kwargs) in *.
  set (all_args := kw_update n kwargs) in *.
  assert (Hvals : exists vals,
             map (kw_get all_args) key_names = map Some vals
             /\ res_map (fun i => match nth_error given i with
                                  | Some x => Ok x
                                  | None => Raise IndexError
                                  end) (key_idx self) = Ok vals).
  { simpl in Hidx. revert Hidx. generalize (key_idx self).
    induction key_names as [|k ks IH]; intros idxs; simpl.
    - intros [= <-]. exists []. now split.
    - destruct (index_of (arg_names self) k) as [i|e] eqn:Ei; [|discriminate].
      destruct (res_map (index_of (arg_names self)) ks) as [js|e] eqn:Ejs;
        [|discriminate].
      intros [= <-]. destruct (IH js eq_refl) as (vals & Hv1 & Hv2).
      apply index_of_nth in Ei.
      assert (Hn : nth_error (map Some given) i = Some (kw_get all_args k)).
      { rewrite Hg. now apply map_nth_error. }
      rewrite nth_error_map in Hn.
      destruct (nth_error given i) as [x|] eqn:Ex; [|discriminate].
      simpl in Hn. injection Hn as Hn.
      exists (x :: vals). simpl. rewrite Ex, Hv2, <- Hn, Hv1. now split. }
  destruct Hvals as (vals & Hv1 & Hv2).
  exists vals, given. rewrite Hv2. repeat split; auto.
Qed.

Lemma derive_key_when_all_given_witness :
  exists vals all,
    map (kw_get (kw_update (nargs_of Ex.two [Ex.x; VInt 100]) [])) ["n"]
    = map Some vals
    /\ map (kw_get (kw_update (nargs_of Ex.two [Ex.x; VInt 100]) []))
         (arg_names Ex.two)
       = map Some all
    /\ derive_key Ex.two (nargs_of Ex.two [Ex.x; VInt 100]) []
       = Ok (vals ++ flat_map (fun arg => match arg with
                                          | VTensor _ dtype => [VStr dtype]
                                          | _ => []
                                          end) all).
Proof.
  apply (@derive_key_when_all_given Ex.two (nargs_of Ex.two [Ex.x; VInt 100])
           [] ["n"]).
  - reflexivity.
  - intros name [<-|[<-|[]]]; reflexivity.
Defined.

(** * Further properties of the module *)

(** ** What [generate_config_list] contains *)

Lemma in_product {A} (ls : list (list A)) (comb : list A) :
  In comb (product ls) <-> Forall2 (fun x l => In x l) comb ls.
Proof.
  revert comb. induction ls as [|l rest IH]; intro comb; simpl.
  - split.
    + intros [<-|[]]. constructor.
    + intro H. inversion H. now left.
  - rewrite in_flat_map. split.
    + intros (x & Hx & Hin). apply in_map_iff in Hin as (tl & <- & Htl).
      constructor; [assumption|]. now apply IH.
    + intro H. inversion H as [|x l0 tl rest0 Hx Htl]; subst.
      exists x. split; [assumption|]. apply in_map. now apply IH.
Qed.

Lemma in_config_product v cs nw nc ns ews :
  In (nw, nc, ns, ews) (ConfigSpace.config_product v cs)
  <-> In nw (ConfigSpace.num_warps cs) /\ In nc (ConfigSpace.num_ctas cs)
      /\ In ns (ConfigSpace.num_stages cs)
      /\ (if (3 <=? v)%Z then ews = false
          else In ews (ConfigSpace.enable_warp_specialization cs)).
Proof.
  unfold ConfigSpace.config_product. destruct (3 <=? v)%Z; rewrite in_map_iff.
  - split.
    + intros ([a [b c]] & [= <- <- <- <-] & H).
      apply in_prod_iff in H as [H1 H]. apply in_prod_iff in H as [H2 H3]. auto.
    + intros (H1 & H2 & H3 & ->). exists (nw, (nc, ns)). split; [reflexivity|].
      apply in_prod; [assumption|]. now apply in_prod.
  - split.
    + intros ([a [b [c d]]] & [= <- <- <- <-] & H).
      apply in_prod_iff in H as [H1 H]. apply in_prod_iff in H as [H2 H].
      apply in_prod_iff in H as [H3 H4]. auto.
    + intros (H1 & H2 & H3 & H4). exists (nw, (nc, (ns, ews))).
      split; [reflexivity|].
      apply in_prod; [assumption|]. apply in_prod; [assumption|].
      now apply in_prod.
Qed.

(** X2. [generate_config_list] returns exactly the configurations built from
    a combination of the kwarg lists that every condition accepts (one value
    per parameter, from that parameter's list) and one value from each
    launch-parameter list: nothing else, and none of these is missing.  Each
    carries the space's [pre_hook] and no [maxnreg]; with triton 3 or later
    warp specialization is off in every configuration. *)
Theorem generate_config_list_members :
  forall v cs c,
    In c (ConfigSpace.generate_config_list v cs)
    <-> exists comb nw nc ns ews,
        Forall2 (fun x l => In x l) comb (map snd (ConfigSpace.kwargs cs))
        /\ (forall condition,
              In condition (ConfigSpace.kwarg_conditions cs) ->
              condition (dict_of String.eqb
                           (combine (map fst (ConfigSpace.kwargs cs)) comb))
              = true)
        /\ In nw (ConfigSpace.num_warps cs)
        /\ In nc (ConfigSpace.num_ctas cs)
        /\ In ns (ConfigSpace.num_stages cs)
        /\ (if (3 <=? v)%Z then ews = false
            else In ews (ConfigSpace.enable_warp_specialization cs))
        /\ c = Config.mk
                 (dict_of String.eqb
                    (combine (map fst (ConfigSpace.kwargs cs)) comb))
                 (Some nw) (Some nc) (Some ns) None ews
                 (ConfigSpace.pre_hook cs).
Proof.
  intros v cs c. unfold ConfigSpace.generate_config_list.
  rewrite in_map_iff. split.
  - intros ([kw [[[nw nc] ns] ews]] & <- & H).
    apply in_prod_iff in H as [Hkw Hlaunch].
    unfold ConfigSpace.kwarg_lists in Hkw. apply filter_In in Hkw as [Hkw Hacc].
    unfold ConfigSpace.kwarg_lists_complete in Hkw.
    apply in_map_iff in Hkw as (comb & <- & Hcomb).
    apply in_product in Hcomb.
    apply in_config_product in Hlaunch as (H1 & H2 & H3 & H4).
    exists comb, nw, nc, ns, ews. repeat split; try assumption.
    intros condition Hc. unfold ConfigSpace.accepted in Hacc.
    rewrite forallb_forall in Hacc. now apply Hacc.
  - intros (comb & nw & nc & ns & ews & Hcomb & Hacc & H1 & H2 & H3 & H4 & ->).
    exists (dict_of String.eqb (combine (map fst (ConfigSpace.kwargs cs)) comb),
            (nw, nc, ns, ews)).
    split; [reflexivity|]. apply in_prod.
    + unfold ConfigSpace.kwarg_lists. apply filter_In. split.
      * unfold ConfigSpace.kwarg_lists_complete. apply in_map_iff.
        exists comb. split; [reflexivity|]. now apply in_product.
      * unfold ConfigSpace.accepted. apply forallb_forall. exact Hacc.
    + apply in_config_product. auto.
Qed.

(** ** Distinct inputs give distinct configurations *)

Section DictFresh.
Variables K V : Type.
Variable eqb : K -> K -> bool.
Hypothesis eqb_eq : forall a b, eqb a b = true <-> a = b.

Lemma dict_set_fresh (d : dict K V) k v :
  ~ In k (dict_keys d) -> dict_set eqb d k v = d ++ [(k, v)].
Proof.
  induction d as [|[k0 v0] d IH]; simpl; intro H; [reflexivity|].
  destruct (eqb k k0) eqn:E.
  - apply eqb_eq in E. subst. exfalso. apply H. now left.
  - rewrite IH; [reflexivity|]. intro Hin. apply H. now right.
Qed.

Lemma dict_update_fresh (pairs : list (K * V)) :
  forall d,
    NoDup (map fst pairs) ->
    (forall k, In k (map fst pairs) -> ~ In k (dict_keys d)) ->
    dict_update eqb d pairs = d ++ pairs.
Proof.
  unfold dict_update.
  induction pairs as [|[k v] pairs IH]; intros d Hnd Hfresh; simpl.
  - now rewrite app_nil_r.
  - inversion Hnd as [|? ? Hk Hnd']; subst.
    rewrite dict_set_fresh by (apply Hfresh; now left).
    rewrite IH; [now rewrite <- app_assoc|assumption|].
    intros k' Hk' Hin. unfold dict_keys in Hin. rewrite map_app in Hin.
    apply in_app_or in Hin as [Hin|[<-|[]]].
    + apply (Hfresh k'); [now right|exact Hin].
    + contradiction.
Qed.

(** A dictionary built from pairs with distinct keys is the list of the
    pairs. *)
Lemma dict_of_distinct_keys (pairs : list (K * V)) :
  NoDup (map fst pairs) -> dict_of eqb pairs = pairs.
Proof.
  intro H. unfold dict_of. rewrite dict_update_fresh; auto.
Qed.
End DictFresh.

Lemma combine_fst {A B} (a : list A) :
  forall b : list B, length a = length b -> map fst (combine a b) = a.
Proof.
  induction a as [|x a IH]; intros [|y b] H; simpl in *; try discriminate;
    [reflexivity|]. f_equal. apply IH. lia.
Qed.

Lemma combine_snd {A B} (a : list A) :
  forall b : list B, length a = length b -> map snd (combine a b) = b.
Proof.
  induction a as [|x a IH]; intros [|y b] H; simpl in *; try discriminate;
    [reflexivity|]. f_equal. apply IH. lia.
Qed.

Lemma NoDup_map_on {A B} (f : A -> B) (l : list A) :
  (forall x y, In x l -> In y l -> f x = f y -> x = y) ->
  NoDup l -> NoDup (map f l).
Proof.
  induction l as [|x l IH]; intros Hinj Hnd; simpl; [constructor|].
  inversion Hnd as [|? ? Hx Hnd']; subst. constructor.
  - intro Hin. apply in_map_iff in Hin as (y & Hy & Hin).
    assert (y = x) by (apply Hinj; simpl; auto). subst. contradiction.
  - apply IH; [|assumption]. intros a b Ha Hb. apply Hinj; simpl; auto.
Qed.

Lemma NoDup_list_prod {A B} (a : list A) (b : list B) :
  NoDup a -> NoDup b -> NoDup (list_prod a b).
Proof.
  intros Ha Hb. induction a as [|x a IH]; simpl; [constructor|].
  inversion Ha as [|? ? Hx Ha']; subst.
  apply NoDup_app.
  - apply NoDup_map_on; [|assumption]. now intros y z _ _ [= ->].
  - now apply IH.
  - intros [x' y] Hin Hin'. apply in_map_iff in Hin as (y' & [= <- <-] & _).
    apply in_prod_iff in Hin' as [Hin' _]. contradiction.
Qed.

Lemma NoDup_product {A} (ls : list (list A)) :
  (forall l, In l ls -> NoDup l) -> NoDup (product ls).
Proof.
  induction ls as [|l rest IH]; intro H; simpl.
  - constructor; [intros []|constructor].
  - assert (Hrest : NoDup (product rest))
      by (apply IH; intros l' Hl'; apply H; now right).
    assert (Hl : NoDup l) by (apply H; now left).
    clear H IH. induction l as [|x l IHl]; simpl; [constructor|].
    inversion Hl as [|? ? Hx Hl']; subst.
    apply NoDup_app.
    + apply NoDup_map_on; [|assumption]. now intros y z _ _ [= ->].
    + now apply IHl.
    + intros comb Hin Hin'. apply in_map_iff in Hin as (tl & <- & _).
      apply in_flat_map in Hin' as (x' & Hx' & Hin').
      apply in_map_iff in Hin' as (tl' & [= <- _] & _). contradiction.
Qed.

(** X3. When the parameter names are distinct (as the keys of a dictionary
    are) and no list of the space holds a value twice, the generated
    configurations are pairwise distinct: no candidate is benchmarked
    twice. *)
Theorem generate_config_list_distinct :
  forall v cs,
    NoDup (map fst (ConfigSpace.kwargs cs)) ->
    (forall values, In values (map snd (ConfigSpace.kwargs cs)) -> NoDup values) ->
    NoDup (ConfigSpace.num_warps cs) ->
    NoDup (ConfigSpace.num_ctas cs) ->
    NoDup (ConfigSpace.num_stages cs) ->
    NoDup (ConfigSpace.enable_warp_specialization cs) ->
    NoDup (ConfigSpace.generate_config_list v cs).
Proof.
  intros v cs Hkeys Hvals Hw Hc Hs He.
  unfold ConfigSpace.generate_config_list.
  apply NoDup_map_on.
  - intros [kw [[[nw nc] ns] ews]] [kw' [[[nw' nc'] ns'] ews']] _ _ H.
    now inversion H.
  - apply NoDup_list_prod.
    + unfold ConfigSpace.kwarg_lists, ConfigSpace.kwarg_lists_complete.
      apply NoDup_filter. apply NoDup_map_on; [|now apply NoDup_product].
      intros a b Ha Hb. apply in_product in Ha, Hb.
      apply Forall2_length in Ha, Hb. rewrite length_map in Ha, Hb.
      assert (Hla : length (map fst (ConfigSpace.kwargs cs)) = length a)
        by (rewrite length_map; congruence).
      assert (Hlb : length (map fst (ConfigSpace.kwargs cs)) = length b)
        by (rewrite length_map; congruence).
      rewrite !(@dict_of_distinct_keys _ _ _ String.eqb_eq)
        by (rewrite combine_fst; assumption).
      intro H. apply (f_equal (map snd)) in H.
      now rewrite !combine_snd in H by assumption.
    + unfold ConfigSpace.config_product. destruct (3 <=? v)%Z.
      * apply NoDup_map_on.
        -- intros [a [b c]] [a' [b' c']] _ _ H. now inversion H.
        -- repeat apply NoDup_list_prod; assumption.
      * apply NoDup_map_on.
        -- intros [a [b [c d]]] [a' [b' [c' d']]] _ _ H. now inversion H.
        -- repeat apply NoDup_list_prod; assumption.
Qed.

Lemma generate_config_list_distinct_witness :
  length (ConfigSpace.generate_config_list 3 Ex.block_space) = 4
  /\ NoDup (ConfigSpace.generate_config_list 3 Ex.block_space).
Proof.
  split; [reflexivity|].
  apply (@generate_config_list_distinct 3 Ex.block_space).
  - repeat constructor; simpl; intuition.
  - intros values [<-|[]]. repeat constructor; simpl; intuition discriminate.
  - repeat constructor; simpl; intuition lia.
  - repeat constructor; simpl; intuition.
  - repeat constructor; simpl; intuition.
  - repeat constructor; simpl; intuition.
Defined.

(** ** What the constructor of the space fixes *)

(** X4. Every configuration generated from a space built by
    [ConfigSpace.__init__] has [num_ctas = 1] when [num_ctas] was not given
    or the device capability is below 9 (whatever list was given), four
    warps and two stages when these were not given, and warp specialization
    off when it was not given or triton is 3 or later. *)
Theorem generated_defaults :
  forall v capability kwargs num_warps num_stages num_ctas ews hook conditions c,
    In c (ConfigSpace.generate_config_list v
            (ConfigSpace.init v capability kwargs num_warps num_stages num_ctas
               ews hook conditions)) ->
    (num_ctas = None \/ (capability < 9)%Z -> Config.num_ctas c = Some 1%Z)
    /\ (num_warps = None -> Config.num_warps c = Some 4%Z)
    /\ (num_stages = None -> Config.num_stages c = Some 2%Z)
    /\ (ews = None \/ (3 <= v)%Z -> Config.enable_warp_specialization c = false)
    /\ Config.pre_hook c = hook /\ Config.maxnreg c = None.
Proof.
  intros v capability kwargs num_warps num_stages num_ctas ews hook conditions c.
  unfold ConfigSpace.generate_config_list. rewrite in_map_iff.
  intros ([kw [[[nw nc] ns] e]] & <- & H).
  apply in_prod_iff in H as [_ H].
  apply in_config_product in H as (H1 & H2 & H3 & H4). simpl in *.
  repeat split.
  - intros [-> | Hcap].
    + destruct H2 as [<-|[]]. reflexivity.
    + apply Z.ltb_lt in Hcap. destruct num_ctas; rewrite ?Hcap in H2;
        destruct H2 as [<-|[]]; reflexivity.
  - intros ->. destruct H1 as [<-|[]]. reflexivity.
  - intros ->. destruct H3 as [<-|[]]. reflexivity.
  - intros [-> | Hv].
    + destruct (3 <=? v)%Z; [assumption|]. destruct H4 as [<-|[]]. reflexivity.
    + apply Z.leb_le in Hv. rewrite Hv in H4. exact H4.
Qed.

Lemma generated_defaults_witness :
  Config.num_ctas (Config.mk [("BLOCK", VInt 16)] (Some 4%Z) (Some 1%Z)
                     (Some 2%Z) None false None) = Some 1%Z.
Proof.
  apply (@generated_defaults 3 8 [("BLOCK", [VInt 16; VInt 32])] None None
           (Some [1%Z; 2%Z]) None None None
           (Config.mk [("BLOCK", VInt 16)] (Some 4%Z) (Some 1%Z) (Some 2%Z)
              None false None)).
  - left. reflexivity.
  - right. lia.
Defined.

(** ** [warmup] *)

Lemma frame_prune_configs P v self kwargs :
  stable (frame P) (prune_configs v self kwargs).
Proof.
  intro s. rewrite prune_configs_state. apply frame_refl.
Qed.

Lemma frame_warmup P v self fn_warmup enable_persistent args kwargs :
  stable (frame P) (warmup v self fn_warmup enable_persistent args kwargs).
Proof.
  unfold warmup.
  apply (@stable_bind _ (@frame_trans P)).
  { apply frame_same_engine. intro s. now repeat split. }
  intros _. apply (@stable_bind _ (@frame_trans P)).
  { apply frame_prune_configs. }
  intro pruned. apply (@stable_bind _ (@frame_trans P)).
  { apply (@stable_comprehension _ (@frame_refl P) (@frame_trans P)).
    intro config. unfold warmup_one.
    apply (@stable_bind _ (@frame_trans P)).
    - apply (@stable_lift _ (@frame_refl P)).
    - intro kw. apply frame_external. }
  intro ret_. apply (@stable_bind _ (@frame_trans P)).
  { apply frame_same_engine. intro s. now repeat split. }
  intros _. apply (@stable_ret _ (@frame_refl P)).
Qed.

(** X5. [warmup] compiles and does nothing else: whatever the outcome, the
    cache, the timing table and the storage are as before and the kernel has
    not been launched. *)
Theorem warmup_leaves_the_engine_alone :
  forall v self fn_warmup enable_persistent args kwargs s,
    let s' := snd (warmup v self fn_warmup enable_persistent args kwargs s) in
    cache s' = cache s /\ _timings s' = _timings s /\ storage s' = storage s
    /\ trace s' = trace s.
Proof.
  intros v self fn_warmup enable_persistent args kwargs s s'.
  pose proof (@frame_warmup (fun _ => False) v self fn_warmup enable_persistent
                args kwargs s) as H.
  fold s' in H. pose proof (frame_no_event H) as Ht.
  destruct H as (H1 & H2 & H3 & _). auto.
Qed.

Lemma comprehension_length {A B} (l : list A) (elt : A -> M B) :
  forall s ys s', comprehension l elt s = (Ok ys, s') -> length ys = length l.
Proof.
  induction l as [|x l IH]; intros s ys s'; simpl.
  - unfold ret. now intros [= <- _].
  - unfold bind at 1. destruct (elt x s) as [[y|e] s1]; [|discriminate].
    unfold bind at 1.
    destruct (comprehension l elt s1) as [[ys'|e] s2] eqn:E; [|discriminate].
    unfold ret. intros [= <- _]. simpl. f_equal. eapply IH. eassumption.
Qed.

(** X6. A [warmup] that returns gives one compiled kernel per configuration
    that survives pruning, and leaves [nargs] cleared. *)
Theorem warmup_one_result_per_candidate :
  forall v self fn_warmup enable_persistent args kwargs s ret_ s',
    warmup v self fn_warmup enable_persistent args kwargs s = (Ok ret_, s') ->
    exists pruned,
      prune_configs v self kwargs (entered self args s)
      = (Ok pruned, entered self args s)
      /\ length ret_ = length pruned
      /\ nargs s' = None.
Proof.
  intros v self fn_warmup enable_persistent args kwargs s ret_ s'.
  unfold warmup. unfold bind at 1. unfold modify at 1.
  fold (entered self args s). unfold bind at 1.
  rewrite prune_configs_pair.
  destruct (fst (prune_configs v self kwargs (entered self args s)))
    as [pruned|e]; [|discriminate].
  unfold bind at 1.
  destruct (comprehension pruned _ (entered self args s)) as [[ys|e] s1] eqn:E;
    [|discriminate].
  unfold bind, modify, ret. intros [= <- <-].
  exists pruned. repeat split. eapply comprehension_length. eassumption.
Qed.

Lemma warmup_one_result_per_candidate_witness :
  exists pruned,
    prune_configs 3 Ex.two [] (entered Ex.two [Ex.x; VInt 100] Ex.fresh)
    = (Ok pruned, entered Ex.two [Ex.x; VInt 100] Ex.fresh)
    /\ length [VStr "compiled"; VStr "compiled"] = length pruned
    /\ nargs (snd (warmup 3 Ex.two Ex.compile (fun _ => VBool false)
                     [Ex.x; VInt 100] [] Ex.fresh)) = None.
Proof.
  apply (@warmup_one_result_per_candidate 3 Ex.two Ex.compile
           (fun _ => VBool false) [Ex.x; VInt 100] [] Ex.fresh).
  apply surjective_pair. reflexivity.
Defined.

(** ** [prune_configs] *)

(** The candidates after [early_config_prune], before the performance
    model. *)
Definition early_pruned (self : t) (kwargs : kwdict) (s : state)
  : list Config.t :=
  match early_config_prune self with
  | Some f => f (configs self) (nargs s) kwargs
  | None => configs self
  end.

(** What the performance model predicts for a configuration. *)
Definition estimate (v : Z) (model : kwdict -> Z) (n kwargs : kwdict)
    (config : Config.t) : Z :=
  match perf_model_kwargs v n kwargs config with
  | Ok kw => model kw
  | Raise _ => 0%Z
  end.

(** X7. With the default [top_k] of 1.0 the performance model drops
    nothing, as long as the early pruner returns no more configurations than
    the engine has: [prune_configs] returns what the early pruner returned,
    or the configurations themselves without one, and never fails. *)
Theorem prune_configs_default_top_k :
  forall v self kwargs s,
    configs_top_k self = TopKFloat 1 ->
    length (early_pruned self kwargs s) <= length (configs self) ->
    prune_configs v self kwargs s = (Ok (early_pruned self kwargs s), s).
Proof.
  intros v self kwargs s Hk Hlen.
  unfold prune_configs, bind, get. fold (early_pruned self kwargs s).
  destruct (perf_model self) as [model|]; [|reflexivity].
  unfold effective_top_k. rewrite Hk. simpl Qle_bool. cbv iota.
  replace (exceeds _ _) with false; [reflexivity|].
  symmetry. unfold exceeds. simpl. rewrite Z.mul_1_r, Z.quot_1_r.
  apply Z.ltb_ge. lia.
Qed.

Lemma prune_configs_default_top_k_witness :
  prune_configs 3 (Ex.ranked (TopKFloat 1)) [] Ex.fresh
  = (Ok [Ex.block 64; Ex.block 16; Ex.block 128; Ex.block 32], Ex.fresh).
Proof.
  apply (@prune_configs_default_top_k 3 (Ex.ranked (TopKFloat 1)) [] Ex.fresh).
  - reflexivity.
  - simpl. lia.
Defined.

Lemma insert_by_perm {A} (key : A -> Z) x (l : list A) :
  Permutation (insert_by key x l) (x :: l).
Proof.
  induction l as [|y l IH]; simpl; [reflexivity|].
  destruct (key x <=? key y)%Z; [reflexivity|].
  rewrite IH. apply perm_swap.
Qed.

Lemma sorted_by_perm {A} (key : A -> Z) (l : list A) :
  Permutation (sorted_by key l) l.
Proof.
  unfold sorted_by. induction l as [|x l IH]; simpl; [reflexivity|].
  rewrite insert_by_perm. now constructor.
Qed.

Lemma insert_by_sorted {A} (key : A -> Z) x (l : list A) :
  StronglySorted (fun a b => (key a <= key b)%Z) l ->
  StronglySorted (fun a b => (key a <= key b)%Z) (insert_by key x l).
Proof.
  induction 1 as [|y l Hs IH Hy]; simpl.
  - repeat constructor.
  - destruct (Z.leb_spec (key x) (key y)).
    + constructor; [now constructor|]. constructor; [assumption|].
      eapply Forall_impl; [|exact Hy]. simpl. intros; lia.
    + constructor; [assumption|].
      rewrite (insert_by_perm key x l).
      constructor; [lia|assumption].
Qed.

Lemma sorted_by_sorted {A} (key : A -> Z) (l : list A) :
  StronglySorted (fun a b => (key a <= key b)%Z) (sorted_by key l).
Proof.
  unfold sorted_by. induction l as [|x l IH]; simpl; [constructor|].
  now apply insert_by_sorted.
Qed.

Lemma StronglySorted_map {A B} (R : A -> A -> Prop) (R' : B -> B -> Prop)
      (f : A -> B) (l : list A) :
  (forall x y, In x l -> In y l -> R x y -> R' (f x) (f y)) ->
  StronglySorted R l -> StronglySorted R' (map f l).
Proof.
  intros H Hs. induction Hs as [|x l Hs IH Hx]; simpl; [constructor|].
  constructor.
  - apply IH. intros a b Ha Hb. apply H; now right.
  - apply Forall_map. rewrite Forall_forall in *. intros y Hy.
    apply H; [now left|now right|now apply Hx].
Qed.

Lemma StronglySorted_app {A} (R : A -> A -> Prop) (a b : list A) :
  StronglySorted R (a ++ b) ->
  StronglySorted R a /\ forall x y, In x a -> In y b -> R x y.
Proof.
  induction a as [|x a IH]; simpl; intro H.
  - split; [constructor|intros ? ? []].
  - inversion H as [|? ? Hs Hx]; subst. destruct (IH Hs) as [Ha Hc]. split.
    + constructor; [assumption|]. apply Forall_app in Hx. tauto.
    + intros x' y [<-|Hx'] Hy; [|now apply Hc].
      rewrite Forall_forall in Hx. apply Hx. apply in_or_app. now right.
Qed.

Lemma res_map_estimates v model n kwargs (l : list Config.t) est :
  res_map (fun config => match perf_model_kwargs v n kwargs config with
                         | Ok kw => Ok (config, model kw)
                         | Raise e => Raise e
                         end) l = Ok est ->
  est = map (fun c => (c, estimate v model n kwargs c)) l.
Proof.
  revert est. induction l as [|c l IH]; intro est; simpl.
  - now intros [= <-].
  - unfold estimate at 1.
    destruct (perf_model_kwargs v n kwargs c) as [kw|e]; [|discriminate].
    destruct (res_map _ l) as [ys|e]; [|discriminate].
    intros [= <-]. f_equal. now apply IH.
Qed.

(** X8. The performance model ranks the candidates when there are more of
    them than an integer [top_k]: [prune_configs] then returns exactly
    [top_k] of the candidates, none twice, in ascending order of predicted
    cost, and no candidate it drops is predicted cheaper than one it
    keeps. *)
Theorem prune_configs_keeps_the_cheapest :
  forall v self kwargs s model k n pruned,
    perf_model self = Some model ->
    configs_top_k self = TopKInt k ->
    (0 <= k < Z.of_nat (length (early_pruned self kwargs s)))%Z ->
    NoDup (early_pruned self kwargs s) ->
    nargs s = Some n ->
    fst (prune_configs v self kwargs s) = Ok pruned ->
    length pruned = Z.to_nat k
    /\ NoDup pruned
    /\ incl pruned (early_pruned self kwargs s)
    /\ StronglySorted
         (fun a b => (estimate v model n kwargs a <= estimate v model n kwargs b)%Z)
         pruned
    /\ forall kept dropped,
        In kept pruned -> In dropped (early_pruned self kwargs s) ->
        ~ In dropped pruned ->
        (estimate v model n kwargs kept <= estimate v model n kwargs dropped)%Z.
Proof.
  intros v self kwargs s model k n pruned Hm Hk0 Hrange Hnd Hn.
  assert (Hk : effective_top_k self = TopKInt k)
    by (unfold effective_top_k; now rewrite Hk0).
  unfold prune_configs, bind, get. fold (early_pruned self kwargs s).
  set (cands := early_pruned self kwargs s) in *.
  rewrite Hm, Hk.
  replace (exceeds (length cands) (TopKInt k)) with true
    by (symmetry; apply Z.ltb_lt; lia).
  unfold get_nargs, bind, get. rewrite Hn. unfold ret at 1. unfold lift.
  destruct (res_map _ cands) as [est|e] eqn:Hest; [|discriminate].
  apply res_map_estimates in Hest.
  assert (Hkeys : map fst est = cands).
  { rewrite Hest, map_map. simpl. apply map_id. }
  rewrite (@dict_of_distinct_keys _ _ _ config_eqb_eq) by now rewrite Hkeys.
  unfold slice_to. replace (0 <=? k)%Z with true by (symmetry; apply Z.leb_le; lia).
  unfold ret. simpl. intros [= <-].
  set (ranked := map fst (sorted_by snd est)).
  assert (Hperm : Permutation ranked cands).
  { unfold ranked. rewrite <- Hkeys. apply Permutation_map, sorted_by_perm. }
  assert (Hsorted : StronglySorted
            (fun a b => (estimate v model n kwargs a
                         <= estimate v model n kwargs b)%Z) ranked).
  { unfold ranked. eapply StronglySorted_map; [|apply sorted_by_sorted].
    assert (Hsnd : forall p, In p (sorted_by snd est) ->
                     snd p = estimate v model n kwargs (fst p)).
    { intros p Hp. apply (Permutation_in _ (sorted_by_perm snd est)) in Hp.
      rewrite Hest in Hp. apply in_map_iff in Hp as (c & <- & _). reflexivity. }
    intros p q Hp Hq. simpl. now rewrite (Hsnd p Hp), (Hsnd q Hq). }
  rewrite <- (firstn_skipn (Z.to_nat k) ranked) in Hsorted.
  apply StronglySorted_app in Hsorted as [Hfirst Hcross].
  repeat split.
  - rewrite length_firstn, (Permutation_length Hperm). lia.
  - rewrite <- (firstn_skipn (Z.to_nat k) ranked) in Hperm.
    apply Permutation_sym, (Permutation_NoDup (l := cands)) in Hperm;
      [|assumption].
    now apply NoDup_app_remove_r in Hperm.
  - intros c Hc. apply (Permutation_in _ Hperm).
    rewrite <- (firstn_skipn (Z.to_nat k) ranked). apply in_or_app. now left.
  - exact Hfirst.
  - intros kept dropped Hkept Hdropped Hnot. apply Hcross; [assumption|].
    apply (Permutation_in _ (Permutation_sym Hperm)) in Hdropped.
    rewrite <- (firstn_skipn (Z.to_nat k) ranked) in Hdropped.
    apply in_app_or in Hdropped as [H|H]; [contradiction|assumption].
Qed.

(** Two of four block sizes are kept: 16 and 32, in that order. *)
Lemma prune_configs_keeps_the_cheapest_witness :
  length [Ex.block 16; Ex.block 32] = Z.to_nat 2
  /\ NoDup [Ex.block 16; Ex.block 32]
  /\ incl [Ex.block 16; Ex.block 32]
        (early_pruned (Ex.ranked (TopKInt 2)) []
           (entered (Ex.ranked (TopKInt 2)) [Ex.x; VInt 100] Ex.fresh))
  /\ StronglySorted
       (fun a b =>
          (estimate 3 Ex.block_cost
             (nargs_of (Ex.ranked (TopKInt 2)) [Ex.x; VInt 100]) [] a
           <= estimate 3 Ex.block_cost
                (nargs_of (Ex.ranked (TopKInt 2)) [Ex.x; VInt 100]) [] b)%Z)
       [Ex.block 16; Ex.block 32]
  /\ forall kept dropped,
      In kept [Ex.block 16; Ex.block 32] ->
      In dropped
        (early_pruned (Ex.ranked (TopKInt 2)) []
           (entered (Ex.ranked (TopKInt 2)) [Ex.x; VInt 100] Ex.fresh)) ->
      ~ In dropped [Ex.block 16; Ex.block 32] ->
      (estimate 3 Ex.block_cost
         (nargs_of (Ex.ranked (TopKInt 2)) [Ex.x; VInt 100]) [] kept
       <= estimate 3 Ex.block_cost
            (nargs_of (Ex.ranked (TopKInt 2)) [Ex.x; VInt 100]) [] dropped)%Z.
Proof.
  apply (@prune_configs_keeps_the_cheapest 3 (Ex.ranked (TopKInt 2)) []
           (entered (Ex.ranked (TopKInt 2)) [Ex.x; VInt 100] Ex.fresh)
           Ex.block_cost 2%Z
           (nargs_of (Ex.ranked (TopKInt 2)) [Ex.x; VInt 100])
           [Ex.block 16; Ex.block 32]).
  - reflexivity.
  - reflexivity.
  - simpl. lia.
  - repeat constructor; simpl; intuition discriminate.
  - reflexivity.
  - reflexivity.
Defined.

(** X9. A fractional [top_k] above 1.0 is not converted to a count.  In a
    call ([nargs] is set) with more candidates than that, [prune_configs]
    fails with a [TypeError]: the one of a slice bound that is no integer,
    unless the keyword arguments of the performance model collide, which is
    a [TypeError] before the slice. *)
Theorem prune_configs_fractional_top_k_above_one :
  forall v self kwargs s model q n,
    perf_model self = Some model ->
    configs_top_k self = TopKFloat q ->
    (1 < q)%Q ->
    (q < inject_Z (Z.of_nat (length (early_pruned self kwargs s))))%Q ->
    nargs s = Some n ->
    prune_configs v self kwargs s = (Raise TypeError, s).
Proof.
  intros v self kwargs s model q n Hm Hk H1 Hq Hn.
  unfold prune_configs, bind, get. fold (early_pruned self kwargs s).
  rewrite Hm. unfold effective_top_k. rewrite Hk.
  assert (E1 : Qle_bool q 1 = false).
  { destruct (Qle_bool q 1) eqn:E; [|reflexivity].
    apply Qle_bool_iff in E. exfalso. now apply (Qlt_not_le _ _ H1). }
  rewrite E1. unfold exceeds.
  assert (E2 : Qle_bool (inject_Z (Z.of_nat (length (early_pruned self kwargs s)))) q
               = false).
  { destruct (Qle_bool _ q) eqn:E; [|reflexivity].
    apply Qle_bool_iff in E. exfalso. now apply (Qlt_not_le _ _ Hq). }
  rewrite E2. cbn [negb]. cbv beta iota.
  unfold get_nargs, bind, get. rewrite Hn.
  unfold ret at 1. unfold lift.
  destruct (res_map _ _) as [est|e] eqn:Hest; [reflexivity|].
  f_equal. f_equal.
  revert Hest. generalize (early_pruned self kwargs s).
  induction l as [|c l IH]; simpl; [discriminate|].
  assert (Hs : forall ds e', splat ds = Raise e' -> e' = TypeError).
  { induction ds as [|d ds IHd]; simpl; [discriminate|]. intro e'.
    destruct (splat ds) as [r|e0].
    - destruct (existsb _ _); [now intros [= <-]|discriminate].
    - intros [= <-]. now apply IHd. }
  destruct (perf_model_kwargs v n kwargs c) as [kw|e0] eqn:Ekw.
  - destruct (res_map _ l) as [ys|e1]; [discriminate|].
    intros [= <-]. now apply IH.
  - intros [= <-]. unfold perf_model_kwargs in Ekw.
    destruct (3 <=? v)%Z; eapply Hs; eassumption.
Qed.

(** In a call [kernel(x, 100)] the keyword arguments of the model do not
    collide: the model is evaluated for the four candidates, and the slice
    [[:2.5]] fails. *)
Lemma prune_configs_fractional_top_k_above_one_witness :
  res_map
    (fun config =>
       match perf_model_kwargs 3
               (nargs_of (Ex.ranked (TopKFloat (5 # 2)%Q)) [Ex.x; VInt 100])
               [] config with
       | Ok kw => Ok (config, Ex.block_cost kw)
       | Raise e => Raise e
       end)
    [Ex.block 64; Ex.block 16; Ex.block 128; Ex.block 32]
  = Ok [(Ex.block 64, 64%Z); (Ex.block 16, 16%Z); (Ex.block 128, 128%Z);
        (Ex.block 32, 32%Z)]
  /\ prune_configs 3 (Ex.ranked (TopKFloat (5 # 2)%Q)) []
       (entered (Ex.ranked (TopKFloat (5 # 2)%Q)) [Ex.x; VInt 100] Ex.fresh)
     = (Raise TypeError,
        entered (Ex.ranked (TopKFloat (5 # 2)%Q)) [Ex.x; VInt 100] Ex.fresh).
Proof.
  split; [reflexivity|].
  apply (@prune_configs_fractional_top_k_above_one 3
           (Ex.ranked (TopKFloat (5 # 2)%Q)) []
           (entered (Ex.ranked (TopKFloat (5 # 2)%Q)) [Ex.x; VInt 100] Ex.fresh)
           Ex.block_cost (5 # 2)%Q
           (nargs_of (Ex.ranked (TopKFloat (5 # 2)%Q)) [Ex.x; VInt 100]));
    reflexivity.
Defined.

(** ** Keyword arguments given twice *)

Section DictUpdate.
Variables K V : Type.
Variable eqb : K -> K -> bool.
Hypothesis eqb_eq : forall a b, eqb a b = true <-> a = b.

Lemma dict_mem_in (d : dict K V) k :
  dict_mem eqb d k = true <-> In k (dict_keys d).
Proof.
  unfold dict_mem, dict_keys. induction d as [|[k0 v0] d IH]; simpl.
  - split; [discriminate|intros []].
  - destruct (eqb k k0) eqn:E.
    + apply eqb_eq in E. subst. split; auto.
    + rewrite IH. split; [auto|]. intros [->|H]; [|assumption].
      rewrite (proj2 (eqb_eq k k) eq_refl) in E. discriminate.
Qed.

(** The keys of [{**d1, **d2}]: those of [d1], then the new ones of [d2]. *)
Lemma dict_update_mem (d2 : list (K * V)) :
  forall d1 k,
    dict_mem eqb (dict_update eqb d1 d2) k = true
    <-> dict_mem eqb d1 k = true \/ In k (map fst d2).
Proof.
  unfold dict_update. induction d2 as [|[k0 v0] d2 IH]; intros d1 k; simpl.
  - tauto.
  - rewrite IH. rewrite !dict_mem_in, dict_set_keys.
    destruct (dict_mem eqb d1 k0) eqn:E.
    + apply dict_mem_in in E. split; [tauto|].
      intros [H|[<-|H]]; auto.
    + rewrite in_app_iff. simpl. split; [|tauto].
      intros [[H|[H|[]]]|H]; auto.
Qed.
End DictUpdate.

(** Unpacking one dictionary never fails. *)
Lemma splat_one d : splat [d] = Ok (d ++ []).
Proof.
  simpl. replace (existsb (kw_mem []) (dict_keys d)) with false; [reflexivity|].
  induction (dict_keys d); simpl; auto.
Qed.

Lemma splat_raises ds e : splat ds = Raise e -> e = TypeError.
Proof.
  revert e. induction ds as [|d ds IH]; simpl; [discriminate|]. intro e.
  destruct (splat ds) as [r|e0].
  - destruct (existsb _ _); [now intros [= <-]|discriminate].
  - intros [= <-]. now apply IH.
Qed.

(** A keyword of [d1] that [d2] has too. *)
Lemma splat_collision (d1 d2 : kwdict) k :
  In k (dict_keys d1) -> kw_mem d2 k = true -> splat [d1; d2] = Raise TypeError.
Proof.
  intros H1 H2. change (splat [d1; d2]) with
    (match splat [d2] with
     | Raise e => Raise e
     | Ok r => if existsb (kw_mem r) (dict_keys d1) then Raise TypeError
               else Ok (d1 ++ r)
     end).
  rewrite splat_one, app_nil_r.
  replace (existsb (kw_mem d2) (dict_keys d1)) with true; [reflexivity|].
  symmetry. apply existsb_exists. eauto.
Qed.

Lemma all_kwargs_mem_kwargs config k :
  kw_mem (Config.kwargs config) k = true ->
  kw_mem (Config.all_kwargs config) k = true.
Proof.
  intro H. unfold Config.all_kwargs, kw_mem, kw_update.
  apply (@dict_update_mem _ _ _ String.eqb_eq). now left.
Qed.

(** The launch parameters that are set are keys of [all_kwargs]. *)
Lemma all_kwargs_launch_parameter config :
  Config.num_warps config <> None \/ Config.num_ctas config <> None
  \/ Config.num_stages config <> None ->
  exists k,
    In k (dict_keys (launch_keywords config))
    /\ kw_mem (Config.all_kwargs config) k = true.
Proof.
  intro H. unfold Config.all_kwargs, kw_mem, kw_update.
  destruct H as [H|[H|H]];
    [exists "num_warps"|exists "num_ctas"|exists "num_stages"];
    (split; [simpl; tauto|]);
    apply (@dict_update_mem _ _ _ String.eqb_eq); right; simpl;
    destruct (Config.num_warps config), (Config.num_ctas config),
      (Config.num_stages config), (Config.maxnreg config); simpl;
    try congruence; tauto.
Qed.

(** ** [_bench] with a triton older than 3 *)

(** Computations that raise, whatever the state. *)
Definition fails {A} (m : M A) : Prop := forall s, exists e, fst (m s) = Raise e.

Lemma fails_bind_l {A B} (m : M A) (f : A -> M B) : fails m -> fails (bind m f).
Proof.
  intros H s. unfold bind. destruct (H s) as [e He].
  destruct (m s) as [[a|e'] s1]; simpl in *; [discriminate|eauto].
Qed.

Lemma fails_bind_r {A B} (m : M A) (f : A -> M B) :
  (forall a, fails (f a)) -> fails (bind m f).
Proof.
  intros H s. unfold bind. destruct (m s) as [[a|e'] s1]; simpl; [apply H|eauto].
Qed.

Section Triton2.
Variable v : Z.
Variable w : World.
Variable self : t.
Variable args : list pyval.
Variable config : Config.t.
Variables current full_nargs : kwdict.

Hypothesis old : (v < 3)%Z.
Hypothesis twice : splat [launch_keywords config; current] = Raise TypeError.

Lemma kernel_call_fails :
  fails (kernel_call v w self args config current full_nargs).
Proof.
  unfold kernel_call. apply fails_bind_r. intros _. apply fails_bind_r.
  intros _. apply fails_bind_l.
  replace (3 <=? v)%Z with false by (symmetry; apply Z.leb_gt; exact old).
  rewrite twice. intro s. exists TypeError. reflexivity.
Qed.

Lemma kernel_call_silent :
  stable (frame (fun _ => False))
    (kernel_call v w self args config current full_nargs).
Proof.
  unfold kernel_call.
  apply (@stable_bind _ (@frame_trans _)); [apply frame_config_pre_hook|].
  intros _. apply (@stable_bind _ (@frame_trans _)); [apply frame_pre_hook|].
  intros _. apply (@stable_bind _ (@frame_trans _)); [|intros _; apply frame_post_hook].
  replace (3 <=? v)%Z with false by (symmetry; apply Z.leb_gt; exact old).
  rewrite twice. intro s. apply frame_refl.
Qed.

Lemma measure_fails : fails (measure v w self args config current full_nargs).
Proof.
  unfold measure.
  replace (3 <=? v)%Z with false by (symmetry; apply Z.leb_gt; exact old).
  unfold do_bench. apply fails_bind_l. simpl. apply fails_bind_l.
  apply kernel_call_fails.
Qed.

Lemma measure_silent :
  stable (frame (fun _ => False))
    (measure v w self args config current full_nargs).
Proof.
  unfold measure.
  replace (3 <=? v)%Z with false by (symmetry; apply Z.leb_gt; exact old).
  unfold do_bench.
  apply (@stable_bind _ (@frame_trans _)).
  - apply (@stable_repeat_call _ (@frame_refl _) (@frame_trans _)).
    apply kernel_call_silent.
  - intros _. apply (@stable_bind _ (@frame_trans _));
      [apply (@stable_lift _ (@frame_refl _))|].
    intros [[? ?] ?]. apply (@stable_ret _ (@frame_refl _)).
Qed.
End Triton2.

(** X10. With a triton older than 3, [_bench] passes the launch parameters
    of the configuration twice, as explicit keywords and within [current]:
    for a configuration that sets one of [num_warps], [num_ctas] or
    [num_stages] the call of the kernel is a [TypeError] before the kernel
    runs.  So no trial ever launches the kernel, and [_bench] never returns a
    measurement: it raises, or returns the sentinel when a hook raised an
    error that it catches. *)
Theorem bench_before_triton_3_never_launches :
  forall v w self args config meta s,
    (v < 3)%Z ->
    Config.num_warps config <> None \/ Config.num_ctas config <> None
      \/ Config.num_stages config <> None ->
    trace (snd (_bench v w self args config meta s)) = trace s
    /\ forall t, fst (_bench v w self args config meta s) = Ok t ->
                 t = Quantiles Inf Inf Inf.
Proof.
  intros v w self args config meta s Hv Hset.
  assert (Htwice : splat [launch_keywords config;
                          kw_update meta (Config.all_kwargs config)]
                   = Raise TypeError).
  { destruct (all_kwargs_launch_parameter config Hset) as (k & Hk1 & Hk2).
    apply splat_collision with (k := k); [assumption|].
    unfold kw_mem, kw_update. apply (@dict_update_mem _ _ _ String.eqb_eq). right.
    apply (@dict_mem_in _ _ _ String.eqb_eq) in Hk2. exact Hk2. }
  destruct (_bench v w self args config meta s) as [r s'] eqn:E. simpl.
  revert E. unfold _bench.
  destruct (keys_inter _ _ _);
    [|intros [= <- <-]; split; [reflexivity|discriminate]].
  unfold bind at 1. unfold get_nargs, bind, get.
  destruct (nargs s) as [n|];
    [|intros [= <- <-]; split; [reflexivity|discriminate]].
  unfold ret at 1. unfold try_except.
  match goal with
  | |- context [measure ?a ?b ?c ?d ?f ?g ?h s] =>
      pose proof (@measure_fails a b c d f g h Hv Htwice s) as [e He];
      pose proof (frame_no_event
                    (@measure_silent a b c d f g h Hv Htwice s)) as Ht;
      destruct (measure a b c d f g h s) as [[t|e'] s1]
  end; simpl in He, Ht; [discriminate|].
  unfold bench_handler.
  replace (3 <=? v)%Z with false by (symmetry; apply Z.leb_gt; exact Hv).
  destruct e'; unfold ret, raise; intros [= <- <-];
    (split; [assumption|]); intros t Et; try discriminate;
    now injection Et as <-.
Qed.

(** With the hooks of the examples the outcome is the [TypeError]. *)
Lemma bench_before_triton_3_never_launches_witness :
  _bench 2 Ex.ok_world Ex.two [Ex.x; VInt 100] Ex.c16 []
    (entered Ex.two [Ex.x; VInt 100] Ex.fresh)
  = (Raise TypeError, entered Ex.two [Ex.x; VInt 100] Ex.fresh)
  /\ (trace (snd (_bench 2 Ex.ok_world Ex.two [Ex.x; VInt 100] Ex.c16 []
                    (entered Ex.two [Ex.x; VInt 100] Ex.fresh)))
      = trace (entered Ex.two [Ex.x; VInt 100] Ex.fresh)
      /\ forall t,
          fst (_bench 2 Ex.ok_world Ex.two [Ex.x; VInt 100] Ex.c16 []
                 (entered Ex.two [Ex.x; VInt 100] Ex.fresh)) = Ok t ->
          t = Quantiles Inf Inf Inf).
Proof.
  split; [reflexivity|].
  apply (@bench_before_triton_3_never_launches 2 Ex.ok_world Ex.two
           [Ex.x; VInt 100] Ex.c16 []
           (entered Ex.two [Ex.x; VInt 100] Ex.fresh)).
  - lia.
  - left. discriminate.
Defined.

(** ** The production dispatch *)

Lemma splat_tail d ds e : splat ds = Raise e -> splat (d :: ds) = Raise e.
Proof. intro H. simpl. now rewrite H. Qed.

Lemma keys_inter_witness (d1 d2 : kwdict) :
  keys_inter String.eqb d1 d2 <> [] ->
  exists k, In k (dict_keys d1) /\ kw_mem d2 k = true.
Proof.
  unfold keys_inter. intro H.
  destruct (filter _ _) as [|k l] eqn:E; [congruence|].
  assert (Hin : In k (filter (dict_mem String.eqb d2) (dict_keys d1)))
    by (rewrite E; now left).
  apply filter_In in Hin. exists k. exact Hin.
Qed.

(** A meta-parameter given by the call and by the configuration reaches the
    kernel twice. *)
Lemma launch_conflict v w args kwargs config s n :
  nargs s = Some n ->
  Config.pre_hook config = None ->
  keys_inter String.eqb kwargs (Config.kwargs config) <> [] ->
  launch v w args kwargs config s = (Raise TypeError, s).
Proof.
  intros Hn Hhook Hc. apply keys_inter_witness in Hc as (k & Hk1 & Hk2).
  unfold launch. unfold bind at 1. unfold get_nargs, bind at 1, get.
  rewrite Hn. unfold ret at 1. unfold bind at 1.
  unfold call_config_pre_hook. rewrite Hhook. unfold ret at 1.
  unfold bind at 1.
  assert (H3 : splat [kwargs; Config.all_kwargs config] = Raise TypeError).
  { apply splat_collision with (k := k); [assumption|].
    now apply all_kwargs_mem_kwargs. }
  assert (H2 : splat [launch_keywords config; kwargs; Config.kwargs config]
               = Raise TypeError).
  { apply splat_tail. now apply splat_collision with (k := k). }
  destruct (3 <=? v)%Z;
    match goal with
    | |- context [call_fn_run w _ args ?k] =>
        replace k with (@Raise kwdict TypeError) by (symmetry; assumption)
    end; reflexivity.
Qed.

Lemma resolve_single v w self args kwargs s config :
  configs self = [config] ->
  resolve v w self args kwargs s
  = (Ok config, set_best_config (Some config) (entered self args s)).
Proof.
  intro H. unfold resolve, bind, modify, ret. rewrite H. reflexivity.
Qed.

(** X11. An engine with one configuration does not benchmark, so the check
    for conflicting meta-parameters of [_bench] is never made: a call that
    gives a meta-parameter the configuration sets fails with the [TypeError] of
    a keyword argument given twice, before the kernel is launched. *)
Theorem single_config_conflict_is_a_type_error :
  forall v w self args kwargs s config,
    configs self = [config] ->
    Config.pre_hook config = None ->
    keys_inter String.eqb kwargs (Config.kwargs config) <> [] ->
    exists s',
      run v w self args kwargs s = (Raise TypeError, s')
      /\ trace s' = trace s /\ hp s' = hp s /\ cache s' = cache s
      /\ storage s' = storage s.
Proof.
  intros v w self args kwargs s config Hc Hhook Hconf.
  unfold run. unfold bind. rewrite (@resolve_single v w _ _ _ _ _ Hc).
  erewrite launch_conflict; [|reflexivity|assumption|assumption].
  eexists. split; [reflexivity|]. now repeat split.
Qed.

Lemma single_config_conflict_is_a_type_error_witness :
  exists s',
    run 3 Ex.ok_world (Ex.engine [Ex.c16] [] []) [Ex.x; VInt 100]
      [("BLOCK", VInt 64)] Ex.fresh
    = (Raise TypeError, s')
    /\ trace s' = trace Ex.fresh /\ hp s' = hp Ex.fresh
    /\ cache s' = cache Ex.fresh /\ storage s' = storage Ex.fresh.
Proof.
  apply (@single_config_conflict_is_a_type_error 3 Ex.ok_world
           (Ex.engine [Ex.c16] [] []) [Ex.x; VInt 100] [("BLOCK", VInt 64)]
           Ex.fresh Ex.c16).
  - reflexivity.
  - reflexivity.
  - discriminate.
Defined.

Lemma launch_best_config v w args kwargs config s :
  best_config (snd (launch v w args kwargs config s)) = best_config s.
Proof.
  set (R := fun s s' : state => best_config s' = best_config s).
  assert (Rr : forall s, R s s) by reflexivity.
  assert (Rt : forall a b c, R a b -> R b c -> R a c)
    by (unfold R; intros; congruence).
  assert (Rx : forall A (f : heap -> heap * res A), stable R (external f)).
  { intros A f. apply (@stable_external R). reflexivity. }
  enough (H : stable R (launch v w args kwargs config)) by apply H.
  unfold launch.
  apply (@stable_bind _ Rt).
  { unfold get_nargs. apply (@stable_bind _ Rt); [apply (@stable_get _ Rr)|].
    intro s1. destruct (nargs s1);
      [apply (@stable_ret _ Rr)|apply (@stable_raise _ Rr)]. }
  intro n. apply (@stable_bind _ Rt).
  { unfold call_config_pre_hook.
    destruct (Config.pre_hook config); [apply Rx|apply (@stable_ret _ Rr)]. }
  intros _. apply (@stable_bind _ Rt).
  { assert (Hrun : forall kw,
               stable R (call_fn_run w (Dispatch config) args kw)).
    { intro kw. unfold call_fn_run.
      apply (@stable_bind _ Rt); [apply (@stable_lift _ Rr)|intro kw'].
      apply (@stable_bind _ Rt); [|intros _; apply Rx].
      apply (@stable_modify R). reflexivity. }
    destruct (3 <=? v)%Z; apply Hrun. }
  intro r. apply (@stable_bind _ Rt); [|intros _; apply (@stable_ret _ Rr)].
  apply (@stable_modify R). reflexivity.
Qed.

(** A call that resolves its configuration without tuning. *)
Lemma run_without_tuning v w self args kwargs s config :
  resolve v w self args kwargs s
  = (Ok config, set_best_config (Some config) (entered self args s)) ->
  cache (snd (run v w self args kwargs s)) = cache s
  /\ _timings (snd (run v w self args kwargs s)) = _timings s
  /\ storage (snd (run v w self args kwargs s)) = storage s
  /\ best_config (snd (run v w self args kwargs s)) = Some config
  /\ (trace (snd (run v w self args kwargs s)) = trace s
      \/ trace (snd (run v w self args kwargs s))
         = trace s ++ [Dispatch config]).
Proof.
  intro Hr. unfold run, bind. rewrite Hr.
  set (s1 := set_best_config (Some config) (entered self args s)).
  destruct (@frame_launch (fun _ => True) v w args kwargs config I s1)
    as (H1 & H2 & H3 & _).
  destruct (launch_trace v w args kwargs config s1) as (evs & Ht & Hevs).
  pose proof (launch_best_config v w args kwargs config s1) as Hb.
  repeat split; try assumption.
  rewrite Ht. destruct Hevs as [-> | ->]; [left; apply app_nil_r|now right].
Qed.

(** X12. An engine with one configuration never tunes: whatever the
    arguments, and whether or not the call succeeds, the cache, the timing
    table and the storage are left alone, the configuration becomes
    [best_config], and the kernel is launched at most once, with that
    configuration. *)
Theorem single_config_never_tunes :
  forall v w self args kwargs s config,
    configs self = [config] ->
    cache (snd (run v w self args kwargs s)) = cache s
    /\ _timings (snd (run v w self args kwargs s)) = _timings s
    /\ storage (snd (run v w self args kwargs s)) = storage s
    /\ best_config (snd (run v w self args kwargs s)) = Some config
    /\ (trace (snd (run v w self args kwargs s)) = trace s
        \/ trace (snd (run v w self args kwargs s))
           = trace s ++ [Dispatch config]).
Proof.
  intros v w self args kwargs s config Hc.
  apply run_without_tuning. now apply resolve_single.
Qed.

Lemma single_config_never_tunes_witness :
  cache (snd (run 3 Ex.ok_world (Ex.engine [Ex.c16] [] []) [Ex.x; VInt 100] []
                Ex.fresh)) = cache Ex.fresh
  /\ _timings (snd (run 3 Ex.ok_world (Ex.engine [Ex.c16] [] [])
                      [Ex.x; VInt 100] [] Ex.fresh)) = _timings Ex.fresh
  /\ storage (snd (run 3 Ex.ok_world (Ex.engine [Ex.c16] [] [])
                     [Ex.x; VInt 100] [] Ex.fresh)) = storage Ex.fresh
  /\ best_config (snd (run 3 Ex.ok_world (Ex.engine [Ex.c16] [] [])
                         [Ex.x; VInt 100] [] Ex.fresh)) = Some Ex.c16
  /\ (trace (snd (run 3 Ex.ok_world (Ex.engine [Ex.c16] [] [])
                    [Ex.x; VInt 100] [] Ex.fresh)) = trace Ex.fresh
      \/ trace (snd (run 3 Ex.ok_world (Ex.engine [Ex.c16] [] [])
                       [Ex.x; VInt 100] [] Ex.fresh))
         = trace Ex.fresh ++ [Dispatch Ex.c16]).
Proof.
  apply (@single_config_never_tunes 3 Ex.ok_world (Ex.engine [Ex.c16] [] [])
           [Ex.x; VInt 100] [] Ex.fresh Ex.c16).
  reflexivity.
Defined.

(** X13. A call whose key is in the cache changes neither the cache nor
    the timing table and reports nothing to the storage; the cached
    configuration becomes [best_config] and the kernel is launched at most
    once, with it. *)
Theorem cache_hit_changes_nothing :
  forall v w self args kwargs s key config,
    1 < length (configs self) ->
    derive_key self (nargs_of self args) kwargs = Ok key ->
    dict_get key_eqb (cache s) key = Some config ->
    cache (snd (run v w self args kwargs s)) = cache s
    /\ _timings (snd (run v w self args kwargs s)) = _timings s
    /\ storage (snd (run v w self args kwargs s)) = storage s
    /\ best_config (snd (run v w self args kwargs s)) = Some config
    /\ (trace (snd (run v w self args kwargs s)) = trace s
        \/ trace (snd (run v w self args kwargs s))
           = trace s ++ [Dispatch config]).
Proof.
  intros v w self args kwargs s key config Hlen Hkey Hget.
  apply run_without_tuning. eapply resolve_hit; eassumption.
Qed.

(** The cache restored from the storage holds [c32] for the key. *)
Lemma cache_hit_changes_nothing_witness :
  cache (snd (run 3 Ex.ok_world Ex.two [Ex.x; VInt 100] []
                (init_state [(Ex.key100, Ex.c32)] Ex.h7)))
  = [(Ex.key100, Ex.c32)]
  /\ _timings (snd (run 3 Ex.ok_world Ex.two [Ex.x; VInt 100] []
                      (init_state [(Ex.key100, Ex.c32)] Ex.h7))) = []
  /\ storage (snd (run 3 Ex.ok_world Ex.two [Ex.x; VInt 100] []
                     (init_state [(Ex.key100, Ex.c32)] Ex.h7))) = []
  /\ best_config (snd (run 3 Ex.ok_world Ex.two [Ex.x; VInt 100] []
                         (init_state [(Ex.key100, Ex.c32)] Ex.h7)))
     = Some Ex.c32
  /\ (trace (snd (run 3 Ex.ok_world Ex.two [Ex.x; VInt 100] []
                    (init_state [(Ex.key100, Ex.c32)] Ex.h7))) = []
      \/ trace (snd (run 3 Ex.ok_world Ex.two [Ex.x; VInt 100] []
                       (init_state [(Ex.key100, Ex.c32)] Ex.h7)))
         = [] ++ [Dispatch Ex.c32]).
Proof.
  apply (@cache_hit_changes_nothing 3 Ex.ok_world Ex.two [Ex.x; VInt 100] []
           (init_state [(Ex.key100, Ex.c32)] Ex.h7) Ex.key100 Ex.c32).
  - simpl. lia.
  - reflexivity.
  - reflexivity.
Defined.

(** A production dispatch that returns has launched the kernel once. *)
Lemma launch_ok v w args kwargs config s r s' :
  launch v w args kwargs config s = (Ok r, s') ->
  trace s' = trace s ++ [Dispatch config] /\ nargs s' = None.
Proof.
  unfold launch. unfold bind at 1. unfold get_nargs, bind at 1, get.
  destruct (nargs s) as [n|]; [|discriminate]. unfold ret at 1.
  unfold bind at 1.
  match goal with |- context [call_config_pre_hook w config ?fn s] =>
    pose proof (frame_no_event
                  (frame_config_pre_hook (fun _ => False) w config fn s)) as H1;
    destruct (call_config_pre_hook w config fn s) as [[[]|e] s1]
  end; [|discriminate]. simpl in H1.
  assert (Hrun : forall kw,
             (r <- call_fn_run w (Dispatch config) args kw;;
              modify (set_nargs None);; ret r)%monad s1 = (Ok r, s') ->
             trace s' = trace s1 ++ [Dispatch config] /\ nargs s' = None).
  { intro kw. unfold call_fn_run, bind, lift, modify, external, ret.
    destruct kw as [kw|e]; [|discriminate]. simpl.
    destruct (fn_run w args kw (hp s1)) as [h [r0|e]]; [|discriminate].
    intros [= _ <-]. split; reflexivity. }
  rewrite <- H1. destruct (3 <=? v)%Z; apply Hrun.
Qed.

(** ** A call that tunes *)

Lemma benchmark_keys_from v w self args kwargs pruned :
  forall timings0 s timings s',
    benchmark v w self args kwargs pruned timings0 s = (Ok timings, s') ->
    forall c, dict_mem Config.eqb timings c = true ->
              In c pruned \/ dict_mem Config.eqb timings0 c = true.
Proof.
  induction pruned as [|config rest IH]; intros timings0 s timings s'; simpl.
  - unfold ret. intros [= <- _] c H. now right.
  - unfold bind at 1.
    destruct (_bench v w self args config kwargs s) as [[t0|e] s1];
      [|discriminate].
    intros H c Hc. destruct (IH _ _ _ _ H c Hc) as [Hin|Hin]; [auto|].
    apply (@dict_mem_in _ _ _ config_eqb_eq) in Hin.
    rewrite dict_set_keys in Hin.
    destruct (dict_mem Config.eqb timings0 config) eqn:E.
    + right. now apply (@dict_mem_in _ _ _ config_eqb_eq).
    + apply in_app_or in Hin as [Hin|[<-|[]]]; [|auto].
      right. now apply (@dict_mem_in _ _ _ config_eqb_eq).
Qed.

(** What a [tune] that returns has done. *)
Lemma tune_ok_steps v w self args kwargs key s config s' :
  tune v w self args kwargs key s = (Ok config, s') ->
  exists pruned timings s2 t,
    fst (prune_configs v self kwargs s) = Ok pruned
    /\ benchmark v w self args kwargs pruned [] s = (Ok timings, s2)
    /\ py_min timings = Ok config
    /\ dict_get Config.eqb timings config = Some t
    /\ all_failed self t = Ok false
    /\ pre_hook self args true
         (set_configs_timings timings
            (set_timings (fun d => dict_set key_eqb d key t)
               (set_cache (fun c => dict_set key_eqb c key config) s2)))
       = (Ok tt, s').
Proof.
  destruct (fst (prune_configs v self kwargs s)) as [pruned|e] eqn:Hp.
  - destruct (benchmark v w self args kwargs pruned [] s) as [[timings|e] s2] eqn:Hb.
    + destruct (py_min timings) as [winner|e] eqn:Hm.
      * destruct (@tune_selected v w self args kwargs key _ _ _ _ _ Hp Hb Hm)
          as (t & Ht & ->).
        destruct (all_failed self t) as [[|]|e] eqn:Hf; try discriminate.
        match goal with |- context [pre_hook self args true ?st] =>
          destruct (pre_hook self args true st) as [[[]|e] s4] eqn:E
        end; [|discriminate].
        intros [= <- <-]. exists pruned, timings, s2, t. auto 10.
      * unfold tune. unfold bind at 1.
        rewrite prune_configs_pair, Hp. unfold bind at 1. rewrite Hb.
        unfold bind at 1. unfold lift at 1. rewrite Hm. discriminate.
    + unfold tune. unfold bind at 1.
      rewrite prune_configs_pair, Hp. unfold bind at 1. rewrite Hb. discriminate.
  - unfold tune. unfold bind at 1.
    rewrite prune_configs_pair, Hp. discriminate.
Qed.

Lemma pre_hook_configs_timings self args reset_only s :
  configs_timings (snd (pre_hook self args reset_only s)) = configs_timings s.
Proof.
  set (R := fun s s' : state => configs_timings s' = configs_timings s).
  assert (Rr : forall s, R s s) by reflexivity.
  assert (Rt : forall a b c, R a b -> R b c -> R a c)
    by (unfold R; intros; congruence).
  assert (Rx : forall A (f : heap -> heap * res A), stable R (external f)).
  { intros A f. apply (@stable_external R). reflexivity. }
  assert (Rarg : forall i, stable R (tensor_arg args i)).
  { intros i s0. unfold tensor_arg.
    destruct (nth_error args i) as [[]|]; reflexivity. }
  enough (H : stable R (pre_hook self args reset_only)) by apply H.
  unfold pre_hook. destruct (custom_pre_hook self); [apply Rx|].
  destruct (_ || _); [|apply (@stable_ret _ Rr)].
  unfold _pre_hook. apply (@stable_bind _ Rt).
  - apply (@stable_for_each _ Rr Rt). intro i. unfold zero_.
    apply (@stable_bind _ Rt); [apply Rarg|intro l].
    apply (@stable_modify R). reflexivity.
  - intros _. destruct reset_only; [apply (@stable_ret _ Rr)|].
    apply (@stable_bind _ Rt).
    + apply (@stable_comprehension _ Rr Rt). intro i. unfold clone.
      apply (@stable_bind _ Rt); [apply Rarg|intro l].
      apply (@stable_bind _ Rt); [apply (@stable_get _ Rr)|intro s0].
      apply (@stable_ret _ Rr).
    + intro copies. apply (@stable_modify R). reflexivity.
Qed.

Lemma launch_configs_timings v w args kwargs config s :
  configs_timings (snd (launch v w args kwargs config s)) = configs_timings s.
Proof.
  set (R := fun s s' : state => configs_timings s' = configs_timings s).
  assert (Rr : forall s, R s s) by reflexivity.
  assert (Rt : forall a b c, R a b -> R b c -> R a c)
    by (unfold R; intros; congruence).
  assert (Rx : forall A (f : heap -> heap * res A), stable R (external f)).
  { intros A f. apply (@stable_external R). reflexivity. }
  enough (H : stable R (launch v w args kwargs config)) by apply H.
  unfold launch.
  apply (@stable_bind _ Rt).
  { unfold get_nargs. apply (@stable_bind _ Rt); [apply (@stable_get _ Rr)|].
    intro s1. destruct (nargs s1);
      [apply (@stable_ret _ Rr)|apply (@stable_raise _ Rr)]. }
  intro n. apply (@stable_bind _ Rt).
  { unfold call_config_pre_hook.
    destruct (Config.pre_hook config); [apply Rx|apply (@stable_ret _ Rr)]. }
  intros _. apply (@stable_bind _ Rt).
  { assert (Hrun : forall kw,
               stable R (call_fn_run w (Dispatch config) args kw)).
    { intro kw. unfold call_fn_run.
      apply (@stable_bind _ Rt); [apply (@stable_lift _ Rr)|intro kw'].
      apply (@stable_bind _ Rt); [|intros _; apply Rx].
      apply (@stable_modify R). reflexivity. }
    destruct (3 <=? v)%Z; apply Hrun. }
  intro r. apply (@stable_bind _ Rt); [|intros _; apply (@stable_ret _ Rr)].
  apply (@stable_modify R). reflexivity.
Qed.

(** A measurement that the check of the total failure lets through is
    finite, in an engine whose graph mode is what [__init__] allows. *)
Lemma not_all_failed_finite v self t :
  (use_cuda_graph self = true -> (3 <= v)%Z) ->
  bench_value v self t -> all_failed self t = Ok false -> finite t.
Proof.
  intros Hmode [[Hf|Hs] Hshape] Hall; [assumption|]. exfalso.
  subst t. unfold sentinel_of, failure_sentinel, all_failed in *.
  destruct (use_cuda_graph self).
  - assert (H3 : (3 <=? v)%Z = true) by (apply Z.leb_le; auto).
    rewrite H3 in Hall. discriminate.
  - destruct (3 <=? v)%Z; discriminate.
Qed.

(** X14. A call that misses the cache and returns has benchmarked the
    configurations that survived pruning and no other, selected with [min]
    a winner among them, whose measurement in the table of the pass is
    finite (not the failure sentinel), appended the winner to the cache
    under the key, recorded that measurement under the key in [_timings],
    kept the table of the pass as [configs_timings], reported the updated
    cache and timing table to the storage exactly once, and launched the
    kernel with the winner as the last thing it did. *)
Theorem successful_miss :
  forall v w self args kwargs s key r s',
    1 < length (configs self) ->
    derive_key self (nargs_of self args) kwargs = Ok key ->
    dict_mem key_eqb (cache s) key = false ->
    run v w self args kwargs s = (Ok r, s') ->
    exists winner t pruned timings s2 trials,
      fst (prune_configs v self kwargs (entered self args s)) = Ok pruned
      /\ benchmark v w self args kwargs pruned [] (entered self args s)
         = (Ok timings, s2)
      /\ py_min timings = Ok winner
      /\ dict_get Config.eqb timings winner = Some t
      /\ In winner pruned
      /\ all_failed self t = Ok false
      /\ ((use_cuda_graph self = true -> (3 <= v)%Z) -> finite t)
      /\ configs_timings s' = timings
      /\ cache s' = cache s ++ [(key, winner)]
      /\ _timings s' = dict_set key_eqb (_timings s) key t
      /\ storage s'
         = storage s ++ [mk_store_call (cache s') (configs_len self)
                           (_timings s') (rep_t self) (warmup_t self)]
      /\ best_config s' = Some winner
      /\ nargs s' = None
      /\ trace s' = trace s ++ trials ++ [Dispatch winner]
      /\ Forall (fun e => exists c, e = Trial c /\ In c pruned) trials.
Proof.
  intros v w self args kwargs s key r s' Hlen Hkey Hmiss.
  unfold run, bind.
  rewrite (@resolve_miss v w self args kwargs s key Hlen Hkey Hmiss).
  destruct (tune v w self args kwargs key (entered self args s))
    as [[winner|e] s1] eqn:Ht; [|discriminate].
  intro Hl.
  apply tune_ok_steps in Ht
    as (pruned & timings & s2 & t & Hp & Hb & Hm & Hget & Hf & Hpre).
  exists winner, t, pruned, timings, s2.
  (* the benchmarking pass *)
  pose proof (@frame_benchmark (fun e => exists c, e = Trial c /\ In c pruned)
                v w self args kwargs pruned []
                (fun c Hc => ex_intro _ c (conj eq_refl Hc))
                (entered self args s)) as Hfb.
  rewrite Hb in Hfb. simpl in Hfb.
  destruct Hfb as (Hc2 & Ht2 & Hs2 & trials & Htr2 & Htrials).
  exists trials.
  (* the reset after it *)
  match type of Hpre with pre_hook _ _ _ ?st = _ =>
    pose proof (frame_pre_hook (fun _ => False) self args true st) as Hfp;
    pose proof (pre_hook_configs_timings self args true st) as Hct1
  end.
  rewrite Hpre in Hfp, Hct1. simpl in Hfp, Hct1.
  pose proof (frame_no_event Hfp) as Htr1.
  destruct Hfp as (Hc1 & Ht1 & Hs1 & _). simpl in Hc1, Ht1, Hs1, Htr1.
  (* the dispatch *)
  match type of Hl with launch _ _ _ _ _ ?st = _ =>
    pose proof (@frame_launch (fun _ => True) v w args kwargs winner I st) as Hfl;
    pose proof (launch_best_config v w args kwargs winner st) as Hbest;
    pose proof (launch_configs_timings v w args kwargs winner st) as Hct
  end.
  rewrite Hl in Hfl, Hbest, Hct. simpl in Hfl, Hbest, Hct.
  destruct Hfl as (Hc & Htm & Hs & _). simpl in Hc, Htm, Hs.
  apply launch_ok in Hl as [Htr Hn]. simpl in Htr.
  assert (Hcache : cache s' = cache s ++ [(key, winner)]).
  { rewrite Hc, Hc1, Hc2. simpl.
    apply (@dict_set_fresh _ _ _ key_eqb_eq).
    intro Hin. apply (@dict_mem_in _ _ _ key_eqb_eq) in Hin. congruence. }
  assert (Htim : _timings s' = dict_set key_eqb (_timings s) key t).
  { rewrite Htm, Ht1, Ht2. reflexivity. }
  repeat split; try assumption.
  - assert (Hk : dict_mem Config.eqb timings winner = true)
      by (unfold dict_mem; now rewrite Hget).
    destruct (benchmark_keys_from _ _ _ _ _ _ _ _ Hb _ Hk) as [H|H];
      [assumption|discriminate].
  - intro Hmode. apply (@not_all_failed_finite v self t Hmode); [|assumption].
    eapply benchmark_values; [exact Hb|intros ? ? []|].
    apply (@dict_get_in _ _ _ config_eqb_eq). exact Hget.
  - now rewrite Hct, Hct1.
  - rewrite Hs, Hs1, Hs2. simpl. rewrite Hc, Htm. reflexivity.
  - rewrite Htr, Htr1, Htr2. simpl. now rewrite app_assoc.
Qed.

Lemma successful_miss_witness :
  exists winner t pruned timings s2 trials,
    fst (prune_configs 3 Ex.two [] (entered Ex.two [Ex.x; VInt 100] Ex.fresh))
    = Ok pruned
    /\ benchmark 3 Ex.ok_world Ex.two [Ex.x; VInt 100] [] pruned []
         (entered Ex.two [Ex.x; VInt 100] Ex.fresh)
       = (Ok timings, s2)
    /\ py_min timings = Ok winner
    /\ dict_get Config.eqb timings winner = Some t
    /\ In winner pruned
    /\ all_failed Ex.two t = Ok false
    /\ ((use_cuda_graph Ex.two = true -> (3 <= 3)%Z) -> finite t)
    /\ configs_timings
         (snd (run 3 Ex.ok_world Ex.two [Ex.x; VInt 100] [] Ex.fresh))
       = timings
    /\ cache (snd (run 3 Ex.ok_world Ex.two [Ex.x; VInt 100] [] Ex.fresh))
       = cache Ex.fresh ++ [(Ex.key100, winner)]
    /\ _timings (snd (run 3 Ex.ok_world Ex.two [Ex.x; VInt 100] [] Ex.fresh))
       = dict_set key_eqb (_timings Ex.fresh) Ex.key100 t
    /\ storage (snd (run 3 Ex.ok_world Ex.two [Ex.x; VInt 100] [] Ex.fresh))
       = storage Ex.fresh
         ++ [mk_store_call
               (cache (snd (run 3 Ex.ok_world Ex.two [Ex.x; VInt 100] []
                              Ex.fresh)))
               (configs_len Ex.two)
               (_timings (snd (run 3 Ex.ok_world Ex.two [Ex.x; VInt 100] []
                                 Ex.fresh)))
               (rep_t Ex.two) (warmup_t Ex.two)]
    /\ best_config (snd (run 3 Ex.ok_world Ex.two [Ex.x; VInt 100] [] Ex.fresh))
       = Some winner
    /\ nargs (snd (run 3 Ex.ok_world Ex.two [Ex.x; VInt 100] [] Ex.fresh))
       = None
    /\ trace (snd (run 3 Ex.ok_world Ex.two [Ex.x; VInt 100] [] Ex.fresh))
       = trace Ex.fresh ++ trials ++ [Dispatch winner]
    /\ Forall (fun e => exists c, e = Trial c /\ In c pruned) trials.
Proof.
  apply (@successful_miss 3 Ex.ok_world Ex.two [Ex.x; VInt 100] [] Ex.fresh
           Ex.key100 VNone
           (snd (run 3 Ex.ok_world Ex.two [Ex.x; VInt 100] [] Ex.fresh))).
  - simpl. lia.
  - reflexivity.
  - reflexivity.
  - apply surjective_pair. reflexivity.
Defined.

(** X15. When pruning leaves no candidate (an [early_config_prune] that
    returns the empty list), a call that misses the cache fails with the
    [ValueError] of [min] over an empty sequence; nothing is cached, stored or
    launched. *)
Theorem miss_without_candidates :
  forall v w self args kwargs s key,
    1 < length (configs self) ->
    derive_key self (nargs_of self args) kwargs = Ok key ->
    dict_mem key_eqb (cache s) key = false ->
    fst (prune_configs v self kwargs (entered self args s)) = Ok [] ->
    run v w self args kwargs s
    = (Raise MinOfEmptySequence, entered self args s).
Proof.
  intros v w self args kwargs s key Hlen Hkey Hmiss Hp.
  apply run_raises.
  rewrite (@resolve_miss v w self args kwargs s key Hlen Hkey Hmiss).
  unfold tune. unfold bind at 1. rewrite prune_configs_pair, Hp. reflexivity.
Qed.

Lemma miss_without_candidates_witness :
  run 3 Ex.ok_world Ex.nothing_left [Ex.x; VInt 100] [] Ex.fresh
  = (Raise MinOfEmptySequence,
     entered Ex.nothing_left [Ex.x; VInt 100] Ex.fresh).
Proof.
  apply (@miss_without_candidates 3 Ex.ok_world Ex.nothing_left
           [Ex.x; VInt 100] [] Ex.fresh Ex.key100).
  - simpl. lia.
  - reflexivity.
  - reflexivity.
  - reflexivity.
Defined.

(** ** [_all_kwargs] *)

Section DictLookup.
Variables K V : Type.
Variable eqb : K -> K -> bool.
Hypothesis eqb_eq : forall a b, eqb a b = true <-> a = b.

Lemma dict_get_app (d1 d2 : dict K V) k :
  dict_get eqb (d1 ++ d2) k
  = match dict_get eqb d1 k with
    | Some x => Some x
    | None => dict_get eqb d2 k
    end.
Proof.
  induction d1 as [|[k0 v0] d1 IH]; simpl; [reflexivity|].
  now destruct (eqb k k0).
Qed.

(** A lookup in [{**d1, **d2}]: the last value [d2] gives for the key, else
    the value of [d1]. *)
Lemma dict_update_get (d2 : list (K * V)) :
  forall d1 k,
    dict_get eqb (dict_update eqb d1 d2) k
    = match dict_get eqb (rev d2) k with
      | Some x => Some x
      | None => dict_get eqb d1 k
      end.
Proof.
  unfold dict_update. induction d2 as [|[k0 v0] d2 IH]; intros d1 k; simpl.
  - reflexivity.
  - rewrite IH, dict_get_app. destruct (dict_get eqb (rev d2) k); [reflexivity|].
    simpl. destruct (eqb k k0) eqn:E.
    + apply eqb_eq in E. subst. apply (@dict_get_set_same _ _ _ eqb_eq).
    + apply (@dict_get_set_other _ _ _ eqb_eq). intros ->.
      rewrite (proj2 (eqb_eq k0 k0) eq_refl) in E. discriminate.
Qed.
End DictLookup.

(** The launch parameter of a configuration that goes by [name]. *)
Definition launch_parameter (config : Config.t) (name : string) : option Z :=
  if String.eqb name "num_warps" then Config.num_warps config
  else if String.eqb name "num_ctas" then Config.num_ctas config
  else if String.eqb name "num_stages" then Config.num_stages config
  else if String.eqb name "maxnreg" then Config.maxnreg config
  else None.

(** X16. In the keyword arguments [_all_kwargs] builds, a launch parameter
    that is set hides a meta-parameter of the same name; a launch parameter
    that is [None] is left out, so that a meta-parameter of that name, if
    any, shows; every other name is looked up in [kwargs]. *)
Theorem all_kwargs_lookup :
  forall config name,
    kw_get (Config.all_kwargs config) name
    = match launch_parameter config name with
      | Some z => Some (VInt z)
      | None => kw_get (Config.kwargs config) name
      end.
Proof.
  intros config name. unfold Config.all_kwargs, kw_get, kw_update.
  rewrite (@dict_update_get _ _ _ String.eqb_eq). unfold launch_parameter.
  destruct (Config.num_warps config), (Config.num_ctas config),
    (Config.num_stages config), (Config.maxnreg config); simpl;
    repeat match goal with
           | |- context [String.eqb name ?k] =>
               destruct (String.eqb_spec name k); [subst name; simpl|]
           end; reflexivity.
Qed.

(** ** [__init__] *)

Lemma res_map_index_of names keys idxs :
  res_map (index_of names) keys = Ok idxs ->
  Forall2 (fun i k => nth_error names i = Some k) idxs keys.
Proof.
  revert idxs. induction keys as [|k keys IH]; intro idxs; simpl.
  - intros [= <-]. constructor.
  - destruct (index_of names k) as [i|e] eqn:Ei; [|discriminate].
    destruct (res_map (index_of names) keys) as [js|e]; [|discriminate].
    intros [= <-]. constructor; [now apply index_of_nth|now apply IH].
Qed.

Lemma indices_spec names given idxs :
  indices names given = Ok idxs ->
  Forall2 (fun i k => nth_error names i = Some k) idxs
          (match given with Some l => l | None => [] end).
Proof.
  destruct given as [l|]; simpl.
  - apply res_map_index_of.
  - intros [= <-]. constructor.
Qed.

(** X17. In an engine that [__init__] has built, [key_idx], [reset_idx] and
    [restore_idx] are positions in [arg_names], one per name of [key],
    [reset_to_zero] and [restore_value] and in the same order, and the argument
    declared at each position is the one that was named. *)
Theorem init_positions :
  forall v cuda only used names cfgs key rz rv pre post prune warmup rep graph
         space self,
    init v cuda only used names cfgs key rz rv pre post prune warmup rep graph
         space = Ok self ->
    arg_names self = names
    /\ Forall2 (fun i k => nth_error names i = Some k) (key_idx self) key
    /\ Forall2 (fun i k => nth_error names i = Some k) (reset_idx self)
         (match rz with Some l => l | None => [] end)
    /\ Forall2 (fun i k => nth_error names i = Some k) (restore_idx self)
         (match rv with Some l => l | None => [] end).
Proof.
  intros v cuda only used names cfgs key rz rv pre post prune warmup rep graph
         space self.
  unfold init.
  destruct (match space with Some _ => _ | None => _ end); [|discriminate].
  destruct (indices names (Some key)) as [ki|] eqn:Ek; [|discriminate].
  destruct (indices names rz) as [zi|] eqn:Ez; [|discriminate].
  destruct (indices names rv) as [ri|] eqn:Er; [|discriminate].
  intros [= <-]. simpl.
  apply indices_spec in Ek, Ez, Er. auto.
Qed.

(** [reset_to_zero=["x"]], [restore_value=["x"]], [key=["n"]]. *)
Lemma init_positions_witness :
  arg_names Ex.reset_and_restored = ["x"; "n"]
  /\ Forall2 (fun i k => nth_error ["x"; "n"] i = Some k)
       (key_idx Ex.reset_and_restored) ["n"]
  /\ Forall2 (fun i k => nth_error ["x"; "n"] i = Some k)
       (reset_idx Ex.reset_and_restored) ["x"]
  /\ Forall2 (fun i k => nth_error ["x"; "n"] i = Some k)
       (restore_idx Ex.reset_and_restored) ["x"].
Proof.
  apply (@init_positions 3 true false [] ["x"; "n"] [Ex.c16; Ex.c32] ["n"]
           (Some ["x"]) (Some ["x"]) None None None 25%Z 100%Z false None
           Ex.reset_and_restored).
  reflexivity.
Defined.

Lemma index_of_missing names k :
  ~ In k names -> index_of names k = Raise NotInList.
Proof.
  induction names as [|n names IH]; simpl; intro H; [reflexivity|].
  destruct (String.eqb_spec n k) as [->|Hne]; [exfalso; auto|].
  rewrite IH; auto.
Qed.

Lemma res_map_index_of_missing names keys k :
  In k keys -> ~ In k names ->
  res_map (index_of names) keys = Raise NotInList.
Proof.
  intros Hin Hk. induction keys as [|k0 keys IH]; simpl; [destruct Hin|].
  destruct (index_of names k0) as [i|e] eqn:Ei.
  - destruct Hin as [->|Hin]; [rewrite index_of_missing in Ei; congruence|].
    now rewrite IH.
  - destruct (in_dec string_dec k0 names) as [Hy|Hn].
    + exfalso. clear - Hy Ei. induction names as [|n names IHn]; simpl in *;
        [destruct Hy|].
      destruct (String.eqb_spec n k0); [discriminate|].
      destruct Hy as [->|Hy]; [congruence|].
      destruct (index_of names k0); [discriminate|]. now apply IHn.
    + rewrite index_of_missing in Ei by assumption. congruence.
Qed.

(** X18. A name in [key] that is no argument of the kernel makes the
    construction fail with the [ValueError] of [list.index] (unless the
    assertion on [configs] and [config_space] failed before). *)
Theorem init_unknown_key :
  forall v cuda only used names cfgs key rz rv pre post prune warmup rep graph
         space k,
    In k key -> ~ In k names ->
    space = None \/ cfgs = [] ->
    init v cuda only used names cfgs key rz rv pre post prune warmup rep graph
         space = Raise NotInList.
Proof.
  intros v cuda only used names cfgs key rz rv pre post prune warmup rep graph
         space k Hin Hk Hconf.
  unfold init.
  assert (He : indices names (Some key) = Raise NotInList)
    by (simpl; eapply res_map_index_of_missing; eassumption).
  rewrite He.
  destruct Hconf as [-> | ->]; [destruct cfgs|destruct space]; reflexivity.
Qed.

Lemma init_unknown_key_witness :
  init 3 true false [] ["x"; "n"] [Ex.c16; Ex.c32] ["m"] None None None None
       None 25%Z 100%Z false None
  = Raise NotInList.
Proof.
  apply (@init_unknown_key 3 true false [] ["x"; "n"] [Ex.c16; Ex.c32] ["m"]
           None None None None None 25%Z 100%Z false None "m").
  - left. reflexivity.
  - intros [H|[H|[]]]; discriminate H.
  - left. reflexivity.
Defined.

(** ** Conditions as a filter *)

Lemma filter_list_prod {A B} (p : A -> bool) (a : list A) (b : list B) :
  list_prod (filter p a) b = filter (fun ab => p (fst ab)) (list_prod a b).
Proof.
  induction a as [|x a IH]; simpl; [reflexivity|].
  rewrite filter_app, <- IH.
  assert (H : forall l : list B,
             filter (fun ab : A * B => p (fst ab)) (map (fun y => (x, y)) l)
             = if p x then map (fun y => (x, y)) l else []).
  { induction l as [|y l IHl]; simpl; [now destruct (p x)|].
    rewrite IHl. now destruct (p x). }
  rewrite H. now destruct (p x).
Qed.

(** X19. The conditions of a space act as a filter on the list generated
    without them: [generate_config_list] returns, in the same order, the
    configurations of the unconditioned list whose meta-parameters every
    condition accepts. *)
Theorem conditions_filter_the_generated_list :
  forall v cs,
    ConfigSpace.generate_config_list v cs
    = filter (fun c => ConfigSpace.accepted cs (Config.kwargs c))
        (ConfigSpace.generate_config_list v (ConfigSpace.with_conditions cs [])).
Proof.
  intros v cs. unfold ConfigSpace.generate_config_list.
  rewrite filter_map_comm. f_equal.
  - unfold ConfigSpace.kwarg_lists.
    replace (ConfigSpace.config_product v (ConfigSpace.with_conditions cs []))
      with (ConfigSpace.config_product v cs) by reflexivity.
    replace (ConfigSpace.kwarg_lists_complete (ConfigSpace.with_conditions cs []))
      with (ConfigSpace.kwarg_lists_complete cs) by reflexivity.
    replace (filter (ConfigSpace.accepted (ConfigSpace.with_conditions cs []))
               (ConfigSpace.kwarg_lists_complete cs))
      with (ConfigSpace.kwarg_lists_complete cs)
      by (symmetry; apply filter_true).
    rewrite filter_list_prod. apply filter_ext.
    intros [kw [[[nw nc] ns] ews]]. reflexivity.
Qed.

(** ** Arguments to reset or restore *)

Lemma tensor_arg_raises args i s :
  (forall l dt, nth_error args i <> Some (VTensor l dt)) ->
  exists e, tensor_arg args i s = (Raise e, s)
            /\ (e = IndexError \/ e = AttributeError).
Proof.
  intro H. unfold tensor_arg.
  destruct (nth_error args i) as [[| | | |l dt]|] eqn:E;
    try (exists AttributeError; split; [reflexivity|now right]).
  - exfalso. now apply (H l dt).
  - exists IndexError. split; [reflexivity|now left].
Qed.

Lemma tensor_arg_error args i s e s' :
  tensor_arg args i s = (Raise e, s') -> e = IndexError \/ e = AttributeError.
Proof.
  unfold tensor_arg. destruct (nth_error args i) as [[| | | |l dt]|];
    unfold ret, raise; intros [= <- _]; auto.
Qed.

Lemma zero__error args k s e s' :
  zero_ args k s = (Raise e, s') -> e = IndexError \/ e = AttributeError.
Proof.
  unfold zero_, bind.
  destruct (tensor_arg args k s) as [[l|e'] s2] eqn:E'.
  - unfold modify. discriminate.
  - intros [= <- _]. eapply tensor_arg_error; eassumption.
Qed.

Lemma clone_error args k s e s' :
  clone args k s = (Raise e, s') -> e = IndexError \/ e = AttributeError.
Proof.
  unfold clone, bind.
  destruct (tensor_arg args k s) as [[l|e'] s2] eqn:E'.
  - unfold get, ret. discriminate.
  - intros [= <- _]. eapply tensor_arg_error; eassumption.
Qed.

Lemma reset_loop_error args idxs :
  forall s e s',
    for_each idxs (zero_ args) s = (Raise e, s') ->
    e = IndexError \/ e = AttributeError.
Proof.
  induction idxs as [|k idxs IH]; intros s e s'; simpl; [discriminate|].
  unfold bind at 1. destruct (zero_ args k s) as [[[]|e'] s2] eqn:E'.
  - apply IH.
  - intros [= <- _]. eapply zero__error; eassumption.
Qed.

(** A loop over positions that gets to one where no tensor was passed. *)
Lemma zero__raises args idxs i :
  In i idxs ->
  (forall l dt, nth_error args i <> Some (VTensor l dt)) ->
  forall s, exists e s',
    for_each idxs (zero_ args) s = (Raise e, s')
    /\ (e = IndexError \/ e = AttributeError)
    /\ trace s' = trace s.
Proof.
  intros Hin Hbad. induction idxs as [|k idxs IH]; [destruct Hin|].
  intro s. simpl. unfold bind at 1.
  pose proof (frame_no_event (frame_zero_ (fun _ => False) args k s)) as Ht.
  destruct (zero_ args k s) as [[[]|e] s1] eqn:E; simpl in Ht.
  - destruct Hin as [->|Hin].
    + exfalso. revert E. unfold zero_, bind.
      destruct (@tensor_arg_raises args i s Hbad) as (e & -> & _). discriminate.
    + destruct (IH Hin s1) as (e & s' & H1 & H2 & H3).
      exists e, s'. repeat split; [assumption|assumption|congruence].
  - exists e, s1. repeat split; [|assumption]. eapply zero__error; eassumption.
Qed.

Lemma clone_raises args idxs i :
  In i idxs ->
  (forall l dt, nth_error args i <> Some (VTensor l dt)) ->
  forall s, exists e s',
    comprehension idxs (clone args) s = (Raise e, s')
    /\ (e = IndexError \/ e = AttributeError)
    /\ trace s' = trace s.
Proof.
  intros Hin Hbad. induction idxs as [|k idxs IH]; [destruct Hin|].
  intro s. simpl. unfold bind at 1.
  pose proof (frame_no_event (frame_clone (fun _ => False) args k s)) as Ht.
  destruct (clone args k s) as [[c|e] s1] eqn:E; simpl in Ht.
  - destruct Hin as [->|Hin].
    + exfalso. revert E. unfold clone, bind.
      destruct (@tensor_arg_raises args i s Hbad) as (e & -> & _). discriminate.
    + destruct (IH Hin s1) as (e & s' & H1 & H2 & H3).
      unfold bind at 1. rewrite H1.
      exists e, s'. repeat split; [assumption|congruence].
  - exists e, s1. repeat split; [|assumption]. eapply clone_error; eassumption.
Qed.

Lemma _pre_hook_raises self args i :
  In i (reset_idx self ++ restore_idx self) ->
  (forall l dt, nth_error args i <> Some (VTensor l dt)) ->
  forall s, exists e s',
    _pre_hook self args false s = (Raise e, s')
    /\ (e = IndexError \/ e = AttributeError)
    /\ trace s' = trace s.
Proof.
  intros Hin Hbad s. unfold _pre_hook. unfold bind at 1.
  apply in_app_or in Hin as [Hin|Hin].
  - destruct (zero__raises args _ _ Hin Hbad s) as (e & s' & -> & H2 & H3).
    eauto.
  - pose proof (frame_no_event
                  (@stable_for_each _ (@frame_refl (fun _ => False))
                     (@frame_trans _) _ (reset_idx self) (zero_ args)
                     (frame_zero_ (fun _ => False) args) s)) as Ht.
    destruct (for_each (reset_idx self) (zero_ args) s) as [[[]|e] s1] eqn:E;
      simpl in Ht.
    + unfold bind at 1.
      destruct (clone_raises args _ _ Hin Hbad s1) as (e & s' & -> & H2 & H3).
      exists e, s'. repeat split; [assumption|congruence].
    + exists e, s1. repeat split; [|assumption].
      eapply reset_loop_error; eassumption.
Qed.

(** X20. The default hooks address the buffers to reset or restore by
    position in the positional arguments.  When an argument named in
    [reset_to_zero] or [restore_value] is not passed positionally as a tensor
    (it is passed by keyword, or is no tensor), a trial fails in the hook
    with an [IndexError] or an [AttributeError], which [_bench] lets through:
    the kernel is not launched. *)
Theorem reset_and_restore_need_positional_tensors :
  forall v w self args config meta s n i,
    custom_pre_hook self = None ->
    Config.pre_hook config = None ->
    keys_inter String.eqb meta (Config.kwargs config) = [] ->
    nargs s = Some n ->
    In i (reset_idx self ++ restore_idx self) ->
    (forall l dt, nth_error args i <> Some (VTensor l dt)) ->
    exists e s',
      _bench v w self args config meta s = (Raise e, s')
      /\ (e = IndexError \/ e = AttributeError)
      /\ trace s' = trace s.
Proof.
  intros v w self args config meta s n i Hpre Hhook Hconf Hn Hin Hbad.
  rewrite (@_bench_unfold v w self args config meta s n Hconf Hn).
  assert (Hp : pre_hook self args false = _pre_hook self args false).
  { unfold pre_hook. rewrite Hpre.
    destruct (reset_idx self) as [|a r]; [|reflexivity].
    destruct (restore_idx self) as [|a r]; [destruct Hin|reflexivity]. }
  destruct (_pre_hook_raises self args i Hin Hbad s) as (e & s' & He & Hcases & Ht).
  exists e, s'.
  assert (Hk : forall current fn,
             kernel_call v w self args config current fn s = (Raise e, s')).
  { intros current fn. unfold kernel_call. unfold bind at 1.
    unfold call_config_pre_hook. rewrite Hhook. unfold ret at 1.
    unfold bind at 1. now rewrite Hp, He. }
  assert (Hm : forall current fn,
             measure v w self args config current fn s = (Raise e, s')).
  { intros current fn.
    assert (Hr : forall k,
               repeat_call (S k)
                 (kernel_call v w self args config current fn) s
               = (Raise e, s'))
      by (intro k; simpl; unfold bind; now rewrite Hk).
    unfold measure, do_bench, do_bench_cudagraph.
    destruct (3 <=? v)%Z; [destruct (use_cuda_graph self)|];
      unfold bind at 1; now rewrite Hr. }
  unfold try_except. rewrite Hm. repeat split; try assumption.
  unfold bench_handler.
  destruct Hcases as [-> | ->]; destruct (3 <=? v)%Z; reflexivity.
Qed.

(** [x], named in [reset_to_zero], is passed by keyword. *)
Lemma reset_and_restore_need_positional_tensors_witness :
  exists e s',
    _bench 3 Ex.ok_world Ex.resetting [] Ex.c16
      [("x", Ex.x); ("n", VInt 100)] (set_nargs (Some []) Ex.fresh)
    = (Raise e, s')
    /\ (e = IndexError \/ e = AttributeError)
    /\ trace s' = trace (set_nargs (Some []) Ex.fresh).
Proof.
  apply (@reset_and_restore_need_positional_tensors 3 Ex.ok_world Ex.resetting
           [] Ex.c16 [("x", Ex.x); ("n", VInt 100)]
           (set_nargs (Some []) Ex.fresh) [] 0).
  - reflexivity.
  - reflexivity.
  - reflexivity.
  - reflexivity.
  - left. reflexivity.
  - intros l dt. discriminate.
Defined.

(** ** The cache and the storage along a call *)

Lemma tune_storage v w self args kwargs key s :
  storage (snd (tune v w self args kwargs key s)) = storage s.
Proof.
  destruct (fst (prune_configs v self kwargs s)) as [pruned|e] eqn:Hp.
  - pose proof (@frame_benchmark (fun _ => True) v w self args kwargs pruned []
                  (fun _ _ => I) s) as (_ & _ & Hs & _).
    destruct (benchmark v w self args kwargs pruned [] s) as [[timings|e] s2] eqn:Hb;
      simpl in Hs.
    + destruct (py_min timings) as [winner|e] eqn:Hm.
      * destruct (@tune_selected v w self args kwargs key _ _ _ _ _ Hp Hb Hm)
          as (t & _ & ->).
        destruct (all_failed self t) as [[|]|e]; simpl; try exact Hs.
        match goal with |- context [pre_hook self args true ?st] =>
          pose proof (frame_pre_hook (fun _ => True) self args true st) as Hf;
          destruct (pre_hook self args true st) as [[[]|e] s4]
        end; destruct Hf as (_ & _ & Hf & _); simpl in *; now rewrite Hf.
      * unfold tune. unfold bind at 1.
        rewrite prune_configs_pair, Hp. unfold bind at 1. rewrite Hb.
        unfold bind at 1. unfold lift at 1. rewrite Hm. exact Hs.
    + unfold tune. unfold bind at 1.
      rewrite prune_configs_pair, Hp. unfold bind at 1. rewrite Hb. exact Hs.
  - unfold tune. unfold bind at 1.
    rewrite prune_configs_pair, Hp. reflexivity.
Qed.

(** A [tune] that returns has written the winner to the cache. *)
Lemma tune_ok_cache v w self args kwargs key s config s' :
  tune v w self args kwargs key s = (Ok config, s') ->
  cache s' = dict_set key_eqb (cache s) key config.
Proof.
  intro Ht. apply tune_ok_steps in Ht
    as (pruned & timings & s2 & t & Hp & Hb & Hm & Hget & Hf & Hpre).
  pose proof (@frame_benchmark (fun _ => True) v w self args kwargs pruned []
                (fun _ _ => I) s) as (Hc2 & _).
  rewrite Hb in Hc2. simpl in Hc2.
  match type of Hpre with pre_hook _ _ _ ?st = _ =>
    pose proof (frame_pre_hook (fun _ => True) self args true st) as (Hc1 & _)
  end.
  rewrite Hpre in Hc1. simpl in Hc1. now rewrite Hc1, Hc2.
Qed.

(** The outcome of a call that does not tune, or whose tuning is over. *)
Definition dispatch (v : Z) (w : World) (args : list pyval) (kwargs : kwdict)
    (r : res Config.t) (s : state) : res pyval * state :=
  match r with
  | Ok c => launch v w args kwargs c s
  | Raise e => (Raise e, s)
  end.

Lemma dispatch_frame v w args kwargs r s :
  cache (snd (dispatch v w args kwargs r s)) = cache s
  /\ storage (snd (dispatch v w args kwargs r s)) = storage s.
Proof.
  destruct r as [c|e]; simpl; [|now split].
  destruct (@frame_launch (fun _ => True) v w args kwargs c I s)
    as (H1 & _ & H3 & _). now split.
Qed.

Lemma run_dispatch v w self args kwargs s :
  run v w self args kwargs s
  = dispatch v w args kwargs (fst (resolve v w self args kwargs s))
      (snd (resolve v w self args kwargs s)).
Proof.
  unfold run, bind, dispatch.
  now destruct (resolve v w self args kwargs s) as [[c|e] s1].
Qed.

(** X21. The cache is append-only and the storage hears of new entries
    only: a call adds at most one entry to the cache, after the entries that
    were there (restored ones included), and reports to the storage at most
    once, and only a cache to which it has added an entry. *)
Theorem run_appends_at_most_one_entry :
  forall v w self args kwargs s,
    exists added reports,
      cache (snd (run v w self args kwargs s)) = cache s ++ added
      /\ storage (snd (run v w self args kwargs s)) = storage s ++ reports
      /\ length reports <= length added <= 1
      /\ forall r, In r reports ->
                   sc_cache r = cache (snd (run v w self args kwargs s)).
Proof.
  intros v w self args kwargs s. rewrite run_dispatch.
  destruct (dispatch_frame v w args kwargs
              (fst (resolve v w self args kwargs s))
              (snd (resolve v w self args kwargs s))) as [-> ->].
  assert (Hnone : forall r s1,
             resolve v w self args kwargs s = (r, s1) ->
             cache s1 = cache s -> storage s1 = storage s ->
             exists added reports,
               cache (snd (resolve v w self args kwargs s)) = cache s ++ added
               /\ storage (snd (resolve v w self args kwargs s))
                  = storage s ++ reports
               /\ length reports <= length added <= 1
               /\ forall x, In x reports ->
                            sc_cache x
                            = cache (snd (resolve v w self args kwargs s))).
  { intros r s1 -> Hc Hs. exists [], []. rewrite !app_nil_r. simpl.
    repeat split; auto. intros x []. }
  destruct (1 <? length (configs self)) eqn:Hlen.
  - apply Nat.ltb_lt in Hlen.
    destruct (derive_key self (nargs_of self args) kwargs) as [key|e] eqn:Hkey.
    + destruct (dict_get key_eqb (cache s) key) as [c|] eqn:Hget.
      * eapply Hnone; [eapply resolve_hit; eassumption| |]; reflexivity.
      * assert (Hmiss : dict_mem key_eqb (cache s) key = false)
          by (unfold dict_mem; now rewrite Hget).
        rewrite (@resolve_miss v w _ _ _ _ _ Hlen Hkey Hmiss).
        pose proof (tune_storage v w self args kwargs key (entered self args s))
          as Hst.
        assert (Hfresh : forall winner,
                   dict_set key_eqb (cache s) key winner
                   = cache s ++ [(key, winner)]).
        { intro winner. apply (@dict_set_fresh _ _ _ key_eqb_eq).
          intro Hin. apply (@dict_mem_in _ _ _ key_eqb_eq) in Hin. congruence. }
        destruct (tune v w self args kwargs key (entered self args s))
          as [[c|e] s1] eqn:Ht; simpl in Hst.
        -- apply tune_ok_cache in Ht. simpl in Ht. rewrite Hfresh in Ht.
           exists [(key, c)],
             [mk_store_call (cache s1) (configs_len self) (_timings s1)
                (rep_t self) (warmup_t self)].
           simpl. rewrite Ht, Hst.
           repeat split; auto. intros x [<-|[]]. reflexivity.
        -- pose proof (tune_cache v w self args kwargs key (entered self args s))
             as Hc.
           rewrite Ht in Hc. simpl in Hc. destruct Hc as [Hc|[winner Hc]].
           ++ exists [], []. rewrite !app_nil_r. simpl.
              repeat split; auto. intros x [].
           ++ exists [(key, winner)], []. simpl.
              rewrite Hc, Hst, Hfresh, app_nil_r.
              repeat split; auto. intros x [].
    + eapply Hnone;
        [unfold resolve, bind, modify, lift; simpl;
         apply Nat.ltb_lt in Hlen; rewrite Hlen; fold (nargs_of self args);
         rewrite Hkey; reflexivity
        |reflexivity|reflexivity].
  - destruct (configs self) as [|c cs] eqn:Hcfg.
    + eapply Hnone;
        [unfold resolve, bind, modify, ret, raise; simpl; rewrite Hcfg; simpl;
         reflexivity
        |reflexivity|reflexivity].
    + eapply Hnone;
        [unfold resolve, bind, modify, ret, raise; simpl; rewrite Hcfg;
         simpl in *; rewrite Hlen; reflexivity
        |reflexivity|reflexivity].
Qed.

(** ** Total failure and the storage *)







